(** * sigcheck: Authenticode validation of PE images rebuilt from memory

    A shallow embedding of [sigcheck.py], a plugin for Volatility 2
    written in Python 2, and the properties of its validation pipeline.

    Byte strings are lists of [byte], Python integers are [Z], and a
    call that can raise is a computation in the [result] monad.  The
    third-party collaborators of the plugin (pefile, hashlib, the
    openssl command line, the address space and the scanners of
    Volatility) are the fields of the record [Env]; every function of
    the plugin itself is written out from its source, under its name.

    Contents: the embedding; a reference environment and sample images
    on which it runs; the notions the properties are stated with; the
    properties, component by component. *)

From Stdlib Require Import ZArith Lia List String Ascii.
From Stdlib.Strings Require Import Byte.
From stdpp Require Import base list gmap strings.
Import ListNotations.

Local Open Scope Z_scope.

(** ** Python values and exceptions *)

Abbreviation bytes := (list byte) (only parsing).

#[global] Instance byte_eq_decision : EqDecision byte := Byte.byte_eq_dec.

(** The exceptions that the modelled code paths can raise. *)
Inductive exn :=
  | TypeError
  | StructError        (* struct.error *)
  | AttributeError
  | UnboundLocalError
  | KeyError
  | ValueError
  | IndexError
  | PEFormatError.     (* pefile.PEFormatError *)

#[global] Instance exn_eq_decision : EqDecision exn.
Proof. solve_decision. Defined.

Inductive result (A : Type) :=
  | Ok (a : A)
  | Raise (e : exn).
Arguments Ok {A} a.
Arguments Raise {A} e.

#[global] Instance result_ret : MRet result := fun A a => Ok a.
#[global] Instance result_bind : MBind result := fun A B f m =>
  match m with
  | Ok a => f a
  | Raise e => Raise e
  end.

(** ** Slices

    [data[a:b]], [data[:b]] and [data[a:]].  A bound below zero counts
    from the end; every bound is then clamped to the buffer, and an
    inverted range is empty. *)

Definition py_bound (len i : Z) : Z :=
  if i <? 0 then Z.max 0 (len + i) else Z.min i len.

Definition slice (data : bytes) (a b : Z) : bytes :=
  let len := Z.of_nat (length data) in
  let lo := py_bound len a in
  let hi := py_bound len b in
  take (Z.to_nat (hi - lo)) (drop (Z.to_nat lo) data).

Definition slice_to (data : bytes) (b : Z) : bytes :=
  take (Z.to_nat (py_bound (Z.of_nat (length data)) b)) data.

Definition slice_from (data : bytes) (a : Z) : bytes :=
  drop (Z.to_nat (py_bound (Z.of_nat (length data)) a)) data.

(** ** struct.pack / struct.unpack, little endian *)

Definition byte_val (b : byte) : Z := Z.of_N (Byte.to_N b).

Definition byte_of_Z (v : Z) : byte :=
  match Byte.of_N (Z.to_N (v mod 256)) with
  | Some b => b
  | None => x00
  end.

Fixpoint le_val (bs : bytes) : Z :=
  match bs with
  | [] => 0
  | b :: bs' => byte_val b + 256 * le_val bs'
  end.

Fixpoint le_bytes (n : nat) (v : Z) : bytes :=
  match n with
  | O => []
  | S n' => byte_of_Z v :: le_bytes n' (v / 256)
  end.

(** [struct.unpack('<I', bytes_)[0]]: struct.error unless exactly 4 bytes. *)
Definition unpack_dword (bytes_ : bytes) : result Z :=
  if decide (length bytes_ = 4%nat) then Ok (le_val bytes_) else Raise StructError.

(** [struct.pack('<I', v)]: struct.error when [v] does not fit. *)
Definition pack_dword (v : Z) : result bytes :=
  if decide (0 <= v < 2 ^ 32) then Ok (le_bytes 4 v) else Raise StructError.

Definition pack_qword (v : Z) : result bytes :=
  if decide (0 <= v < 2 ^ 64) then Ok (le_bytes 8 v) else Raise StructError.

(** [x + k] where [x] may be [None]: adding to [None] is a TypeError. *)
Definition py_add (x : option Z) (k : Z) : result Z :=
  match x with
  | Some v => Ok (v + k)
  | None => Raise TypeError
  end.

(** [x and y] on integers: [x] when [x] is falsy, otherwise [y]. *)
Definition py_and (x y : Z) : Z := if x =? 0 then x else y.

(** ** The verdicts *)

Inductive ReturnCode :=
  | FILEOBJECT_ERROR
  | PE_REBUILT_FAILED
  | PE_CHECKSUM_MISMATCH
  | PARTIAL_CONTENT_PE_DATA_ERROR
  | SIGNED_FILE_NOT_VERIFIED
  | CONTENT_SIGNED_NOT_VERIFIED
  | PARTIAL_CONTENT_MAYBE_CATALOG_SIGNED
  | PARTIAL_CONTENT_NOT_SIGNED
  | AUTHENTICODE_SIGNATURE_MISMATCH_OR_INCORRECT_IMAGEBASE
  | AUTHENTICODE_SIGNATURE_MISMATCH
  | CATALOG_SIGNED
  | MAYBE_CATALOG_SIGNED
  | NOT_SIGNED_OR_INCORRECT_IMAGEBASE
  | NOT_SIGNED
  | NOT_PEB
  | ALREADY_TERMINATED
  | PARTIAL_CERTIFICATE
  | PARTIAL_CONTENT_VERIFIED.

#[global] Instance ReturnCode_eq_decision : EqDecision ReturnCode.
Proof. solve_decision. Defined.

(** [ReturnCode.__int__]. *)
Definition ReturnCode_int (rc : ReturnCode) : Z :=
  match rc with
  | FILEOBJECT_ERROR => 1
  | PE_REBUILT_FAILED => 2
  | PE_CHECKSUM_MISMATCH => 3
  | PARTIAL_CONTENT_PE_DATA_ERROR => 4
  | SIGNED_FILE_NOT_VERIFIED => 5
  | CONTENT_SIGNED_NOT_VERIFIED => 6
  | PARTIAL_CONTENT_MAYBE_CATALOG_SIGNED => 7
  | PARTIAL_CONTENT_NOT_SIGNED => 8
  | AUTHENTICODE_SIGNATURE_MISMATCH_OR_INCORRECT_IMAGEBASE => 9
  | AUTHENTICODE_SIGNATURE_MISMATCH => 10
  | CATALOG_SIGNED => 11
  | MAYBE_CATALOG_SIGNED => 12
  | NOT_SIGNED_OR_INCORRECT_IMAGEBASE => 13
  | NOT_SIGNED => 14
  | NOT_PEB => 15
  | ALREADY_TERMINATED => 16
  | PARTIAL_CERTIFICATE => 17
  | PARTIAL_CONTENT_VERIFIED => 18
  end.

(** What a validation function hands back: a member of [ReturnCode], the
    verdict string of the CMS verifier, the formatted string of the
    partial path ([PARTIAL_CONTENT_VERIFIED] followed by the verdict), or
    [None] when the function falls off its end. *)
Inductive verdict :=
  | VCode (rc : ReturnCode)
  | VString (s : string)
  | VPartialVerified (s : string)
  | VNone.

#[global] Instance verdict_eq_decision : EqDecision verdict.
Proof. solve_decision. Defined.

(** ** The collaborators *)

Inductive hash_alg := md5 | sha1 | sha256.

#[global] Instance hash_alg_eq_decision : EqDecision hash_alg.
Proof. solve_decision. Defined.

(** The header fields of a [pefile.PE] object that the plugin reads. *)
Record PEHeaders := {
  SizeOfHeaders : Z;                 (* OPTIONAL_HEADER.SizeOfHeaders *)
  SizeOfRawData : list Z;            (* of each entry of pe.sections *)
  Security_VirtualAddress : Z;       (* DATA_DIRECTORY[SECURITY].VirtualAddress *)
  Security_Size : Z                  (* DATA_DIRECTORY[SECURITY].Size *)
}.

(** A [pefile.PE] object: the buffer it was built from ([__data__]) and
    its parsed headers. *)
Record PE := {
  pe_data : bytes;
  pe_headers : PEHeaders
}.

(** One entry of [file_object['present']]:
    memory offset, offset in the file, number of bytes. *)
Record PageSpan := {
  memory_offset : N;
  file_offset : N;
  byte_count : N
}.

Inductive section_kind := ImageSectionObject | DataSectionObject | SharedCacheMap.

#[global] Instance section_kind_eq_decision : EqDecision section_kind.
Proof. solve_decision. Defined.

(** The dict that DumpFiles yields for a section object: its name, its
    type, the resident pages and the pages that are missing. *)
Record FileObject := {
  fo_name : string;
  fo_type : section_kind;
  fo_present : list PageSpan;
  fo_pad : list PageSpan
}.

(** A dict yielded by DumpFiles: a section object, or a SharedCacheMap,
    which has no ['present'] key. *)
Inductive DumpFile :=
  | SectionDump (dumpfile : FileObject)
  | CacheMapDump (name : string).

(** An entry of [self.files], as [get_files] builds it from FileScan. *)
Record FileEntry := {
  fe_offset : N;
  fe_name : string
}.

(** A process as listed by [tasks.pslist]. *)
Record Task := {
  ImageFileName : string;
  UniqueProcessId : Z;
  Peb : bool;
  ExitTime : bool;
  load_modules : list (string * string)   (* FullDllName, BaseDllName *)
}.

(** A module to verify: full path, base name, owner id. *)
Definition ModuleEntry : Type := string * string * Z.

Record Env := {
  (** [getattr(hashlib, algorithm)(data).digest()] *)
  hashlib_digest : hash_alg -> bytes -> bytes;
  (** [pefile.PE(data=data, fast_load=True)]: the parsed headers, or the
      exception the constructor raises. *)
  pefile_parse : bytes -> result PEHeaders;
  (** What [pefile.PE(data=None, fast_load=True)] raises. *)
  pefile_no_data : exn;
  (** [pe.verify_checksum()] *)
  pefile_verify_checksum : PE -> bool;
  (** [pe.relocate_image(new_imagebase)]: [pe.__data__] afterwards, or
      the exception raised. *)
  pefile_relocate_image : PE -> Z -> result bytes;
  (** The two openssl runs of [verify_signature] and the handling of
      their output: the verdict string, or the exception raised. *)
  openssl_verdict : bytes -> result string;
  (** The contents of the [.cat] files under the catalog directory. *)
  catalog_files : list bytes;
  (** [addr_space.base.read(offset, length)]; [None] when unreadable. *)
  base_read : N -> N -> option bytes;
  (** addresses.json for the active profile: extension to the candidate
      image bases, each already through [int(_, 16)]. *)
  frequent_addresses : gmap string (list Z);
  (** [tasks.pslist(addr_space)] *)
  pslist : list Task;
  (** [get_sys_modules()] *)
  sys_modules : list ModuleEntry;
  (** [filescan.FileScan(config).calculate()], as [get_files] keeps it. *)
  filescan : list FileEntry;
  (** [re.match('^' + normalize_filepath(filename) + '$', name,
      flags=re.IGNORECASE)]: does the module path [filename] designate
      the file object named [name]? *)
  path_matches : string -> string -> bool;
  (** [dumpfiles.DumpFiles(config).calculate()] for the file object at
      a physical offset. *)
  dumpfiles : N -> list DumpFile;
  (** [config.SYS], [config.DLL] *)
  config_SYS : bool;
  config_DLL : bool
}.

(** ** PE layout, read by offset *)

Definition MZ : bytes := [x4d; x5a].
Definition PE00 : bytes := [x50; x45; x00; x00].
Definition MAGIC32 : bytes := [x0b; x01].
Definition MAGIC64 : bytes := [x0b; x02].

Definition get_nt_header_addr (pe_data : bytes) : result (option Z) :=
  if decide (slice_to pe_data 2 = MZ) then
    nt_headers_addr ← unpack_dword (slice pe_data 0x3c (0x3c + 0x04));
    let nt_headers := slice pe_data nt_headers_addr (nt_headers_addr + 0x04) in
    if decide (nt_headers = PE00) then Ok (Some nt_headers_addr) else Ok None
  else Ok None.

Definition is_32bits (content : bytes) : result bool :=
  nt_headers_addr ← get_nt_header_addr content;
  lo ← py_add nt_headers_addr 0x18;
  let magic := slice content lo (lo + 0x2) in
  Ok (bool_decide (magic = MAGIC32)).

Definition is_64bits (content : bytes) : result bool :=
  nt_headers_addr ← get_nt_header_addr content;
  lo ← py_add nt_headers_addr 0x18;
  let magic := slice content lo (lo + 0x2) in
  Ok (bool_decide (magic = MAGIC64)).

(** The Security directory entry: its offset, VirtualAddress and Size.
    When the magic is neither PE32 nor PE32+ the local
    [certificate_table_addr] is never bound and its first use raises. *)
Definition get_pe_certificate_attibutes (pe_data : bytes) : result (Z * Z * Z) :=
  nt_headers ← get_nt_header_addr pe_data;
  b32 ← is_32bits pe_data;
  certificate_table_addr ←
    (if b32 : bool then py_add nt_headers 0x98
     else
       b64 ← is_64bits pe_data;
       if b64 : bool then py_add nt_headers 0xa8 else Raise UnboundLocalError);
  certificate_virtual_addr ←
    unpack_dword (slice pe_data certificate_table_addr (certificate_table_addr + 0x04));
  certificate_size ←
    unpack_dword (slice pe_data (certificate_table_addr + 0x04) (certificate_table_addr + 0x08));
  Ok (certificate_table_addr, certificate_virtual_addr, certificate_size).

(** The bytes the Authenticode digest is taken over. *)
Definition authenticode_data (raw_data : bytes) : result bytes :=
  nt_headers_addr ← get_nt_header_addr raw_data;
  checksum_addr ← py_add nt_headers_addr 0x58;
  '(certificate_table_addr, certificate_virtual_addr, certificate_size) ←
    get_pe_certificate_attibutes raw_data;
  let data :=
    slice_to raw_data checksum_addr
    ++ slice raw_data (checksum_addr + 0x04) certificate_table_addr in
  if negb (py_and certificate_virtual_addr certificate_size =? 0) then
    Ok (data ++ (slice raw_data (certificate_table_addr + 0x08) certificate_virtual_addr
                 ++ slice_from raw_data (certificate_virtual_addr + certificate_size)))
  else
    Ok (data ++ slice_from raw_data (certificate_table_addr + 0x08)).

Section Hasher.
Context (E : Env).

(** [algorithm] is ['md5'], ['sha1'], ['sha256'] or [None];
    [getattr(hashlib, None)] is a TypeError. *)
Definition calculate_pe_digest (algorithm : option hash_alg) (raw_data : bytes)
  : result bytes :=
  data ← authenticode_data raw_data;
  match algorithm with
  | Some a => Ok (hashlib_digest E a data)
  | None => Raise TypeError
  end.
End Hasher.

(** ** CERTIFICATE_REGEX

    [\x30.\x30.\x06.(?P<oid_algorithm>.{5,9})\x05\x00\x04(?P<hash_size>.)]
    compiled without DOTALL, so [.] is any byte except a newline. *)

Definition dot (b : byte) : bool := negb (bool_decide (b = x0a)).

(** A match: the two groups, the length of the whole match and the input
    after [match.end()]. *)
Record re_match := {
  oid_algorithm : bytes;
  hash_size : byte;
  match_len : nat;
  after_match : bytes
}.

(** [\x05\x00\x04(?P<hash_size>.)] at the head of [s]. *)
Definition match_tail (s : bytes) : option (byte * bytes) :=
  match s with
  | b5 :: b0 :: b4 :: h :: rest =>
      if bool_decide (b5 = x05) && bool_decide (b0 = x00)
         && bool_decide (b4 = x04) && dot h
      then Some (h, rest) else None
  | _ => None
  end.

(** The group [.{k}] followed by the tail, for one repetition count [k]. *)
Definition match_oid (k : nat) (s : bytes) : option re_match :=
  let oid := take k s in
  if bool_decide (length oid = k) && forallb dot oid then
    match match_tail (drop k s) with
    | Some (h, rest) =>
        Some {| oid_algorithm := oid; hash_size := h;
                match_len := 6 + k + 4; after_match := rest |}
    | None => None
    end
  else None.

(** The greedy [.{5,9}]: the longest repetition that lets the rest of
    the pattern match is taken, so the counts are tried from 9 down. *)
Definition match_oid_greedy (s : bytes) : option re_match :=
  match match_oid 9 s with Some m => Some m | None =>
  match match_oid 8 s with Some m => Some m | None =>
  match match_oid 7 s with Some m => Some m | None =>
  match match_oid 6 s with Some m => Some m | None =>
  match_oid 5 s end end end end.

(** The whole pattern anchored at the head of [s]. *)
Definition match_here (s : bytes) : option re_match :=
  match s with
  | t1 :: l1 :: t2 :: l2 :: t3 :: l3 :: s' =>
      if bool_decide (t1 = x30) && dot l1 && bool_decide (t2 = x30) && dot l2
         && bool_decide (t3 = x06) && dot l3
      then match_oid_greedy s' else None
  | _ => None
  end.

(** [CERTIFICATE_REGEX.search(s)]: the leftmost match. *)
Fixpoint regex_search (s : bytes) : option re_match :=
  match match_here s with
  | Some m => Some m
  | None =>
      match s with
      | [] => None
      | _ :: s' => regex_search s'
      end
  end.

(** [CERTIFICATE_REGEX.finditer(s)]: the successive non-overlapping
    matches; [skip] counts the bytes of the last match still to pass. *)
Fixpoint regex_finditer_from (skip : nat) (s : bytes) : list re_match :=
  match s with
  | [] => []
  | _ :: s' =>
      match skip with
      | S k => regex_finditer_from k s'
      | O =>
          match match_here s with
          | Some m => m :: regex_finditer_from (match_len m - 1) s'
          | None => regex_finditer_from 0 s'
          end
      end
  end.

Definition regex_finditer (s : bytes) : list re_match := regex_finditer_from 0 s.

(** ** Signature extractor *)

Definition OID_md5 : bytes := [x2a; x86; x48; x86; xf7; x0d; x02; x05].
Definition OID_sha1 : bytes := [x2b; x0e; x03; x02; x1a].
Definition OID_sha256 : bytes := [x60; x86; x48; x01; x65; x03; x04; x02; x01].

(** The second component of the pair: the digest bytes, or the integer
    [0x00] of the no-match return. *)
Inductive py_hash :=
  | HashBytes (b : bytes)
  | HashInt (z : Z).

#[global] Instance py_hash_eq_decision : EqDecision py_hash.
Proof. solve_decision. Defined.

(** What [get_digest_from_signature] returns: a 2-tuple, or [None] when
    control reaches the end of the function. *)
Inductive digest_ret :=
  | DigestPair (algorithm : option hash_alg) (hash_file : py_hash)
  | DigestNone.

Definition get_digest_from_signature (signature : bytes) : digest_ret :=
  match regex_search signature with
  | Some m =>
      let hash_size := byte_val (hash_size m) in
      let digest := slice (after_match m) 0 hash_size in
      if decide (oid_algorithm m = OID_md5) then DigestPair (Some md5) (HashBytes digest)
      else if decide (oid_algorithm m = OID_sha1) then DigestPair (Some sha1) (HashBytes digest)
      else if decide (oid_algorithm m = OID_sha256) then DigestPair (Some sha256) (HashBytes digest)
      else DigestNone
  | None => DigestPair None (HashInt 0x00)
  end.

(** [algorithm, hash_file = ...]: unpacking [None] is a TypeError. *)
Definition unpack_pair (r : digest_ret) : result (option hash_alg * py_hash) :=
  match r with
  | DigestPair algorithm hash_file => Ok (algorithm, hash_file)
  | DigestNone => Raise TypeError
  end.

(** Truthiness of a byte string that may be [None]. *)
Definition truthy (b : option bytes) : bool :=
  match b with
  | Some (_ :: _) => true
  | _ => false
  end.

Definition has_cert (pe : PE) : bool :=
  negb (py_and (Security_Size (pe_headers pe))
               (Security_VirtualAddress (pe_headers pe)) =? 0).

Definition extract_cert (pe : PE) : option bytes :=
  if has_cert pe then
    Some (slice (pe_data pe)
                (Security_VirtualAddress (pe_headers pe))
                (Security_VirtualAddress (pe_headers pe) + Security_Size (pe_headers pe)))
  else None.

Section Catalog.
Context (E : Env).

(** Does [digest] equal a digest found by the pattern in a catalog file? *)
Definition is_in_catalog (digest : bytes) : bool :=
  existsb (fun data =>
    existsb (fun m =>
      bool_decide (digest = slice (after_match m) 0 (byte_val (hash_size m))))
      (regex_finditer data))
    (catalog_files E).
End Catalog.

(** ** Page assembler *)

(** An [io.BytesIO]: its contents and the stream position. *)
Record BytesIO := {
  bio_buf : bytes;
  bio_pos : nat
}.

Definition BytesIO_new : BytesIO := {| bio_buf := []; bio_pos := 0 |}.

Definition seek (p : nat) (f : BytesIO) : BytesIO :=
  {| bio_buf := bio_buf f; bio_pos := p |}.

(** [write] past the end first fills the gap with zero bytes; it then
    overwrites from the position on and extends the buffer as needed. *)
Definition write (d : bytes) (f : BytesIO) : BytesIO :=
  let padded := bio_buf f ++ replicate (bio_pos f - length (bio_buf f)) x00 in
  {| bio_buf := take (bio_pos f) padded ++ d ++ drop (bio_pos f + length d) padded;
     bio_pos := bio_pos f + length d |}.

Definition getvalue (f : BytesIO) : bytes := bio_buf f.

Section PageAssembler.
Context (E : Env).

(** The bytes read for one entry of [present], after the memory offset
    is masked to 32 bits. *)
Definition read_span (mdata : PageSpan) : option bytes :=
  base_read E (N.land (memory_offset mdata) 0xffffffff) (byte_count mdata).

(** One turn of the loop of [read_file_memory]. *)
Definition read_file_memory_step (of_ : BytesIO) (mdata : PageSpan) : BytesIO :=
  let rdata := read_span mdata in
  let of_ := seek (N.to_nat (file_offset mdata)) of_ in
  if truthy rdata then write (default [] rdata) of_
  else of_.   (* a warning is logged; nothing is written *)

Definition read_file_memory_present (present : list PageSpan) : bytes :=
  getvalue (foldl read_file_memory_step BytesIO_new present).

Definition read_file_memory (file_object : FileObject) : bytes :=
  read_file_memory_present (fo_present file_object).
End PageAssembler.

(** ** The pattern of the partial path

    [re.match(r'\Device\HarddiskVolume[0-9]\Windows', name)].  In the
    pattern the backslashes are not escaped: Python 2's [re] reads [\D]
    as "not a digit", [\W] as "not a word character" and [\H], which is
    no known escape, as the letter H. *)

Inductive re_item :=
  | Lit (c : ascii)
  | NotDigit       (* \D *)
  | Digit09        (* [0-9] *)
  | NotWord.       (* \W *)

Definition is_digit (c : ascii) : bool :=
  let n := nat_of_ascii c in (48 <=? n)%nat && (n <=? 57)%nat.

Definition is_word (c : ascii) : bool :=
  let n := nat_of_ascii c in
  is_digit c || ((65 <=? n)%nat && (n <=? 90)%nat)
  || ((97 <=? n)%nat && (n <=? 122)%nat) || (n =? 95)%nat.

Definition re_item_matches (it : re_item) (c : ascii) : bool :=
  match it with
  | Lit c' => bool_decide (c = c')
  | NotDigit => negb (is_digit c)
  | Digit09 => is_digit c
  | NotWord => negb (is_word c)
  end.

(** [re.match]: the pattern must match at the start of the string. *)
Fixpoint re_match_items (p : list re_item) (s : string) : bool :=
  match p with
  | [] => true
  | it :: p' =>
      match s with
      | EmptyString => false
      | String c s' => re_item_matches it c && re_match_items p' s'
      end
  end.

Definition lits (s : string) : list re_item := map Lit (list_ascii_of_string s).

Definition PARTIAL_PATH_REGEX : list re_item :=
  [NotDigit] ++ lits "evice" ++ lits "H" ++ lits "arddiskVolume"
  ++ [Digit09] ++ [NotWord] ++ lits "indows".

(** ** [get_pe_type]: [name.split('.')[-1].lower()] *)

Fixpoint last_dot_segment (acc : string) (s : string) : string :=
  match s with
  | EmptyString => acc
  | String c s' =>
      if bool_decide (c = "."%char) then last_dot_segment EmptyString s'
      else last_dot_segment (acc ++ String c EmptyString)%string s'
  end.

Definition lower_char (c : ascii) : ascii :=
  let n := nat_of_ascii c in
  if (65 <=? n)%nat && (n <=? 90)%nat then ascii_of_nat (n + 32) else c.

Fixpoint lower (s : string) : string :=
  match s with
  | EmptyString => EmptyString
  | String c s' => String (lower_char c) (lower s')
  end.

Definition get_pe_type (file_object : FileObject) : string :=
  lower (last_dot_segment EmptyString (fo_name file_object)).

(** ** Validation *)

Section Validation.
Context (E : Env).

(** [pefile.PE(data=data, fast_load=True)] *)
Definition pefile_PE (data : bytes) : result PE :=
  h ← pefile_parse E data;
  Ok {| pe_data := data; pe_headers := h |}.

(** Headers, all sections and the Authenticode signature, if any. *)
Definition calculate_pe_size (data : bytes) : result Z :=
  pe ← pefile_PE data;
  let size := SizeOfHeaders (pe_headers pe) in
  let size := foldl Z.add size (SizeOfRawData (pe_headers pe)) in
  Ok (size + Security_Size (pe_headers pe)).

Definition delete_padding (content : bytes) : result bytes :=
  real_size ← calculate_pe_size content;
  Ok (slice_to content real_size).

(** Returns [None] when the magic is neither PE32 nor PE32+. *)
Definition set_imagebase (imagebase : Z) (content : bytes) : result (option bytes) :=
  nt_headers_addr ← get_nt_header_addr content;
  b32 ← is_32bits content;
  if b32 : bool then
    lo ← py_add nt_headers_addr 0x34;
    packed ← pack_dword imagebase;
    Ok (Some (slice_to content lo ++ packed ++ slice_from content (lo + 0x4)))
  else
    b64 ← is_64bits content;
    if b64 : bool then
      lo ← py_add nt_headers_addr 0x30;
      packed ← pack_qword imagebase;
      Ok (Some (slice_to content lo ++ packed ++ slice_from content (lo + 0x8)))
    else Ok None.

Definition verify_signature (signature : bytes) : result verdict :=
  s ← openssl_verdict E signature;
  Ok (VString s).

Definition verify_pe (pe : PE) : result verdict :=
  let cert := extract_cert pe in
  if truthy cert then
    '(algorithm, hash_file) ← unpack_pair (get_digest_from_signature (default [] cert));
    match algorithm with
    | Some _ =>
        digest ← calculate_pe_digest E algorithm (pe_data pe);
        if decide (hash_file = HashBytes digest) then verify_signature (default [] cert)
        else Ok (VCode AUTHENTICODE_SIGNATURE_MISMATCH)
    | None => Ok (VCode PARTIAL_CERTIFICATE)
    end
  else
    digest ← calculate_pe_digest E (Some sha1) (pe_data pe);
    if is_in_catalog E digest then Ok (VCode CATALOG_SIGNED)
    else Ok (VCode NOT_SIGNED).

(** The first statements of the [try] for one candidate base: the image
    is parsed again, relocated to the candidate, its ImageBase field is
    patched and the result is parsed. *)
Definition rebase_candidate (content : bytes) (new_imagebase : Z) : result PE :=
  pe ← pefile_PE content;
  relocated ← pefile_relocate_image E pe new_imagebase;
  new_content ← set_imagebase new_imagebase relocated;
  match new_content with
  | Some d => pefile_PE d
  | None => Raise (pefile_no_data E)
  end.

(** The body of the [try]: [Some v] when it returns [v], [None] when it
    runs to its end. *)
Definition try_candidate (content : bytes) (new_imagebase : Z) : result (option verdict) :=
  pe ← rebase_candidate content new_imagebase;
  if pefile_verify_checksum E pe then
    v ← verify_pe pe;
    Ok (Some v)
  else Ok None.

(** The [for] loop over the candidate bases, with its [except]. *)
Fixpoint rebase_loop (content : bytes) (is_32bits : bool) (candidates : list Z)
  : result verdict :=
  match candidates with
  | [] => Ok (VCode PE_REBUILT_FAILED)
  | new_imagebase :: rest =>
      if is_32bits && (0xffffffff <? new_imagebase) then
        rebase_loop content is_32bits rest
      else
        match try_candidate content new_imagebase with
        | Ok (Some v) => Ok v
        | Ok None => rebase_loop content is_32bits rest
        | Raise AttributeError => rebase_loop content is_32bits rest
        | Raise StructError => rebase_loop content is_32bits rest
        | Raise e => Raise e
        end
  end.

Definition validate_image_section (content : bytes) (file_type : string)
  : result verdict :=
  content ← delete_padding content;
  pe ← pefile_PE content;
  is_32bits ← is_32bits content;
  if pefile_verify_checksum E pe then verify_pe pe
  else
    candidates ← match frequent_addresses E !! file_type with
                 | Some l => Ok l
                 | None => Raise KeyError
                 end;
    rebase_loop content is_32bits candidates.

Definition validate_data_section (content : bytes) : result verdict :=
  content ← delete_padding content;
  pe ← pefile_PE content;
  if pefile_verify_checksum E pe then
    let cert := extract_cert pe in
    if truthy cert then
      '(algorithm, hash_file) ← unpack_pair (get_digest_from_signature (default [] cert));
      digest ← calculate_pe_digest E algorithm content;
      if decide (hash_file = HashBytes digest) then verify_signature (default [] cert)
      else Ok (VCode AUTHENTICODE_SIGNATURE_MISMATCH)
    else
      digest ← calculate_pe_digest E (Some sha1) content;
      if is_in_catalog E digest then Ok (VCode CATALOG_SIGNED)
      else Ok (VCode NOT_SIGNED)
  else Ok (VCode PE_CHECKSUM_MISMATCH).

Definition validate_file (file_object : FileObject) : result verdict :=
  let content := read_file_memory E file_object in
  let file_type := get_pe_type file_object in
  match fo_type file_object with
  | ImageSectionObject => validate_image_section content file_type
  | DataSectionObject => validate_data_section content
  | SharedCacheMap => Ok VNone
  end.

(** The body of the [try] of [validate_partial_file]. *)
Definition validate_partial_body (file_object : FileObject) (content : bytes)
  : result verdict :=
  pe ← pefile_PE content;
  if has_cert pe then
    match fo_type file_object with
    | DataSectionObject =>
        let cert := extract_cert pe in
        if truthy cert then
          s ← openssl_verdict E (default [] cert);
          Ok (VPartialVerified s)
        else Ok (VCode CONTENT_SIGNED_NOT_VERIFIED)
    | ImageSectionObject => Ok (VCode CONTENT_SIGNED_NOT_VERIFIED)
    | SharedCacheMap => Ok VNone
    end
  else if re_match_items PARTIAL_PATH_REGEX (fo_name file_object) then
    Ok (VCode PARTIAL_CONTENT_MAYBE_CATALOG_SIGNED)
  else Ok (VCode PARTIAL_CONTENT_NOT_SIGNED).

Definition validate_partial_file (file_object : option FileObject) : result verdict :=
  match file_object with
  | Some fo =>
      let content := read_file_memory E fo in
      match validate_partial_body fo content with
      | Raise PEFormatError => Ok (VCode PARTIAL_CONTENT_PE_DATA_ERROR)
      | r => r
      end
  | None => Ok (VCode FILEOBJECT_ERROR)
  end.
End Validation.

(** ** The orchestrator *)

(** A triple yielded by [calculate]. *)
Record Yield := {
  y_name : string;
  y_pid : Z;
  y_result : verdict
}.

(** What the consumer of the generator observes: the triples yielded, in
    order, and the exception that ended the iteration, if any. *)
Record Trace := {
  yielded : list Yield;
  raised : option exn
}.

Definition trace_cons (y : Yield) (t : Trace) : Trace :=
  {| yielded := y :: yielded t; raised := raised t |}.

Definition get_pe_modules (task : Task) (dlls : bool) : list ModuleEntry :=
  let entry := fun m : string * string => (m.1, m.2, UniqueProcessId task) in
  if dlls then map entry (load_modules task)
  else if Peb task then
    match load_modules task with
    | m :: _ => [entry m]
    | [] => []
    end
  else [].

Section Orchestrator.
Context (E : Env).

(** The first dump with resident pages: complete when no page is
    missing.  A SharedCacheMap raises KeyError on ['present']; the
    error is caught, a warning is logged and the loop goes on. *)
Fixpoint extract_object_loop (dumps : list DumpFile) : bool * option FileObject :=
  match dumps with
  | [] => (false, None)
  | SectionDump dumpfile :: rest =>
      match fo_present dumpfile, fo_pad dumpfile with
      | _ :: _, [] => (true, Some dumpfile)
      | _ :: _, _ :: _ => (false, Some dumpfile)
      | [], _ => extract_object_loop rest
      end
  | CacheMapDump _ :: rest => extract_object_loop rest
  end.

Definition extract_object (file_object : FileEntry) : bool * option FileObject :=
  extract_object_loop (dumpfiles E (fe_offset file_object)).

(** The first file object whose name the module path designates. *)
Definition get_file_object (filename : string) : bool * option FileObject :=
  if bool_decide (filename <> EmptyString) then
    match List.find (fun file => path_matches E filename (fe_name file)) (filescan E) with
    | Some file => extract_object file
    | None => (false, None)
    end
  else (false, None).

(** The lookup of the file object and the validation of one module
    path. *)
Definition analyze (module_path : string) : result verdict :=
  let '(is_complete, file_object) := get_file_object module_path in
  if is_complete : bool then
    match file_object with
    | Some fo => validate_file E fo
    | None => Raise TypeError
    end
  else validate_partial_file E file_object.

(** The loop over [modules].  [task] is the variable left bound by the
    loop over [tasks.pslist]; it is unbound when that loop did not run.
    [already_analyzed] is the cache of the plugin. *)
Fixpoint calculate_loop (task : option Task) (already_analyzed : gmap string verdict)
    (modules : list ModuleEntry) : Trace :=
  match modules with
  | [] => {| yielded := []; raised := None |}
  | (module_path, module_name, pid) :: rest =>
      match already_analyzed !! module_path with
      | Some cached =>
          trace_cons {| y_name := module_name; y_pid := pid; y_result := cached |}
                     (calculate_loop task already_analyzed rest)
      | None =>
          if bool_decide (module_path <> EmptyString) then
            match analyze module_path with
            | Ok result =>
                trace_cons {| y_name := module_name; y_pid := pid; y_result := result |}
                  (calculate_loop task (<[module_path := result]> already_analyzed) rest)
            | Raise e => {| yielded := []; raised := Some e |}
            end
          else
            match task with
            | Some t =>
                let rc := if ExitTime t then ALREADY_TERMINATED else NOT_PEB in
                trace_cons {| y_name := ImageFileName t; y_pid := pid;
                              y_result := VCode rc |}
                           (calculate_loop task already_analyzed rest)
            | None => {| yielded := []; raised := Some UnboundLocalError |}
            end
      end
  end.

(** The modules to verify: the drivers, or the modules of every
    process. *)
Definition enumerate_modules : list ModuleEntry :=
  if config_SYS E then sys_modules E
  else flat_map (fun task => get_pe_modules task (config_DLL E)) (pslist E).

Definition calculate : Trace :=
  let task := if config_SYS E then None else last (pslist E) in
  calculate_loop task ∅ enumerate_modules.
End Orchestrator.
(** ** A reference environment

    A small instance of [Env] on which the plugin can be run.  It stands
    in for the real collaborators where a concrete run is exhibited; the
    general statements quantify over every [Env].

    The reader of the headers follows pefile for the fields the plugin
    uses: the DOS and NT signatures, the magic, SizeOfHeaders, the
    section table, and the entries of DATA_DIRECTORY, of which pefile
    parses as many as NumberOfRvaAndSizes says, sixteen at most.  The
    checksum is the PE checksum.  Relocation is exact for the two kinds
    of Base Relocation directory that the sample images have: an empty
    one, and one without address.  The digest is a toy digest, memory is
    one flat buffer. *)

Module Sample.

(** The field of [n] bytes at [off], little endian. *)
Definition field (data : bytes) (off : Z) (n : Z) : Z :=
  le_val (slice data off (off + n)).

Definition e_lfanew (data : bytes) : Z := field data 0x3c 4.

Definition security_dir_offset (data : bytes) : Z :=
  if decide (slice data (e_lfanew data + 0x18) (e_lfanew data + 0x1a) = MAGIC64)
  then e_lfanew data + 0xa8 else e_lfanew data + 0x98.

Definition section_sizes (data : bytes) : list Z :=
  let nt := e_lfanew data in
  let table := nt + 0x18 + field data (nt + 0x14) 2 in
  map (fun i : nat => field data (table + 40 * Z.of_nat i + 16) 4)
      (seq 0 (Z.to_nat (field data (nt + 6) 2))).

(** NumberOfRvaAndSizes stands 0x24 bytes before the Security entry in
    both layouts; pefile masks it with 0x7fffffff. *)
Definition number_of_rva_and_sizes (data : bytes) : Z :=
  Z.land (field data (security_dir_offset data - 0x24) 4) 0x7fffffff.

(** Has the DATA_DIRECTORY that pefile builds an entry [i]?  pefile
    reads entry after entry, NumberOfRvaAndSizes of them and sixteen at
    most, and stops before an entry that starts exactly where the
    buffer ends; an entry that is cut, or that lies behind the end, is
    filled up with zero bytes. *)
Definition has_directory (data : bytes) (i : Z) : bool :=
  let first := security_dir_offset data - 0x20 in
  let len := Z.of_nat (length data) in
  (i <? number_of_rva_and_sizes data) && (i <? 16)
  && negb ((first <=? len) && ((len - first) mod 8 =? 0) && ((len - first) / 8 <=? i)).

(** [pefile.PE(data=data, fast_load=True)], and the Security entry of
    the object.  For a header without that entry the constructor
    returns, and the plugin raises IndexError where it reads
    [DATA_DIRECTORY[4]]: in [calculate_pe_size], [has_cert] and
    [extract_cert], the first thing it does with the object everywhere
    but in the two full paths, which take the checksum of the image
    without padding before.  Here the IndexError is raised at once. *)
Definition parse (data : bytes) : result PEHeaders :=
  let nt := e_lfanew data in
  let magic := slice data (nt + 0x18) (nt + 0x1a) in
  if decide ((length data < 64)%nat) then Raise PEFormatError
  else if decide (slice_to data 2 <> MZ) then Raise PEFormatError
  else if decide (slice data nt (nt + 4) <> PE00) then Raise PEFormatError
  else if decide (magic <> MAGIC32 /\ magic <> MAGIC64) then Raise PEFormatError
  else if has_directory data 4 then
    Ok {| SizeOfHeaders := field data (nt + 0x54) 4;
          SizeOfRawData := section_sizes data;
          Security_VirtualAddress := field data (security_dir_offset data) 4;
          Security_Size := field data (security_dir_offset data + 4) 4 |}
  else Raise IndexError.

(** The buffer cut into little-endian dwords, the last one padded. *)
Fixpoint dwords (data : bytes) : list Z :=
  match data with
  | [] => []
  | a :: b :: c :: d :: rest => le_val [a; b; c; d] :: dwords rest
  | short => [le_val short]
  end.

Definition add_carry (acc d : Z) : Z :=
  let c := acc + d in
  if 2 ^ 32 <=? c then Z.land c 0xffffffff + Z.shiftr c 32 else c.

(** The PE checksum: the dwords summed with end-around carry, the one
    holding the CheckSum field left out, folded to 16 bits, plus the
    length. *)
Definition checksum (data : bytes) : Z :=
  let skip := (e_lfanew data + 0x58) / 4 in
  let sum :=
    foldl (fun acc p => if (Z.of_nat p.1 =? skip) then acc else add_carry acc p.2)
          0 (imap (fun i d => (i, d)) (dwords data)) in
  let c := Z.land sum 0xffff + Z.shiftr sum 16 in
  let c := c + Z.shiftr c 16 in
  Z.land c 0xffff + Z.of_nat (length data).

Definition verify_checksum (pe : PE) : bool :=
  checksum (pe_data pe) =? field (pe_data pe) (e_lfanew (pe_data pe) + 0x58) 4.

(** [pe.relocate_image(new_imagebase)].  The Base Relocation directory
    is entry 5, behind the Security entry.  When its Size is 0 pefile has
    nothing to do and returns.  Otherwise it parses the relocation
    blocks at the VirtualAddress of the entry and applies their fixups;
    when the VirtualAddress is 0, or no block is found there, the object
    gets no attribute DIRECTORY_ENTRY_BASERELOC and the loop over it
    raises AttributeError.  Blocks are not read here: a directory that
    is not empty is taken to be one without blocks, which is exact for
    a directory without address. *)
Definition relocate_image (pe : PE) (new_imagebase : Z) : result bytes :=
  let data := pe_data pe in
  if negb (has_directory data 5) then Raise IndexError
  else if field data (security_dir_offset data + 12) 4 =? 0 then Ok data
  else Raise AttributeError.

Definition digest_size (a : hash_alg) : nat :=
  match a with md5 => 16 | sha1 => 20 | sha256 => 32 end.

(** A toy digest of the right length. *)
Definition digest (a : hash_alg) (data : bytes) : bytes :=
  le_bytes (digest_size a)
    (foldl (fun h b => (h * 257 + byte_val b + 1) mod 2 ^ (8 * Z.of_nat (digest_size a)))
           0 data).

(** Physical memory as one flat buffer; a read past its end fails. *)
Definition read (memory : bytes) (offset len : N) : option bytes :=
  if decide (Z.of_N offset + Z.of_N len <= Z.of_nat (length memory))
  then Some (slice memory (Z.of_N offset) (Z.of_N offset + Z.of_N len))
  else None.

Definition addresses : gmap string (list Z) :=
  {[ "exe"%string := [0x140000000; 0x10000000; 0x400000];
     "dll"%string := [0x180000000; 0x10000000] ]}.

(** A module path on drive C: designates the file object of the same
    path on a volume device, whatever the case of the letters. *)
Definition matches (filename name : string) : bool :=
  match filename with
  | String "C" (String ":" rest) =>
      re_match_items (lits "\device\harddiskvolume" ++ [Digit09] ++ lits (lower rest))
                     (lower name)
      && (String.length name =? 23 + String.length rest)%nat
  | _ => false
  end.

Definition env (memory : bytes) (catalogs : list bytes) (tasks : list Task)
    (files : list FileEntry) (dumps : N -> list DumpFile) : Env :=
  {| hashlib_digest := digest;
     pefile_parse := parse;
     pefile_no_data := ValueError;
     pefile_verify_checksum := verify_checksum;
     pefile_relocate_image := relocate_image;
     openssl_verdict := fun _ => Ok "Verification successful"%string;
     catalog_files := catalogs;
     base_read := read memory;
     frequent_addresses := addresses;
     pslist := tasks;
     sys_modules := [];
     filescan := files;
     path_matches := matches;
     dumpfiles := dumps;
     config_SYS := false;
     config_DLL := false |}.

(** [data] with the bytes from [off] on overwritten by [new]. *)
Definition poke (off : nat) (new : bytes) (data : bytes) : bytes :=
  take off data ++ new ++ drop (off + length new) data.

(** A PE32 header of 0x100 bytes without sections: [e_lfanew] is 0x40,
    so ImageBase is at 0x74, SizeOfHeaders at 0x94, CheckSum at 0x98,
    NumberOfRvaAndSizes, which is 16, at 0xb4, the Security directory
    at 0xd8 and the Base Relocation directory, which has no address, at
    0xe0. *)
Definition header (image_base check reloc_size sec_va sec_size : Z) : bytes :=
  poke 0 MZ
  (poke 0x3c (le_bytes 4 0x40)
  (poke 0x40 PE00
  (poke 0x58 MAGIC32
  (poke 0x74 (le_bytes 4 image_base)
  (poke 0x94 (le_bytes 4 0x100)
  (poke 0x98 (le_bytes 4 check)
  (poke 0xb4 (le_bytes 4 16)
  (poke 0xd8 (le_bytes 4 sec_va ++ le_bytes 4 sec_size)
  (poke 0xe0 (le_bytes 4 0 ++ le_bytes 4 reloc_size)
  (replicate 0x100 x00)))))))))).

End Sample.

(** ** Sample images *)

Module Images.
Import Sample.

(** A WIN_CERTIFICATE header followed by a DigestInfo: SHA-1, and a
    digest of twenty bytes 0x11. *)
Definition win_certificate (digest_info : bytes) : bytes :=
  le_bytes 4 (8 + Z.of_nat (length digest_info)) ++ [x00; x02; x02; x00] ++ digest_info.

Definition digest_info_sha1 (d : bytes) : bytes :=
  [x30; x21; x30; x09; x06; x05] ++ OID_sha1 ++ [x05; x00; x04; x14] ++ d.

Definition cert_sha1 : bytes := win_certificate (digest_info_sha1 (replicate 20 x11)).

(** A blob that the digest pattern does not match. *)
Definition cert_garbage : bytes := win_certificate (replicate 24 xaa).

(** A DigestInfo whose algorithm identifier is the five bytes
    01 02 03 04 05: the pattern matches, the OID is none of the three. *)
Definition cert_unknown_oid : bytes :=
  win_certificate ([x30; x21; x30; x09; x06; x05; x01; x02; x03; x04; x05;
                    x05; x00; x04; x14] ++ replicate 20 x11).

(** An image with [cert] appended to its headers; [check] is stored in
    its CheckSum field.  Its Base Relocation directory is empty. *)
Definition signed_image (image_base check : Z) (cert : bytes) : bytes :=
  header image_base check 0 0x100 (Z.of_nat (length cert)) ++ cert.

(** An image without signature; [reloc_size] is the Size of its Base
    Relocation directory. *)
Definition unsigned_image (image_base check reloc_size : Z) : bytes :=
  header image_base check reloc_size 0 0.

(** The checksum of an image, which does not depend on what its
    CheckSum field holds. *)
Definition check_of (image : Z -> bytes) : Z := checksum (image 0).

Definition signed_check : Z := check_of (fun c => signed_image 0x400000 c cert_sha1).
Definition unsigned_check : Z := check_of (fun c => unsigned_image 0x400000 c 0).

(** A signed image as it is on disk, linked at 0x400000, its CheckSum
    field right. *)
Definition signed_on_disk : bytes := signed_image 0x400000 signed_check cert_sha1.

(** The same image with other bytes in its CheckSum field and in its
    certificate blob. *)
Definition signed_on_disk_scrubbed : bytes :=
  poke 0x98 [xde; xad; xbe; xef] (poke 0x100 (replicate 43 x5a) signed_on_disk).

(** The signed image as it is mapped: the loader has stored the base it
    was loaded at, 0x7ff00000, in the ImageBase field, so the CheckSum
    field no longer matches. *)
Definition signed_in_memory : bytes := signed_image 0x7ff00000 signed_check cert_sha1.

(** An image without signature, on disk and as mapped. *)
Definition unsigned_on_disk : bytes := unsigned_image 0x400000 unsigned_check 0.
Definition unsigned_in_memory : bytes := unsigned_image 0x7ff00000 unsigned_check 0.

(** An unsigned image linked at 0x500000, a base that is in no list of
    candidates, as mapped. *)
Definition unsigned_elsewhere_in_memory : bytes :=
  unsigned_image 0x7ff00000 (check_of (fun c => unsigned_image 0x500000 c 0)) 0.

(** An unsigned image whose Base Relocation directory has a Size and no
    address, as mapped. *)
Definition unsigned_unrelocatable_in_memory : bytes :=
  unsigned_image 0x7ff00000 (check_of (fun c => unsigned_image 0x400000 c 8)) 8.

(** Images whose certificate blob the extractor cannot use, their
    CheckSum fields right. *)
Definition garbage_signed : bytes :=
  signed_image 0x400000 (check_of (fun c => signed_image 0x400000 c cert_garbage))
               cert_garbage.
Definition unknown_oid_signed : bytes :=
  signed_image 0x400000 (check_of (fun c => signed_image 0x400000 c cert_unknown_oid))
               cert_unknown_oid.

(** The [pefile.PE] object of one of the images above. *)
Definition parsed (data : bytes) (sec_va sec_size : Z) : PE :=
  {| pe_data := data;
     pe_headers := {| SizeOfHeaders := 0x100; SizeOfRawData := [];
                      Security_VirtualAddress := sec_va; Security_Size := sec_size |} |}.

(** Headers whose Security directory entry points into the DOS header,
    and the same with the four bytes it points at replaced. *)
Definition misplaced : bytes := header 0x400000 0 0 2 4.
Definition misplaced_scrubbed : bytes := poke 2 [x01; x02; x03; x04] misplaced.

(** A catalog file listing the SHA-1 digest of the unsigned image. *)
Definition catalog : bytes :=
  [x30; x82; x01; x00]
  ++ digest_info_sha1
       (match calculate_pe_digest
                (Sample.env [] [] [] [] (fun _ => [])) (Some sha1) unsigned_on_disk with
        | Ok d => d
        | Raise _ => []
        end).

Definition catalog_env : Env := Sample.env [] [catalog] [] [] (fun _ => []).

(** Eight bytes of physical memory, and three spans over it: the first
    is readable, the second lies past the end of memory, the third is
    readable once the spurious high bits of its offset are masked. *)
Definition memory8 : bytes := [x4d; x5a; x90; x00; x03; x00; x00; x00].

Definition spans3 : list PageSpan :=
  [ {| memory_offset := 0; file_offset := 0; byte_count := 4 |};
    {| memory_offset := 0x100; file_offset := 8; byte_count := 4 |};
    {| memory_offset := 0x200000000004; file_offset := 16; byte_count := 4 |} ].

Definition memory8_env : Env := Sample.env memory8 [] [] [] (fun _ => []).

(** A file object of which only the first 0x100 bytes are resident, at
    the start of physical memory. *)
Definition windows_calc : string := "\Device\HarddiskVolume1\Windows\System32\calc.exe".

Definition first_page : list PageSpan :=
  [ {| memory_offset := 0; file_offset := 0; byte_count := 0x100 |} ].

Definition missing_page : list PageSpan :=
  [ {| memory_offset := 0; file_offset := 0x100; byte_count := 0x100 |} ].

Definition partial_image_object : FileObject :=
  {| fo_name := windows_calc; fo_type := ImageSectionObject;
     fo_present := first_page; fo_pad := missing_page |}.

Definition partial_data_object : FileObject :=
  {| fo_name := windows_calc; fo_type := DataSectionObject;
     fo_present := first_page; fo_pad := missing_page |}.

(** Physical memory holding the headers of the unsigned image, and
    physical memory holding the signed image. *)
Definition unsigned_memory_env : Env :=
  Sample.env unsigned_on_disk [] [] [] (fun _ => []).

Definition signed_memory_env : Env :=
  Sample.env signed_on_disk [] [] [] (fun _ => []).

(** Two processes running the same image, which is fully resident as a
    DataSectionObject filling physical memory. *)
Definition notepad_path : string := "C:\Windows\notepad.exe".

Definition notepad_task (pid : Z) : Task :=
  {| ImageFileName := "notepad.exe"; UniqueProcessId := pid;
     Peb := true; ExitTime := false;
     load_modules := [(notepad_path, "notepad.exe"%string);
                      ("C:\Windows\System32\ntdll.dll"%string, "ntdll.dll"%string)] |}.

Definition notepad_device_path : string := "\Device\HarddiskVolume1\Windows\notepad.exe".

Definition whole_file (memory : bytes) : FileObject :=
  {| fo_name := notepad_device_path;
     fo_type := DataSectionObject;
     fo_present := [ {| memory_offset := 0; file_offset := 0;
                        byte_count := N.of_nat (length memory) |} ];
     fo_pad := [] |}.

Definition resident_env (memory : bytes) : Env :=
  Sample.env memory [] [notepad_task 1234; notepad_task 5678]
             [ {| fe_offset := 0x3e8f1070; fe_name := notepad_device_path |} ]
             (fun _ => [CacheMapDump notepad_device_path; SectionDump (whole_file memory)]).


(** The unsigned image with its first two bytes turned into 4D 5B. *)
Definition corrupt_image : bytes := poke 0 [x4d; x5b] unsigned_on_disk.

(** An environment with empty memory, no catalog and no process. *)
Definition bare_env : Env := Sample.env [] [] [] [] (fun _ => []).
End Images.

(** ** Notions used to state the properties *)

(** The bytes hashed after the Security directory entry, as the
    specification words them: the certificate blob is left out when both
    fields of the entry are non-zero, nothing is left out otherwise. *)
Definition security_tail (data : bytes) (ct va size : Z) : bytes :=
  if decide (va <> 0 /\ size <> 0)
  then slice data (ct + 8) va ++ slice_from data (va + size)
  else slice_from data (ct + 8).

(** Two buffers agree at the positions [a <= i < b]. *)
Definition agree_on (d d' : bytes) (a b : Z) : Prop :=
  forall i : nat, a <= Z.of_nat i < b -> d' !! i = d !! i.

(** A well-formed PE buffer: MZ, [e_lfanew] pointing at the PE
    signature [nt], a PE32 or PE32+ magic, a readable Security directory
    entry at [ct] holding [va] and [size], and a certificate blob that,
    when there is one, lies behind the headers. *)
Definition well_formed_pe (data : bytes) (nt ct va size : Z) : Prop :=
  get_nt_header_addr data = Ok (Some nt) /\
  get_pe_certificate_attibutes data = Ok (ct, va, size) /\
  (size = 0 \/ ct <= va).

(** [data'] is [data] with the CheckSum field and the certificate blob
    replaced by arbitrary bytes. *)
Definition checksum_and_certificate_replaced (nt va size : Z) (data data' : bytes) : Prop :=
  length data' = length data /\
  forall i : nat,
    ~ (nt + 0x58 <= Z.of_nat i < nt + 0x58 + 4) ->
    ~ (va <= Z.of_nat i < va + size) ->
    data' !! i = data !! i.

(** The two relations above as checks that compute. *)
Definition agree_on_check (d d' : bytes) (a b : Z) : bool :=
  forallb (fun i : nat =>
             negb (bool_decide (a <= Z.of_nat i < b)) || bool_decide (d' !! i = d !! i))
          (seq 0 (length d `max` length d')).

Definition replaced_check (nt va size : Z) (data data' : bytes) : bool :=
  bool_decide (length data' = length data)
  && forallb (fun i : nat =>
                bool_decide (nt + 0x58 <= Z.of_nat i < nt + 0x58 + 4)
                || bool_decide (va <= Z.of_nat i < va + size)
                || bool_decide (data' !! i = data !! i))
             (seq 0 (length data)).

(** Position [i] lies in the extent written by a span of [present]
    whose memory read succeeded. *)
Definition covered (E : Env) (present : list PageSpan) (i : nat) : Prop :=
  exists mdata rdata,
    mdata ∈ present /\ read_span E mdata = Some rdata /\
    (N.to_nat (file_offset mdata) <= i < N.to_nat (file_offset mdata) + length rdata)%nat.

(** ** The candidates of the rebaser *)

Section Candidates.
Context (E : Env).

(** Relocating [pe] to the candidate fails in one of the two ways the
    loop handles: no relocation table (AttributeError), a malformed
    qword entry (struct.error). *)
Definition relocation_error (pe : PE) (c : Z) : Prop :=
  pefile_relocate_image E pe c = Raise AttributeError
  \/ pefile_relocate_image E pe c = Raise StructError.

(** The candidate is above 0xFFFFFFFF and the image is 32-bit. *)
Definition candidate_skipped (is32 : bool) (c : Z) : Prop :=
  is32 = true /\ 0xffffffff < c.

(** The candidate is relocated to and the rebuilt image [pe'] passes
    its checksum. *)
Definition candidate_passes (content : bytes) (is32 : bool) (c : Z) (pe' : PE) : Prop :=
  ~ candidate_skipped is32 c
  /\ rebase_candidate E content c = Ok pe'
  /\ pefile_verify_checksum E pe' = true.

(** The candidate is passed over: skipped, a relocation error, or a
    rebuilt image that fails its checksum. *)
Definition candidate_dropped (content : bytes) (pe : PE) (is32 : bool) (c : Z) : Prop :=
  candidate_skipped is32 c
  \/ relocation_error pe c
  \/ exists pe', rebase_candidate E content c = Ok pe'
                 /\ pefile_verify_checksum E pe' = false.

(** The start of [validate_image_section] on a buffer whose checksum
    does not verify as it is: [stripped] is the buffer without padding,
    [pe] its parse, [candidates] the bases to try. *)
Definition needs_rebase (content : bytes) (file_type : string)
    (stripped : bytes) (pe : PE) (is32 : bool) (candidates : list Z) : Prop :=
  delete_padding E content = Ok stripped
  /\ pefile_PE E stripped = Ok pe
  /\ is_32bits stripped = Ok is32
  /\ pefile_verify_checksum E pe = false
  /\ frequent_addresses E !! file_type = Some candidates.
End Candidates.

(** The invariant of the loop of [read_file_memory]: a non-zero byte
    lies in the extent written by a span already seen whose read
    succeeded, and the buffer reaches the end of each such extent. *)
Definition assembled (E : Env) (seen : list PageSpan) (of_ : BytesIO) : Prop :=
  (forall i b, bio_buf of_ !! i = Some b -> b <> x00 -> covered E seen i)
  /\ (forall mdata rdata, mdata ∈ seen -> read_span E mdata = Some rdata -> rdata <> [] ->
        (N.to_nat (file_offset mdata) + length rdata <= length (bio_buf of_))%nat).

(** The prefix [\Device\HarddiskVolumeN\Windows] read literally,
    which the specification takes the partial path to test for. *)
Definition DEVICE_WINDOWS_PREFIX : list re_item :=
  lits "\Device\HarddiskVolume" ++ [Digit09] ++ lits "\Windows".

(** ** Notions about the orchestrator *)




(** Each entry of the cache is the verdict of the validation of its
    path. *)
Definition cache_sound (E : Env) (already_analyzed : gmap string verdict) : Prop :=
  forall path r, already_analyzed !! path = Some r -> analyze E path = Ok r.

(** The validation of module [m] returns. *)
Definition validates (E : Env) (m : ModuleEntry) : Prop :=
  m.1.1 <> EmptyString /\ exists r, analyze E m.1.1 = Ok r.

(** ** Further functions of the plugin *)

(** [struct.unpack('<Q', bytes_)[0]]: struct.error unless exactly 8 bytes. *)
Definition unpack_qword (bytes_ : bytes) : result Z :=
  if decide (length bytes_ = 8%nat) then Ok (le_val bytes_) else Raise StructError.

(** Returns [None] when the magic is neither PE32 nor PE32+. *)
Definition get_imagebase (content : bytes) : result (option Z) :=
  nt_headers_addr ← get_nt_header_addr content;
  b32 ← is_32bits content;
  if b32 : bool then
    lo ← py_add nt_headers_addr 0x34;
    v ← unpack_dword (slice content lo (lo + 0x4));
    Ok (Some v)
  else
    b64 ← is_64bits content;
    if b64 : bool then
      lo ← py_add nt_headers_addr 0x30;
      v ← unpack_qword (slice content lo (lo + 0x8));
      Ok (Some v)
    else Ok None.

(** A buffer whose PE header lies inside the DOS header: [e_lfanew] is
    8, so the ImageBase field of the PE32 layout, at 8 + 0x34, is the
    [e_lfanew] field itself. *)
Definition tiny_header : bytes :=
  Sample.poke 0 MZ
  (Sample.poke 8 PE00
  (Sample.poke 0x20 MAGIC32
  (Sample.poke 0x3c (le_bytes 4 8)
  (replicate 0x100 x00)))).

(** The offset of the Security directory entry for a magic. *)
Definition security_entry_offset (nt : Z) (magic : bytes) : option Z :=
  if decide (magic = MAGIC32) then Some (nt + 0x98)
  else if decide (magic = MAGIC64) then Some (nt + 0xa8)
  else None.

(** Buffers that [calculate_pe_digest] rejects: a bare DOS stub, a
    header with the magic of a ROM image, a header cut inside the
    Security directory entry. *)
Definition dos_stub : bytes := Sample.poke 0 MZ (replicate 0x40 x00).
Definition rom_header : bytes := Sample.poke 0x58 [x07; x01] Images.unsigned_on_disk.
Definition truncated_header : bytes := take 0xdc Images.unsigned_on_disk.

(** Position [i] is outside the three regions that the Authenticode
    digest leaves out: the CheckSum field, the Security directory entry
    and, when both fields of the entry are non-zero, the certificate
    blob. *)
Definition outside_excluded (nt ct va size : Z) (i : nat) : Prop :=
  ~ (nt + 0x58 <= Z.of_nat i < nt + 0x58 + 4)
  /\ ~ (ct <= Z.of_nat i < ct + 8)
  /\ ~ (va <> 0 /\ size <> 0 /\ va <= Z.of_nat i < va + size).

(** The encoding of each digest algorithm's OID, and the length of its
    digests. *)
Definition OID_of (a : hash_alg) : bytes :=
  match a with
  | md5 => OID_md5
  | sha1 => OID_sha1
  | sha256 => OID_sha256
  end.

Definition digest_length (a : hash_alg) : nat :=
  match a with
  | md5 => 16
  | sha1 => 20
  | sha256 => 32
  end.

(** The DER encoding of a DigestInfo: a SEQUENCE of an
    AlgorithmIdentifier (the OID and NULL parameters) and the digest as
    an OCTET STRING, each with a one-byte length. *)
Definition digest_info (a : hash_alg) (d : bytes) : bytes :=
  let algorithm := [x06; byte_of_Z (Z.of_nat (length (OID_of a)))] ++ OID_of a ++ [x05; x00] in
  let octets := [x04; byte_of_Z (Z.of_nat (length d))] ++ d in
  [x30; byte_of_Z (Z.of_nat (2 + length algorithm + length octets))]
  ++ [x30; byte_of_Z (Z.of_nat (length algorithm))] ++ algorithm ++ octets.

(** The bytes the pattern consumes for a match with the groups [oid]
    and [h]: two SEQUENCE headers, an OID header, the OID, NULL and the
    header of the OCTET STRING. *)
Definition matched_bytes (l1 l2 l3 : byte) (oid : bytes) (h : byte) : bytes :=
  [x30; l1; x30; l2; x06; l3] ++ oid ++ [x05; x00; x04; h].

(** A catalog directory of two files: a blob without a match of the
    pattern, and the certificate blob with the SHA-1 DigestInfo. *)
Definition cert_catalog_env : Env :=
  Sample.env [] [Images.cert_garbage; Images.cert_sha1] [] [] (fun _ => []).

(** Where the bytes written for a span end in the file; 0 for a span
    whose read fails or returns nothing. *)
Definition written_end (E : Env) (mdata : PageSpan) : nat :=
  match read_span E mdata with
  | Some (b :: rdata) => N.to_nat (file_offset mdata) + length (b :: rdata)
  | _ => 0
  end.

(** ** Notions about the verdicts *)

(** The signature of [pe] was checked in full: there is a certificate
    blob, the pattern finds a digest of a known algorithm in it, the
    Authenticode digest of the image under that algorithm equals it,
    and [s] is what openssl says about the blob. *)
Definition signature_checked (E : Env) (pe : PE) (s : string) : Prop :=
  exists cert a digest,
    extract_cert pe = Some cert /\ cert <> [] /\
    get_digest_from_signature cert = DigestPair (Some a) (HashBytes digest) /\
    calculate_pe_digest E (Some a) (pe_data pe) = Ok digest /\
    openssl_verdict E cert = Ok s.

(** [pe] is an image built from the file object: the parse of its
    bytes without padding or, for an ImageSectionObject, what
    [rebase_candidate] makes of them at one of the candidate bases of
    its type. *)
Definition built_from (E : Env) (file_object : FileObject) (pe : PE) : Prop :=
  exists stripped,
    delete_padding E (read_file_memory E file_object) = Ok stripped
    /\ (pefile_PE E stripped = Ok pe
        \/ (fo_type file_object = ImageSectionObject
            /\ exists candidates new_imagebase,
                 frequent_addresses E !! get_pe_type file_object = Some candidates
                 /\ new_imagebase ∈ candidates
                 /\ rebase_candidate E stripped new_imagebase = Ok pe)).

(** The members of [ReturnCode] that the validation of a fully resident
    file returns, those that the validation of a partially resident or
    missing file returns, and those that [calculate] gives to a module
    without path. *)
Definition full_codes : list ReturnCode :=
  [PE_REBUILT_FAILED; PE_CHECKSUM_MISMATCH; AUTHENTICODE_SIGNATURE_MISMATCH;
   CATALOG_SIGNED; NOT_SIGNED; PARTIAL_CERTIFICATE].

Definition partial_codes : list ReturnCode :=
  [FILEOBJECT_ERROR; PARTIAL_CONTENT_PE_DATA_ERROR; CONTENT_SIGNED_NOT_VERIFIED;
   PARTIAL_CONTENT_MAYBE_CATALOG_SIGNED; PARTIAL_CONTENT_NOT_SIGNED].

Definition process_codes : list ReturnCode := [NOT_PEB; ALREADY_TERMINATED].

(** The members that no statement of the plugin returns. *)
Definition unused_codes : list ReturnCode :=
  [SIGNED_FILE_NOT_VERIFIED; AUTHENTICODE_SIGNATURE_MISMATCH_OR_INCORRECT_IMAGEBASE;
   MAYBE_CATALOG_SIGNED; NOT_SIGNED_OR_INCORRECT_IMAGEBASE; PARTIAL_CONTENT_VERIFIED].

(** The outcome of [verify_pe] and of [validate_data_section] for an
    image without embedded signature. *)
Definition unsigned_outcome (E : Env) (data : bytes) : result verdict :=
  digest ← calculate_pe_digest E (Some sha1) data;
  if is_in_catalog E digest then Ok (VCode CATALOG_SIGNED) else Ok (VCode NOT_SIGNED).

(** A signed image whose certificate blob holds the SHA-1 Authenticode
    digest of the image itself, its CheckSum field right. *)
Definition matching_cert : bytes :=
  Images.win_certificate
    (Images.digest_info_sha1
       (match calculate_pe_digest Images.bare_env (Some sha1) Images.signed_on_disk with
        | Ok d => d
        | Raise _ => []
        end)).

Definition verified_image : bytes :=
  Images.signed_image 0x400000
    (Sample.checksum (Images.signed_image 0x400000 0 matching_cert)) matching_cert.

(** A file scan with two entries of the same name: the first has only
    a SharedCacheMap, the second is fully resident. *)
Definition shadowed_env : Env :=
  Sample.env Images.unsigned_on_disk [] [Images.notepad_task 1234]
    [ {| fe_offset := 0x1000; fe_name := Images.notepad_device_path |};
      {| fe_offset := 0x3e8f1070; fe_name := Images.notepad_device_path |} ]
    (fun offset => if decide (offset = 0x1000%N)
                   then [CacheMapDump Images.notepad_device_path]
                   else [SectionDump (Images.whole_file Images.unsigned_on_disk)]).

(** The triple that [calculate] yields for a module without path: the
    name and the exit time are those of [task], the owner id is the
    module's. *)
Definition pathless_yield (task : Task) (m : ModuleEntry) : Yield :=
  {| y_name := ImageFileName task; y_pid := m.2;
     y_result := VCode (if ExitTime task then ALREADY_TERMINATED else NOT_PEB) |}.

(** Two processes, the first with a module whose path could not be
    read, the second terminated. *)
Definition pathless_env : Env :=
  Sample.env Images.unsigned_on_disk []
    [ {| ImageFileName := "svchost.exe"; UniqueProcessId := 700; Peb := true;
         ExitTime := false; load_modules := [(EmptyString, "svchost.exe"%string)] |};
      {| ImageFileName := "setup.exe"; UniqueProcessId := 900; Peb := false;
         ExitTime := true; load_modules := [] |} ]
    [] (fun _ => []).

(** A partially resident DataSectionObject whose first [n] bytes are
    resident, at the start of physical memory. *)
Definition resident_prefix (n : N) : FileObject :=
  {| fo_name := Images.windows_calc; fo_type := DataSectionObject;
     fo_present := [ {| memory_offset := 0; file_offset := 0; byte_count := n |} ];
     fo_pad := Images.missing_page |}.

(** A signed image with 0x40 bytes between its headers and its
    certificate blob, which [calculate_pe_size] does not count. *)
Definition gapped_image : bytes :=
  Sample.header 0x400000 0 0 0x140 (Z.of_nat (length Images.cert_sha1))
  ++ replicate 0x40 x00 ++ Images.cert_sha1.

(** [E] without a digest, a checksum, relocation, catalogs and candidate
    bases: only the reads of memory, the parser and openssl are kept. *)
Definition blind_env (E : Env) : Env :=
  {| hashlib_digest := fun _ _ => [];
     pefile_parse := pefile_parse E;
     pefile_no_data := pefile_no_data E;
     pefile_verify_checksum := fun _ => false;
     pefile_relocate_image := fun _ _ => Raise AttributeError;
     openssl_verdict := openssl_verdict E;
     catalog_files := [];
     base_read := base_read E;
     frequent_addresses := ∅;
     pslist := pslist E;
     sys_modules := sys_modules E;
     filescan := filescan E;
     path_matches := path_matches E;
     dumpfiles := dumpfiles E;
     config_SYS := config_SYS E;
     config_DLL := config_DLL E |}.

(** ** [normalize_filepath]

    Strings are lists of characters here. *)

Definition chars (s : string) : list ascii := list_ascii_of_string s.

(** Is [key] a prefix of [s]? *)
Fixpoint starts_with (key s : list ascii) : bool :=
  match key, s with
  | [], _ => true
  | _ :: _, [] => false
  | k :: key', c :: s' => bool_decide (k = c) && starts_with key' s'
  end.

(** [s.split(key)] for a non-empty [key]: the occurrences of [key] are
    found from left to right and do not overlap.  [skip] counts the
    characters of a found occurrence that are still to be passed over,
    [cur] is the part being collected. *)
Fixpoint split_from (key : list ascii) (skip : nat) (cur s : list ascii)
  : list (list ascii) :=
  match s with
  | [] => [cur]
  | c :: s' =>
      match skip with
      | S n => split_from key n cur s'
      | O =>
          if starts_with key s then cur :: split_from key (length key - 1) [] s'
          else split_from key 0 (cur ++ [c]) s'
      end
  end.

Definition py_split (key s : list ascii) : list (list ascii) := split_from key 0 [] s.

(** [re.escape] of Python 2: a backslash before every character that
    is not an ASCII letter or digit; NUL becomes [\000]. *)
Definition is_alphanum (c : ascii) : bool :=
  let n := nat_of_ascii c in
  ((48 <=? n)%nat && (n <=? 57)%nat)
  || ((65 <=? n)%nat && (n <=? 90)%nat)
  || ((97 <=? n)%nat && (n <=? 122)%nat).

Definition re_escape (pattern : list ascii) : list ascii :=
  flat_map (fun c => if is_alphanum c then [c]
                     else if bool_decide (c = zero) then chars "\000"
                     else ["\"%char; c])
           pattern.

(** The three entries of [to_replace], as they are written. *)
Definition KEY_SYSTEMROOT : list ascii := chars "\SystemRoot".
Definition KEY_EXTENDED_C : list ascii := chars "\\\?\C:".
Definition KEY_C : list ascii := chars "C:".

Definition DEVICE_VOLUME : list ascii := chars "\\Device\\HarddiskVolume[0-9]".
Definition DEVICE_VOLUME_WINDOWS : list ascii :=
  chars "\\Device\\HarddiskVolume[0-9]\\Windows".

Definition to_replace : list (list ascii * list ascii) :=
  [ (KEY_SYSTEMROOT, DEVICE_VOLUME_WINDOWS);
    (KEY_EXTENDED_C, DEVICE_VOLUME);
    (KEY_C, DEVICE_VOLUME) ].

(** The loop over [to_replace.keys()].  The order in which a dict of
    Python 2 gives its keys is not fixed by the language: [keys] is the
    dict in that order.  The function returns [None] when the loop
    ends. *)
Fixpoint normalize_filepath (keys : list (list ascii * list ascii))
    (filepath : list ascii) : option (list ascii) :=
  match keys with
  | [] => None
  | (key, replacement) :: rest =>
      match py_split key filepath with
      | [_; tail] => Some (replacement ++ re_escape tail)
      | _ => normalize_filepath rest filepath
      end
  end.

(** The positions at which [key] occurs in [s]. *)
Fixpoint occurrences (key s : list ascii) : list nat :=
  match s with
  | [] => []
  | _ :: s' => (if starts_with key s then [0%nat] else []) ++ map S (occurrences key s')
  end.

(** What one turn of the loop of [normalize_filepath] returns, if it
    returns. *)
Definition key_result (key replacement filepath : list ascii) : option (list ascii) :=
  match py_split key filepath with
  | [_; tail] => Some (replacement ++ re_escape tail)
  | _ => None
  end.

(** ** Facts about slices and the header readers *)

(** Case analysis on [H : x ∈ [a; b; ...]]. *)
Ltac elem_cases H :=
  repeat (apply elem_of_cons in H as [-> | H]);
  try (by apply not_elem_of_nil in H).


Lemma result_bind_Ok {A B} (m : result A) (f : A -> result B) (b : B) :
  m ≫= f = Ok b -> exists a, m = Ok a /\ f a = Ok b.
Proof. destruct m as [a|e]; simpl; [eauto | discriminate]. Qed.

Lemma byte_val_range (b : byte) : 0 <= byte_val b < 256.
Proof.
  unfold byte_val. pose proof (Byte.to_N_bounded b) as H. lia.
Qed.

Lemma le_val_nonneg (bs : bytes) : 0 <= le_val bs.
Proof.
  induction bs as [|b bs IH]; simpl; [lia|].
  pose proof (byte_val_range b). lia.
Qed.

Lemma unpack_dword_nonneg (bs : bytes) (v : Z) : unpack_dword bs = Ok v -> 0 <= v.
Proof.
  unfold unpack_dword. case_decide; [|discriminate].
  intros [= <-]. apply le_val_nonneg.
Qed.

Example slice_bounds :
  slice [x01; x02; x03; x04] 1 3 = [x02; x03]
  /\ slice [x01; x02; x03; x04] 2 9 = [x03; x04]
  /\ slice [x01; x02; x03; x04] 3 1 = []
  /\ slice [x01; x02; x03; x04] (-2) 4 = [x03; x04]
  /\ slice_to [x01; x02; x03; x04] (-1) = [x01; x02; x03]
  /\ slice_from [x01; x02; x03; x04] 7 = [].
Proof. repeat split. Qed.

Lemma slice_nonneg (data : bytes) (a b : Z) :
  0 <= a -> 0 <= b ->
  slice data a b = take (Z.to_nat (b - a)) (drop (Z.to_nat a) data).
Proof.
  intros Ha Hb. unfold slice, py_bound.
  destruct (Z.ltb_spec a 0); [lia|]. destruct (Z.ltb_spec b 0); [lia|].
  set (n := Z.of_nat (length data)).
  destruct (decide (n <= a)) as [Hna|Hna].
  - rewrite (drop_ge data (Z.to_nat a)) by lia.
    rewrite take_nil.
    replace (Z.to_nat (b `min` n - a `min` n)) with 0%nat by lia.
    reflexivity.
  - replace (a `min` n) with a by lia.
    destruct (decide (b <= n)) as [Hbn|Hbn].
    + replace (b `min` n) with b by lia. reflexivity.
    + replace (b `min` n) with n by lia.
      rewrite !take_ge; [done | rewrite length_drop; lia | rewrite length_drop; lia].
Qed.

Lemma slice_to_nonneg (data : bytes) (b : Z) :
  0 <= b -> slice_to data b = take (Z.to_nat b) data.
Proof.
  intros Hb. unfold slice_to, py_bound.
  destruct (Z.ltb_spec b 0); [lia|].
  destruct (decide (b <= Z.of_nat (length data))).
  - f_equal. lia.
  - rewrite !take_ge; [done | lia | lia].
Qed.

Lemma slice_from_nonneg (data : bytes) (a : Z) :
  0 <= a -> slice_from data a = drop (Z.to_nat a) data.
Proof.
  intros Ha. unfold slice_from, py_bound.
  destruct (Z.ltb_spec a 0); [lia|].
  destruct (decide (a <= Z.of_nat (length data))).
  - f_equal. lia.
  - rewrite !drop_ge; [done | lia | lia].
Qed.

Lemma slice_lookup (data : bytes) (a b : Z) (i : nat) :
  0 <= a -> 0 <= b ->
  slice data a b !! i =
    if decide (a + Z.of_nat i < b) then data !! (Z.to_nat (a + Z.of_nat i)) else None.
Proof.
  intros Ha Hb. rewrite slice_nonneg by done. rewrite lookup_take.
  case_decide; case_decide; try lia.
  - rewrite lookup_drop. f_equal. lia.
  - reflexivity.
Qed.

Lemma agree_on_sub (d d' : bytes) (a b a' b' : Z) :
  agree_on d d' a b -> a <= a' -> b' <= b -> agree_on d d' a' b'.
Proof. intros H ? ? i ?. apply H. lia. Qed.

Lemma slice_agree (d d' : bytes) (a b : Z) :
  0 <= a -> 0 <= b -> agree_on d d' a b -> slice d' a b = slice d a b.
Proof.
  intros Ha Hb H. apply list_eq. intros i. rewrite !slice_lookup by done.
  case_decide; [|done]. apply H. lia.
Qed.

Lemma slice_to_agree (d d' : bytes) (b : Z) :
  0 <= b -> agree_on d d' 0 b -> slice_to d' b = slice_to d b.
Proof.
  intros Hb H. apply list_eq. intros i. rewrite !slice_to_nonneg by done.
  rewrite !lookup_take. case_decide; [|done]. apply H. lia.
Qed.

Lemma slice_from_agree (d d' : bytes) (a : Z) :
  0 <= a -> (forall i : nat, a <= Z.of_nat i -> d' !! i = d !! i) ->
  slice_from d' a = slice_from d a.
Proof.
  intros Ha H. apply list_eq. intros i. rewrite !slice_from_nonneg by done.
  rewrite !lookup_drop. apply H. lia.
Qed.

Lemma get_nt_header_addr_Some (data : bytes) (nt : Z) :
  get_nt_header_addr data = Ok (Some nt) <->
  slice_to data 2 = MZ /\
  unpack_dword (slice data 0x3c 0x40) = Ok nt /\
  slice data nt (nt + 4) = PE00.
Proof.
  unfold get_nt_header_addr. change (0x3c + 0x04) with 0x40.
  split.
  - case_decide as Hmz; [|discriminate]. intros Hb.
    apply result_bind_Ok in Hb as (v & Hv & Hv').
    case_decide as Hpe; [|discriminate]. injection Hv' as <-. auto.
  - intros (Hmz & Hnt & Hpe). rewrite decide_True by done.
    rewrite Hnt. simpl. rewrite decide_True by done. reflexivity.
Qed.

Lemma get_pe_certificate_attibutes_Ok (data : bytes) (nt ct va size : Z) :
  get_nt_header_addr data = Ok (Some nt) ->
  (get_pe_certificate_attibutes data = Ok (ct, va, size) <->
   (slice data (nt + 0x18) (nt + 0x1a) = MAGIC32 /\ ct = nt + 0x98
    \/ slice data (nt + 0x18) (nt + 0x1a) = MAGIC64 /\ ct = nt + 0xa8) /\
   unpack_dword (slice data ct (ct + 4)) = Ok va /\
   unpack_dword (slice data (ct + 4) (ct + 8)) = Ok size).
Proof.
  intros Hnt. unfold get_pe_certificate_attibutes, is_32bits, is_64bits.
  rewrite Hnt. simpl.
  replace (nt + 0x18 + 0x2) with (nt + 0x1a) by lia.
  assert (Hne : MAGIC32 <> MAGIC64) by discriminate.
  split.
  - intros H. case_bool_decide as H32.
    + simpl in H.
      apply result_bind_Ok in H as (va' & Hva & H1).
      apply result_bind_Ok in H1 as (sz' & Hsz & H2).
      injection H2 as <- <- <-. auto.
    + case_bool_decide as H64; simpl in H; [|discriminate].
      apply result_bind_Ok in H as (va' & Hva & H1).
      apply result_bind_Ok in H1 as (sz' & Hsz & H2).
      injection H2 as <- <- <-. auto.
  - intros ([[Hm ->]|[Hm ->]] & Hva & Hsz).
    + rewrite bool_decide_eq_true_2 by done. simpl.
      rewrite Hva. simpl. rewrite Hsz. reflexivity.
    + rewrite bool_decide_eq_false_2 by congruence.
      rewrite bool_decide_eq_true_2 by done. simpl.
      rewrite Hva. simpl. rewrite Hsz. reflexivity.
Qed.

Lemma py_and_nonzero (x y : Z) :
  negb (py_and x y =? 0) = bool_decide (x <> 0 /\ y <> 0).
Proof.
  unfold py_and. destruct (Z.eqb_spec x 0) as [->|Hx].
  - rewrite bool_decide_eq_false_2 by tauto. reflexivity.
  - destruct (Z.eqb_spec y 0) as [->|Hy].
    + rewrite bool_decide_eq_false_2 by tauto. reflexivity.
    + rewrite bool_decide_eq_true_2 by tauto. reflexivity.
Qed.

Lemma authenticode_data_Ok (data : bytes) (nt ct va size : Z) :
  get_nt_header_addr data = Ok (Some nt) ->
  get_pe_certificate_attibutes data = Ok (ct, va, size) ->
  authenticode_data data =
    Ok (slice_to data (nt + 0x58) ++ slice data (nt + 0x58 + 4) ct
        ++ security_tail data ct va size).
Proof.
  intros Hnt Hattr. unfold authenticode_data, security_tail.
  rewrite Hnt. simpl. rewrite Hattr. simpl.
  rewrite py_and_nonzero. case_bool_decide.
  - rewrite decide_True by done. by rewrite <- app_assoc.
  - rewrite decide_False by done. by rewrite <- app_assoc.
Qed.

Lemma agree_on_check_sound (d d' : bytes) (a b : Z) :
  agree_on_check d d' a b = true -> agree_on d d' a b.
Proof.
  unfold agree_on_check. rewrite forallb_forall. intros H i Hi.
  destruct (decide (i < length d `max` length d')%nat) as [Hlt|Hge].
  - specialize (H i). rewrite in_seq in H.
    assert (Hin : (0 <= i < 0 + length d `max` length d')%nat) by lia.
    apply H in Hin. apply orb_true_iff in Hin as [Hin|Hin].
    + apply negb_true_iff, bool_decide_eq_false in Hin. lia.
    + by apply bool_decide_eq_true in Hin.
  - rewrite !lookup_ge_None_2 by lia. reflexivity.
Qed.

Lemma replaced_check_sound (nt va size : Z) (data data' : bytes) :
  replaced_check nt va size data data' = true ->
  checksum_and_certificate_replaced nt va size data data'.
Proof.
  unfold replaced_check. intros H. apply andb_true_iff in H as [Hlen H].
  apply bool_decide_eq_true in Hlen. split; [done|].
  rewrite forallb_forall in H. intros i Hcs Hcert.
  destruct (decide (i < length data)%nat) as [Hlt|Hge].
  - specialize (H i). rewrite in_seq in H.
    assert (Hin : (0 <= i < 0 + length data)%nat) by lia.
    apply H in Hin. rewrite !orb_true_iff in Hin.
    destruct Hin as [[Hin|Hin]|Hin]; apply bool_decide_eq_true in Hin; tauto.
  - rewrite !lookup_ge_None_2 by lia. reflexivity.
Qed.

(** ** The Authenticode hasher *)

(** C4.  For a buffer that begins with MZ and whose [e_lfanew] points at
    the PE signature, with a PE32 or PE32+ magic and a readable Security
    directory entry, [calculate_pe_digest] returns the hash of
    [data[:checksum_addr] ++ data[checksum_addr+4:cert_table_addr] ++ T]:
    [T] skips the certificate blob when both fields of the entry are
    non-zero and skips nothing when one of them is zero. *)
Theorem calculate_pe_digest_layout (E : Env) (A : hash_alg) (data : bytes)
    (nt ct va size : Z) :
  slice_to data 2 = MZ ->
  unpack_dword (slice data 0x3c 0x40) = Ok nt ->
  slice data nt (nt + 4) = PE00 ->
  (slice data (nt + 0x18) (nt + 0x1a) = MAGIC32 /\ ct = nt + 0x98
   \/ slice data (nt + 0x18) (nt + 0x1a) = MAGIC64 /\ ct = nt + 0xa8) ->
  unpack_dword (slice data ct (ct + 4)) = Ok va ->
  unpack_dword (slice data (ct + 4) (ct + 8)) = Ok size ->
  calculate_pe_digest E (Some A) data =
    Ok (hashlib_digest E A
          (slice_to data (nt + 0x58) ++ slice data (nt + 0x58 + 4) ct
           ++ (if decide (va <> 0 /\ size <> 0)
               then slice data (ct + 8) va ++ slice_from data (va + size)
               else slice_from data (ct + 8)))).
Proof.
  intros Hmz Hlfanew Hpe Hmagic Hva Hsize.
  assert (Hnt : get_nt_header_addr data = Ok (Some nt))
    by (apply get_nt_header_addr_Some; auto).
  assert (Hattr : get_pe_certificate_attibutes data = Ok (ct, va, size))
    by (apply (get_pe_certificate_attibutes_Ok data nt); auto).
  unfold calculate_pe_digest.
  rewrite (authenticode_data_Ok data nt ct va size Hnt Hattr).
  reflexivity.
Qed.

Lemma calculate_pe_digest_layout_witness :
  calculate_pe_digest Images.bare_env (Some sha1) Images.signed_on_disk =
    Ok (Sample.digest sha1
          (slice_to Images.signed_on_disk 0x98 ++ slice Images.signed_on_disk 0x9c 0xd8
           ++ slice Images.signed_on_disk 0xe0 0x100
           ++ slice_from Images.signed_on_disk 0x12b)).
Proof.
  apply (calculate_pe_digest_layout Images.bare_env sha1 Images.signed_on_disk
           0x40 0xd8 0x100 43).
  - reflexivity.
  - reflexivity.
  - reflexivity.
  - left. split; reflexivity.
  - reflexivity.
  - reflexivity.
Defined.

(** When exactly one field of the Security directory entry is zero, the
    digest covers everything behind the entry. *)
Lemma calculate_pe_digest_one_field_zero (E : Env) (A : hash_alg) (data : bytes)
    (nt ct va size : Z) :
  get_nt_header_addr data = Ok (Some nt) ->
  get_pe_certificate_attibutes data = Ok (ct, va, size) ->
  va = 0 \/ size = 0 ->
  calculate_pe_digest E (Some A) data =
    Ok (hashlib_digest E A
          (slice_to data (nt + 0x58) ++ slice data (nt + 0x58 + 4) ct
           ++ slice_from data (ct + 8))).
Proof.
  intros Hnt Hattr Hz. unfold calculate_pe_digest.
  rewrite (authenticode_data_Ok data nt ct va size Hnt Hattr).
  unfold security_tail. rewrite decide_False by lia. reflexivity.
Qed.

(** Outside the claim's premises the digest is not computed: without the
    MZ or PE signature the header offset is [None] and adding to it
    raises; with a magic that is neither PE32 nor PE32+ the directory
    offset is never bound. *)
Lemma calculate_pe_digest_no_header (E : Env) (alg : option hash_alg) (data : bytes) :
  get_nt_header_addr data = Ok None ->
  calculate_pe_digest E alg data = Raise TypeError.
Proof.
  intros Hnt. unfold calculate_pe_digest, authenticode_data. rewrite Hnt. reflexivity.
Qed.

Lemma calculate_pe_digest_other_magic (E : Env) (alg : option hash_alg) (data : bytes)
    (nt : Z) :
  get_nt_header_addr data = Ok (Some nt) ->
  slice data (nt + 0x18) (nt + 0x1a) <> MAGIC32 ->
  slice data (nt + 0x18) (nt + 0x1a) <> MAGIC64 ->
  calculate_pe_digest E alg data = Raise UnboundLocalError.
Proof.
  intros Hnt H32 H64.
  unfold calculate_pe_digest, authenticode_data, get_pe_certificate_attibutes,
    is_32bits, is_64bits.
  rewrite Hnt. simpl. replace (nt + 0x18 + 0x2) with (nt + 0x1a) by lia.
  rewrite !bool_decide_eq_false_2 by done. reflexivity.
Qed.

Section Exclusion.
Context (data data' : bytes) (nt ct va size : Z).
Hypothesis Hwf : well_formed_pe data nt ct va size.
Hypothesis Hrep : checksum_and_certificate_replaced nt va size data data'.
Hypothesis Hentry : agree_on data data' ct (ct + 8).

Local Lemma wf_bounds : 0 <= nt /\ 0 <= va /\ 0 <= size /\ nt + 0x98 <= ct.
Proof.
  destruct Hwf as (Hnt & Hattr & _).
  pose proof Hnt as Hnt'. apply get_nt_header_addr_Some in Hnt' as (_ & Hl & _).
  apply unpack_dword_nonneg in Hl.
  apply (get_pe_certificate_attibutes_Ok data nt) in Hattr as (Hm & Hva & Hsz); [|done].
  apply unpack_dword_nonneg in Hva, Hsz.
  destruct Hm as [[_ ->]|[_ ->]]; lia.
Qed.

Local Lemma agree_headers : agree_on data data' 0 (nt + 0x58).
Proof.
  destruct wf_bounds as (? & ? & ? & ?). destruct Hwf as (_ & _ & Hpos).
  intros i Hi. apply Hrep; lia.
Qed.

Local Lemma agree_after_checksum : agree_on data data' (nt + 0x58 + 4) ct.
Proof.
  destruct wf_bounds as (? & ? & ? & ?). destruct Hwf as (_ & _ & Hpos).
  intros i Hi. apply Hrep; lia.
Qed.

Local Lemma replaced_nt : get_nt_header_addr data' = Ok (Some nt).
Proof.
  destruct wf_bounds as (? & ? & ? & ?). destruct Hwf as (Hnt & _ & _).
  apply get_nt_header_addr_Some in Hnt as (Hmz & Hl & Hpe).
  apply get_nt_header_addr_Some.
  rewrite (slice_to_agree data data'), !(slice_agree data data'); auto; try lia.
  all: eapply agree_on_sub; [apply agree_headers | lia | lia].
Qed.

Local Lemma replaced_attributes :
  get_pe_certificate_attibutes data' = Ok (ct, va, size).
Proof.
  destruct wf_bounds as (? & ? & ? & ?). destruct Hwf as (Hnt & Hattr & _).
  apply (get_pe_certificate_attibutes_Ok data nt) in Hattr as (Hm & Hva & Hsz); [|done].
  apply (get_pe_certificate_attibutes_Ok data' nt); [apply replaced_nt|].
  rewrite !(slice_agree data data'); auto; try lia.
  - eapply agree_on_sub; [apply Hentry | lia | lia].
  - eapply agree_on_sub; [apply Hentry | lia | lia].
  - eapply agree_on_sub; [apply agree_headers | lia | lia].
Qed.

Local Lemma replaced_tail :
  security_tail data' ct va size = security_tail data ct va size.
Proof.
  destruct wf_bounds as (? & ? & ? & ?). destruct Hwf as (_ & _ & Hpos).
  unfold security_tail. case_decide as Hnz.
  - f_equal.
    + apply slice_agree; [lia | lia |]. intros i Hi. apply Hrep; lia.
    + apply slice_from_agree; [lia|]. intros i Hi. apply Hrep; lia.
  - apply slice_from_agree; [lia|]. intros i Hi. apply Hrep; lia.
Qed.

Lemma authenticode_data_replaced :
  exists hashed, authenticode_data data = Ok hashed /\ authenticode_data data' = Ok hashed.
Proof.
  destruct wf_bounds as (? & ? & ? & ?). destruct Hwf as (Hnt & Hattr & _).
  eexists. split.
  - apply (authenticode_data_Ok data nt ct va size); assumption.
  - rewrite (authenticode_data_Ok data' nt ct va size replaced_nt replaced_attributes).
    rewrite replaced_tail.
    rewrite (slice_to_agree data data') by (lia || apply agree_headers).
    rewrite (slice_agree data data') by (lia || apply agree_after_checksum).
    reflexivity.
Qed.
End Exclusion.

(** C3.  For a well-formed PE buffer and each of md5, sha1, sha256,
    [calculate_pe_digest] returns a digest, and returns the same digest
    when the four bytes of the CheckSum field and the bytes of the
    certificate blob [va <= i < va + size] are replaced by arbitrary
    bytes while the eight bytes of the Security directory entry are
    kept. *)
Theorem digest_excludes_checksum_and_certificate (E : Env) (A : hash_alg)
    (data data' : bytes) (nt ct va size : Z) :
  well_formed_pe data nt ct va size ->
  checksum_and_certificate_replaced nt va size data data' ->
  agree_on data data' ct (ct + 8) ->
  exists d, calculate_pe_digest E (Some A) data = Ok d
            /\ calculate_pe_digest E (Some A) data' = Ok d.
Proof.
  intros Hwf Hrep Hentry.
  destruct (authenticode_data_replaced data data' nt ct va size Hwf Hrep Hentry)
    as (hashed & H1 & H2).
  exists (hashlib_digest E A hashed). unfold calculate_pe_digest.
  rewrite H1, H2. auto.
Qed.

Lemma digest_excludes_checksum_and_certificate_witness :
  exists d,
    calculate_pe_digest Images.bare_env (Some sha256) Images.signed_on_disk = Ok d
    /\ calculate_pe_digest Images.bare_env (Some sha256) Images.signed_on_disk_scrubbed = Ok d.
Proof.
  apply (digest_excludes_checksum_and_certificate Images.bare_env sha256
           Images.signed_on_disk Images.signed_on_disk_scrubbed 0x40 0xd8 0x100 43).
  - split; [reflexivity | split; [reflexivity | right; lia]].
  - apply replaced_check_sound. vm_compute. reflexivity.
  - apply agree_on_check_sound. vm_compute. reflexivity.
Defined.

(** The condition of [well_formed_pe] on the place of the blob is
    needed: when the Security directory entry points into the headers,
    the bytes it designates are part of what is hashed. *)
Example certificate_inside_headers_is_hashed :
  get_nt_header_addr Images.misplaced = Ok (Some 0x40)
  /\ get_pe_certificate_attibutes Images.misplaced = Ok (0xd8, 2, 4)
  /\ replaced_check 0x40 2 4 Images.misplaced Images.misplaced_scrubbed = true
  /\ authenticode_data Images.misplaced <> authenticode_data Images.misplaced_scrubbed.
Proof.
  split; [reflexivity|]. split; [reflexivity|]. split; [vm_compute; reflexivity|].
  vm_compute. discriminate.
Qed.

(** ** The page assembler *)

Example write_past_end :
  getvalue (write [x01; x02] (seek 3 (write [xff] BytesIO_new))) = [xff; x00; x00; x01; x02]
  /\ getvalue (write [x01] (seek 0 (write [xff; xfe] BytesIO_new))) = [x01; xfe]
  /\ getvalue (seek 9 (write [xff] BytesIO_new)) = [xff].
Proof. repeat split. Qed.

Lemma write_length (d : bytes) (f : BytesIO) :
  length (bio_buf (write d f)) = (length (bio_buf f) `max` (bio_pos f + length d))%nat.
Proof.
  unfold write. simpl.
  rewrite !length_app, length_take, length_drop, length_app, length_replicate. lia.
Qed.

(** A byte of the buffer after a write: inside the written extent it is
    the byte written; outside it is the old byte, or a zero of the gap. *)
Lemma write_lookup (d : bytes) (f : BytesIO) (i : nat) (b : byte) :
  bio_buf (write d f) !! i = Some b ->
  ((bio_pos f <= i < bio_pos f + length d)%nat /\ d !! (i - bio_pos f)%nat = Some b)
  \/ (~ (bio_pos f <= i < bio_pos f + length d)%nat
      /\ (bio_buf f !! i = Some b \/ b = x00)).
Proof.
  unfold write. simpl.
  set (padded := bio_buf f ++ replicate (bio_pos f - length (bio_buf f)) x00).
  assert (Hpad : forall j c, padded !! j = Some c -> bio_buf f !! j = Some c \/ c = x00).
  { intros j c. unfold padded. rewrite lookup_app_Some.
    intros [?|[_ Hr]]; [auto|]. apply lookup_replicate in Hr as [-> _]. auto. }
  assert (Hlen : (bio_pos f <= length padded)%nat).
  { unfold padded. rewrite length_app, length_replicate. lia. }
  intros H.
  destruct (decide (i < bio_pos f)%nat) as [Hlt|Hge].
  - right. split; [lia|].
    rewrite lookup_app_l in H by (rewrite length_take; lia).
    rewrite lookup_take_lt in H by done. by apply Hpad.
  - rewrite lookup_app_r in H by (rewrite length_take; lia).
    rewrite length_take in H.
    replace (i - bio_pos f `min` length padded)%nat with (i - bio_pos f)%nat in H by lia.
    destruct (decide (i - bio_pos f < length d)%nat) as [Hin|Hout].
    + left. rewrite lookup_app_l in H by done. split; [lia | done].
    + right. split; [lia|].
      rewrite lookup_app_r in H by lia. rewrite lookup_drop in H.
      replace (bio_pos f + length d + (i - bio_pos f - length d))%nat with i in H by lia.
      by apply Hpad.
Qed.

Lemma failed_read_keeps_buffer (E : Env) (of_ : BytesIO) (mdata : PageSpan) :
  truthy (read_span E mdata) = false ->
  getvalue (read_file_memory_step E of_ mdata) = getvalue of_.
Proof. intros H. unfold read_file_memory_step. rewrite H. reflexivity. Qed.

Lemma covered_mono (E : Env) (seen more : list PageSpan) (i : nat) :
  covered E seen i -> covered E (seen ++ more) i.
Proof.
  intros (m & r & Hin & Hr & Hi). exists m, r. rewrite elem_of_app. auto.
Qed.

Lemma assembled_step (E : Env) (seen : list PageSpan) (of_ : BytesIO) (mdata : PageSpan) :
  assembled E seen of_ ->
  assembled E (seen ++ [mdata]) (read_file_memory_step E of_ mdata).
Proof.
  intros [Hz Hc]. unfold read_file_memory_step.
  destruct (read_span E mdata) as [[|b0 rdata]|] eqn:Hread; simpl.
  - split.
    + intros i b Hb Hnz. apply covered_mono. eauto.
    + intros m r Hin Hr Hne. apply elem_of_app in Hin as [Hin|Hin]; [eauto|].
      apply list_elem_of_singleton in Hin as ->. congruence.
  - split.
    + intros i b Hb Hnz. apply write_lookup in Hb as [[Hi Hd] | [Hi [Hold | ->]]].
      * exists mdata, (b0 :: rdata). rewrite elem_of_app, list_elem_of_singleton.
        simpl in Hi. auto.
      * apply covered_mono. eauto.
      * done.
    + intros m r Hin Hr Hne. rewrite write_length. simpl.
      apply elem_of_app in Hin as [Hin|Hin].
      * specialize (Hc m r Hin Hr Hne). lia.
      * apply list_elem_of_singleton in Hin as ->.
        rewrite Hread in Hr. injection Hr as <-. simpl. lia.
  - split.
    + intros i b Hb Hnz. apply covered_mono. eauto.
    + intros m r Hin Hr Hne. apply elem_of_app in Hin as [Hin|Hin]; [eauto|].
      apply list_elem_of_singleton in Hin as ->. congruence.
Qed.

Lemma assembled_foldl (E : Env) (present seen : list PageSpan) (of_ : BytesIO) :
  assembled E seen of_ ->
  assembled E (seen ++ present) (foldl (read_file_memory_step E) of_ present).
Proof.
  revert seen of_. induction present as [|mdata present IH]; intros seen of_ H; simpl.
  - by rewrite app_nil_r.
  - replace (seen ++ mdata :: present) with ((seen ++ [mdata]) ++ present)
      by (by rewrite <- app_assoc).
    apply IH, assembled_step, H.
Qed.

(** C9.  In the buffer that [read_file_memory] returns, every position
    that is not in the extent written by a span whose read succeeded, be
    it a hole between spans or the extent of a span whose read failed,
    holds zero; the buffer reaches the end of the extent of every span
    whose read succeeded; and a span whose read failed leaves the bytes
    of the buffer as they were. *)
Theorem read_file_memory_zero_fill (E : Env) (present : list PageSpan) :
  (forall i : nat,
      (i < length (read_file_memory_present E present))%nat ->
      ~ covered E present i ->
      read_file_memory_present E present !! i = Some x00)
  /\ (forall mdata rdata,
        mdata ∈ present -> read_span E mdata = Some rdata -> rdata <> [] ->
        (N.to_nat (file_offset mdata) + length rdata
         <= length (read_file_memory_present E present))%nat)
  /\ (forall of_ mdata,
        truthy (read_span E mdata) = false ->
        getvalue (read_file_memory_step E of_ mdata) = getvalue of_).
Proof.
  assert (Hinv : assembled E ([] ++ present)
                   (foldl (read_file_memory_step E) BytesIO_new present)).
  { apply assembled_foldl. split.
    - intros i b Hb. simpl in Hb. by rewrite lookup_nil in Hb.
    - intros m r Hin. by apply not_elem_of_nil in Hin. }
  destruct Hinv as [Hz Hc]. simpl in Hz, Hc.
  split; [|split].
  - intros i Hlt Hnc. unfold read_file_memory_present, getvalue in *.
    destruct (lookup_lt_is_Some_2 _ _ Hlt) as [b Hb]. rewrite Hb. f_equal.
    destruct (decide (b = x00)) as [->|Hnz]; [done|].
    exfalso. apply Hnc. eauto.
  - intros m r Hin Hr Hne. unfold read_file_memory_present, getvalue. eauto.
  - intros of_ mdata. apply failed_read_keeps_buffer.
Qed.

Example read_file_memory_spans3 :
  read_file_memory_present Images.memory8_env Images.spans3 =
    [x4d; x5a; x90; x00] ++ replicate 12 x00 ++ [x03; x00; x00; x00].
Proof. reflexivity. Qed.

Lemma read_file_memory_zero_fill_witness :
  read_file_memory_present Images.memory8_env Images.spans3 !! 9%nat = Some x00.
Proof.
  apply (proj1 (read_file_memory_zero_fill Images.memory8_env Images.spans3)).
  - vm_compute. lia.
  - intros (m & r & Hin & Hr & Hi).
    unfold Images.spans3 in Hin.
    elem_cases Hin.
    + vm_compute in Hr. injection Hr as <-. simpl in Hi. lia.
    + vm_compute in Hr. discriminate.
    + vm_compute in Hr. injection Hr as <-. simpl in Hi. lia.
Defined.

(** ** The relocation rebaser *)

Section Rebase.
Context (E : Env).

Lemma relocation_error_rebase (content : bytes) (pe : PE) (c : Z) :
  pefile_PE E content = Ok pe ->
  relocation_error E pe c ->
  rebase_candidate E content c = Raise AttributeError
  \/ rebase_candidate E content c = Raise StructError.
Proof.
  intros Hpe [H|H]; unfold rebase_candidate; rewrite Hpe; simpl; rewrite H; auto.
Qed.

Lemma rebase_loop_step_dropped (content : bytes) (pe : PE) (is32 : bool)
    (c : Z) (rest : list Z) :
  pefile_PE E content = Ok pe ->
  candidate_dropped E content pe is32 c ->
  rebase_loop E content is32 (c :: rest) = rebase_loop E content is32 rest.
Proof.
  intros Hpe Hd. simpl.
  destruct (is32 && (0xffffffff <? c)) eqn:Hskip; [done|].
  destruct Hd as [[-> Hc] | [Herr | (pe' & Hre & Hck)]].
  - apply Z.ltb_lt in Hc. rewrite Hc in Hskip. discriminate.
  - unfold try_candidate.
    destruct (relocation_error_rebase content pe c Hpe Herr) as [-> | ->]; reflexivity.
  - unfold try_candidate. rewrite Hre. simpl. rewrite Hck. reflexivity.
Qed.

Lemma rebase_loop_all_dropped (content : bytes) (pe : PE) (is32 : bool)
    (candidates : list Z) :
  pefile_PE E content = Ok pe ->
  (forall c, c ∈ candidates -> candidate_dropped E content pe is32 c) ->
  rebase_loop E content is32 candidates = Ok (VCode PE_REBUILT_FAILED).
Proof.
  intros Hpe. induction candidates as [|c rest IH]; intros Hall; [reflexivity|].
  rewrite (rebase_loop_step_dropped content pe is32 c rest Hpe)
    by (apply Hall; left).
  apply IH. intros c' Hc'. apply Hall. by right.
Qed.

Lemma rebase_loop_skip_prefix (content : bytes) (pe : PE) (is32 : bool)
    (pre rest : list Z) :
  pefile_PE E content = Ok pe ->
  (forall c, c ∈ pre -> candidate_dropped E content pe is32 c) ->
  rebase_loop E content is32 (pre ++ rest) = rebase_loop E content is32 rest.
Proof.
  intros Hpe. induction pre as [|c pre IH]; intros Hall; [reflexivity|].
  rewrite <- app_comm_cons.
  rewrite (rebase_loop_step_dropped content pe is32 c (pre ++ rest) Hpe)
    by (apply Hall; left).
  apply IH. intros c' Hc'. apply Hall. by right.
Qed.

(** At the first candidate that passes, the loop hands the rebuilt
    image to [verify_pe]; what [verify_pe] returns is returned.  The
    [except] clause encloses that call too, so an AttributeError or a
    struct.error raised inside it sends the loop on to the candidates
    that follow. *)
Lemma rebase_loop_first_pass (content : bytes) (pe : PE) (is32 : bool)
    (pre post : list Z) (c : Z) (pe' : PE) :
  pefile_PE E content = Ok pe ->
  (forall c', c' ∈ pre -> candidate_dropped E content pe is32 c') ->
  candidate_passes E content is32 c pe' ->
  rebase_loop E content is32 (pre ++ c :: post) =
    match verify_pe E pe' with
    | Ok v => Ok v
    | Raise AttributeError => rebase_loop E content is32 post
    | Raise StructError => rebase_loop E content is32 post
    | Raise e => Raise e
    end.
Proof.
  intros Hpe Hpre (Hns & Hre & Hck).
  rewrite (rebase_loop_skip_prefix content pe is32 pre (c :: post) Hpe Hpre).
  simpl.
  destruct (is32 && (0xffffffff <? c)) eqn:Hskip.
  - exfalso. apply Hns. apply andb_true_iff in Hskip as [-> Hc].
    apply Z.ltb_lt in Hc. by split.
  - unfold try_candidate. rewrite Hre. simpl. rewrite Hck.
    destruct (verify_pe E pe') as [v|[]]; reflexivity.
Qed.

Lemma validate_image_section_rebase (content : bytes) (file_type : string)
    (stripped : bytes) (pe : PE) (is32 : bool) (candidates : list Z) :
  needs_rebase E content file_type stripped pe is32 candidates ->
  validate_image_section E content file_type = rebase_loop E stripped is32 candidates.
Proof.
  intros (Hstrip & Hpe & H32 & Hck & Hcands).
  unfold validate_image_section.
  rewrite Hstrip. simpl. rewrite Hpe. simpl. rewrite H32. simpl.
  rewrite Hck, Hcands. reflexivity.
Qed.

End Rebase.

(** C5.  For an ImageSectionObject buffer that fails [verify_checksum],
    the candidate bases of [FrequentBaseTable[extension]] are tried in
    list order.  A candidate is passed over when it is above 0xFFFFFFFF
    and the image is 32-bit, when relocating to it raises one of the two
    relocation errors, or when the rebuilt image fails its checksum.
    If every candidate is passed over the result is [PE_REBUILT_FAILED];
    otherwise the image rebuilt at the first candidate that passes goes
    to [verify_pe], whose result is the result. *)
Theorem rebaser_first_matching_candidate (E : Env) (content : bytes)
    (file_type : string) (stripped : bytes) (pe : PE) (is32 : bool)
    (candidates : list Z) :
  needs_rebase E content file_type stripped pe is32 candidates ->
  ((forall c, c ∈ candidates -> candidate_dropped E stripped pe is32 c) ->
   validate_image_section E content file_type = Ok (VCode PE_REBUILT_FAILED))
  /\ (forall pre c post pe' v,
        candidates = pre ++ c :: post ->
        (forall c', c' ∈ pre -> candidate_dropped E stripped pe is32 c') ->
        candidate_passes E stripped is32 c pe' ->
        verify_pe E pe' = Ok v ->
        validate_image_section E content file_type = Ok v).
Proof.
  intros Hneeds.
  rewrite (validate_image_section_rebase E content file_type stripped pe is32
             candidates Hneeds).
  destruct Hneeds as (_ & Hpe & _).
  split.
  - apply rebase_loop_all_dropped. exact Hpe.
  - intros pre c post pe' v -> Hpre Hpass Hv.
    rewrite (rebase_loop_first_pass E stripped pe is32 pre post c pe' Hpe Hpre Hpass).
    rewrite Hv. reflexivity.
Qed.

(** ** [verify_pe] and the two full paths *)

Section VerifyPE.
Context (E : Env).

Lemma verify_pe_mismatch (pe : PE) (a : hash_alg) (hash_file : py_hash) (digest : bytes) :
  truthy (extract_cert pe) = true ->
  get_digest_from_signature (default [] (extract_cert pe)) = DigestPair (Some a) hash_file ->
  calculate_pe_digest E (Some a) (pe_data pe) = Ok digest ->
  hash_file <> HashBytes digest ->
  verify_pe E pe = Ok (VCode AUTHENTICODE_SIGNATURE_MISMATCH).
Proof.
  intros Hcert Hsig Hdig Hne. unfold verify_pe.
  rewrite Hcert, Hsig. simpl. rewrite Hdig. simpl.
  rewrite decide_False by done. reflexivity.
Qed.

Lemma verify_pe_unsigned_miss (pe : PE) (digest : bytes) :
  truthy (extract_cert pe) = false ->
  calculate_pe_digest E (Some sha1) (pe_data pe) = Ok digest ->
  is_in_catalog E digest = false ->
  verify_pe E pe = Ok (VCode NOT_SIGNED).
Proof.
  intros Hcert Hdig Hcat. unfold verify_pe.
  rewrite Hcert, Hdig. simpl. rewrite Hcat. reflexivity.
Qed.

Lemma verify_pe_partial_certificate (pe : PE) (hash_file : py_hash) :
  truthy (extract_cert pe) = true ->
  get_digest_from_signature (default [] (extract_cert pe)) = DigestPair None hash_file ->
  verify_pe E pe = Ok (VCode PARTIAL_CERTIFICATE).
Proof.
  intros Hcert Hsig. unfold verify_pe. rewrite Hcert, Hsig. reflexivity.
Qed.

(** The members of [ReturnCode] that [verify_pe] can return. *)
Lemma verify_pe_codes (pe : PE) (rc : ReturnCode) :
  verify_pe E pe = Ok (VCode rc) ->
  rc ∈ [AUTHENTICODE_SIGNATURE_MISMATCH; PARTIAL_CERTIFICATE; CATALOG_SIGNED; NOT_SIGNED].
Proof.
  unfold verify_pe, verify_signature.
  destruct (truthy (extract_cert pe)).
  - destruct (get_digest_from_signature _) as [[a|] h|]; simpl; [| |discriminate].
    + destruct (calculate_pe_digest E (Some a) (pe_data pe)) as [d|e]; simpl;
        [|discriminate].
      case_decide.
      * destruct (openssl_verdict E _); simpl; discriminate.
      * intros [= <-]. set_solver.
    + intros [= <-]. set_solver.
  - destruct (calculate_pe_digest E (Some sha1) (pe_data pe)) as [d|e]; simpl;
      [|discriminate].
    destruct (is_in_catalog E d); intros [= <-]; set_solver.
Qed.

(** With [None] for algorithm the digest is never computed. *)
Lemma calculate_pe_digest_None (data : bytes) :
  exists e, calculate_pe_digest E None data = Raise e.
Proof.
  unfold calculate_pe_digest.
  destruct (authenticode_data data) as [d|e]; simpl; eauto.
Qed.

(** [validate_data_section] does not test [algorithm] before it hashes:
    a certificate blob that the pattern does not match ends in an
    exception. *)
Lemma validate_data_section_unparseable (content stripped : bytes) (pe : PE)
    (hash_file : py_hash) :
  delete_padding E content = Ok stripped ->
  pefile_PE E stripped = Ok pe ->
  pefile_verify_checksum E pe = true ->
  truthy (extract_cert pe) = true ->
  get_digest_from_signature (default [] (extract_cert pe)) = DigestPair None hash_file ->
  exists e, validate_data_section E content = Raise e.
Proof.
  intros Hstrip Hpe Hck Hcert Hsig. unfold validate_data_section.
  rewrite Hstrip. simpl. rewrite Hpe. simpl. rewrite Hck, Hcert, Hsig. simpl.
  destruct (calculate_pe_digest_None stripped) as [e ->]. eauto.
Qed.

End VerifyPE.

(** C1, as the code has it.  When validation of an ImageSectionObject
    buffer reaches [verify_pe] through the rebase loop, a digest of the
    embedded signature that differs from the computed Authenticode
    digest yields [AUTHENTICODE_SIGNATURE_MISMATCH], and an image
    without embedded signature whose SHA-1 digest is in no catalog
    yields [NOT_SIGNED]: the codes of the DataSectionObject path. *)
Theorem rebase_path_verdicts (E : Env) (content : bytes) (file_type : string)
    (stripped : bytes) (pe : PE) (is32 : bool) (pre post : list Z) (c : Z) (pe' : PE) :
  needs_rebase E content file_type stripped pe is32 (pre ++ c :: post) ->
  (forall c', c' ∈ pre -> candidate_dropped E stripped pe is32 c') ->
  candidate_passes E stripped is32 c pe' ->
  (forall a hash_file digest,
      truthy (extract_cert pe') = true ->
      get_digest_from_signature (default [] (extract_cert pe')) = DigestPair (Some a) hash_file ->
      calculate_pe_digest E (Some a) (pe_data pe') = Ok digest ->
      hash_file <> HashBytes digest ->
      validate_image_section E content file_type = Ok (VCode AUTHENTICODE_SIGNATURE_MISMATCH))
  /\ (forall digest,
        truthy (extract_cert pe') = false ->
        calculate_pe_digest E (Some sha1) (pe_data pe') = Ok digest ->
        is_in_catalog E digest = false ->
        validate_image_section E content file_type = Ok (VCode NOT_SIGNED)).
Proof.
  intros Hneeds Hpre Hpass.
  rewrite (validate_image_section_rebase E content file_type stripped pe is32 _ Hneeds).
  destruct Hneeds as (_ & Hpe & _).
  rewrite (rebase_loop_first_pass E stripped pe is32 pre post c pe' Hpe Hpre Hpass).
  split.
  - intros a hash_file digest Hcert Hsig Hdig Hne.
    by rewrite (verify_pe_mismatch E pe' a hash_file digest).
  - intros digest Hcert Hdig Hcat.
    by rewrite (verify_pe_unsigned_miss E pe' digest).
Qed.

(** The members of [ReturnCode] that [validate_image_section] can
    return; the two [.._OR_INCORRECT_IMAGEBASE] members, 9 and 13, are
    not among them. *)
Lemma validate_image_section_codes (E : Env) (content : bytes) (file_type : string)
    (rc : ReturnCode) :
  validate_image_section E content file_type = Ok (VCode rc) ->
  rc ∈ [PE_REBUILT_FAILED; AUTHENTICODE_SIGNATURE_MISMATCH; PARTIAL_CERTIFICATE;
        CATALOG_SIGNED; NOT_SIGNED].
Proof.
  assert (Hv : forall pe, verify_pe E pe = Ok (VCode rc) ->
    rc ∈ [PE_REBUILT_FAILED; AUTHENTICODE_SIGNATURE_MISMATCH; PARTIAL_CERTIFICATE;
          CATALOG_SIGNED; NOT_SIGNED]).
  { intros pe H. apply verify_pe_codes in H. apply elem_of_cons. by right. }
  assert (Hloop : forall stripped is32 cands,
    rebase_loop E stripped is32 cands = Ok (VCode rc) ->
    rc ∈ [PE_REBUILT_FAILED; AUTHENTICODE_SIGNATURE_MISMATCH; PARTIAL_CERTIFICATE;
          CATALOG_SIGNED; NOT_SIGNED]).
  { intros stripped is32 cands. induction cands as [|c rest IH]; simpl.
    - intros [= <-]. set_solver.
    - destruct (is32 && (0xffffffff <? c)); [exact IH|].
      unfold try_candidate.
      destruct (rebase_candidate E stripped c) as [pe'|[]]; simpl; try discriminate;
        try exact IH.
      destruct (pefile_verify_checksum E pe'); simpl; [|exact IH].
      destruct (verify_pe E pe') as [v|[]] eqn:Hpe'; simpl; try discriminate;
        try exact IH.
      intros [= ->]. eapply Hv, Hpe'. }
  unfold validate_image_section.
  destruct (delete_padding E content) as [stripped|]; simpl; [|discriminate].
  destruct (pefile_PE E stripped) as [pe|]; simpl; [|discriminate].
  destruct (is_32bits stripped) as [is32|]; simpl; [|discriminate].
  destruct (pefile_verify_checksum E pe); [apply Hv|].
  destruct (frequent_addresses E !! file_type); simpl; [apply Hloop | discriminate].
Qed.

Example incorrect_imagebase_codes :
  ReturnCode_int AUTHENTICODE_SIGNATURE_MISMATCH_OR_INCORRECT_IMAGEBASE = 9
  /\ ReturnCode_int AUTHENTICODE_SIGNATURE_MISMATCH = 10
  /\ ReturnCode_int NOT_SIGNED_OR_INCORRECT_IMAGEBASE = 13
  /\ ReturnCode_int NOT_SIGNED = 14.
Proof. repeat split. Qed.

(** ** Runs on the sample images *)

Section SampleRuns.
Import Images.

(** The mapped signed image needs a rebase: its checksum fails as it is,
    and its candidates are those of ["exe"]. *)
Lemma signed_in_memory_needs_rebase :
  needs_rebase bare_env signed_in_memory "exe" signed_in_memory
    (parsed signed_in_memory 0x100 43) true [0x140000000; 0x10000000; 0x400000].
Proof. repeat split; vm_compute; reflexivity. Qed.

Lemma signed_in_memory_dropped (c : Z) :
  c ∈ [0x140000000; 0x10000000] ->
  candidate_dropped bare_env signed_in_memory (parsed signed_in_memory 0x100 43) true c.
Proof.
  intros Hc.
  elem_cases Hc.
  - left. split; [reflexivity | lia].
  - right. right. exists (parsed (signed_image 0x10000000 signed_check cert_sha1) 0x100 43).
    split; vm_compute; reflexivity.
Qed.

Lemma signed_in_memory_passes :
  candidate_passes bare_env signed_in_memory true 0x400000 (parsed signed_on_disk 0x100 43).
Proof.
  split; [|split].
  - intros [_ H]. lia.
  - vm_compute. reflexivity.
  - vm_compute. reflexivity.
Qed.

Lemma unsigned_in_memory_needs_rebase :
  needs_rebase bare_env unsigned_in_memory "exe" unsigned_in_memory
    (parsed unsigned_in_memory 0 0) true [0x140000000; 0x10000000; 0x400000].
Proof. repeat split; vm_compute; reflexivity. Qed.

Lemma unsigned_in_memory_dropped (c : Z) :
  c ∈ [0x140000000; 0x10000000] ->
  candidate_dropped bare_env unsigned_in_memory (parsed unsigned_in_memory 0 0) true c.
Proof.
  intros Hc.
  elem_cases Hc.
  - left. split; [reflexivity | lia].
  - right. right. exists (parsed (unsigned_image 0x10000000 unsigned_check 0) 0 0).
    split; vm_compute; reflexivity.
Qed.

Lemma unsigned_in_memory_passes :
  candidate_passes bare_env unsigned_in_memory true 0x400000 (parsed unsigned_on_disk 0 0).
Proof.
  split; [|split].
  - intros [_ H]. lia.
  - vm_compute. reflexivity.
  - vm_compute. reflexivity.
Qed.

(** The image linked at 0x500000 is rebuilt at both candidates below
    2^32, and fails its checksum at both. *)
Lemma unsigned_elsewhere_dropped (c : Z) :
  c ∈ [0x140000000; 0x10000000; 0x400000] ->
  candidate_dropped bare_env unsigned_elsewhere_in_memory
    (parsed unsigned_elsewhere_in_memory 0 0) true c.
Proof.
  intros Hc.
  elem_cases Hc.
  - left. split; [reflexivity | lia].
  - right. right.
    exists (parsed (unsigned_image 0x10000000
                      (check_of (fun c => unsigned_image 0x500000 c 0)) 0) 0 0).
    split; vm_compute; reflexivity.
  - right. right.
    exists (parsed (unsigned_image 0x400000
                      (check_of (fun c => unsigned_image 0x500000 c 0)) 0) 0 0).
    split; vm_compute; reflexivity.
Qed.

End SampleRuns.

Lemma rebaser_first_matching_candidate_witness :
  validate_image_section Images.bare_env Images.unsigned_elsewhere_in_memory "exe"
    = Ok (VCode PE_REBUILT_FAILED)
  /\ validate_image_section Images.bare_env Images.signed_in_memory "exe"
     = Ok (VCode AUTHENTICODE_SIGNATURE_MISMATCH).
Proof.
  split.
  - apply (proj1 (rebaser_first_matching_candidate Images.bare_env
                    Images.unsigned_elsewhere_in_memory "exe"
                    Images.unsigned_elsewhere_in_memory
                    (Images.parsed Images.unsigned_elsewhere_in_memory 0 0) true
                    [0x140000000; 0x10000000; 0x400000]
                    ltac:(repeat split; vm_compute; reflexivity))).
    apply unsigned_elsewhere_dropped.
  - apply (proj2 (rebaser_first_matching_candidate Images.bare_env
                    Images.signed_in_memory "exe" Images.signed_in_memory
                    (Images.parsed Images.signed_in_memory 0x100 43) true
                    [0x140000000; 0x10000000; 0x400000]
                    signed_in_memory_needs_rebase)
             [0x140000000; 0x10000000] 0x400000 []
             (Images.parsed Images.signed_on_disk 0x100 43)).
    + reflexivity.
    + apply signed_in_memory_dropped.
    + apply signed_in_memory_passes.
    + vm_compute. reflexivity.
Defined.

(** A relocation error at every candidate: the image whose Base
    Relocation directory has a Size and no address. *)
Example rebaser_relocation_error_run :
  (forall c, c ∈ [0x10000000; 0x400000] ->
     pefile_relocate_image Images.bare_env
       (Images.parsed Images.unsigned_unrelocatable_in_memory 0 0) c = Raise AttributeError)
  /\ validate_image_section Images.bare_env Images.unsigned_unrelocatable_in_memory "exe"
     = Ok (VCode PE_REBUILT_FAILED).
Proof.
  split.
  - intros c Hc. elem_cases Hc; vm_compute; reflexivity.
  - vm_compute. reflexivity.
Qed.

Lemma rebase_path_verdicts_witness :
  validate_image_section Images.bare_env Images.signed_in_memory "exe"
    = Ok (VCode AUTHENTICODE_SIGNATURE_MISMATCH)
  /\ validate_image_section Images.bare_env Images.unsigned_in_memory "exe"
     = Ok (VCode NOT_SIGNED).
Proof.
  split.
  - eapply (proj1 (rebase_path_verdicts Images.bare_env Images.signed_in_memory "exe"
                     Images.signed_in_memory (Images.parsed Images.signed_in_memory 0x100 43)
                     true [0x140000000; 0x10000000] [] 0x400000
                     (Images.parsed Images.signed_on_disk 0x100 43)
                     signed_in_memory_needs_rebase signed_in_memory_dropped
                     signed_in_memory_passes)).
    + reflexivity.
    + vm_compute. reflexivity.
    + vm_compute. reflexivity.
    + discriminate.
  - eapply (proj2 (rebase_path_verdicts Images.bare_env Images.unsigned_in_memory "exe"
                     Images.unsigned_in_memory (Images.parsed Images.unsigned_in_memory 0 0)
                     true [0x140000000; 0x10000000] [] 0x400000
                     (Images.parsed Images.unsigned_on_disk 0 0)
                     unsigned_in_memory_needs_rebase unsigned_in_memory_dropped
                     unsigned_in_memory_passes)).
    + reflexivity.
    + vm_compute. reflexivity.
    + reflexivity.
Defined.

(** The claim of C1 fails on the mapped signed image, whose header has
    sixteen directory entries and an empty Base Relocation directory,
    so that relocating it changes no byte: validation reaches
    [verify_pe] through the rebase loop at the candidate 0x400000, the
    digest in the signature differs from the computed one, and the
    verdict is [AUTHENTICODE_SIGNATURE_MISMATCH], not
    [AUTHENTICODE_SIGNATURE_MISMATCH_OR_INCORRECT_IMAGEBASE]; likewise
    the mapped unsigned image, in no catalog, gets [NOT_SIGNED], not
    [NOT_SIGNED_OR_INCORRECT_IMAGEBASE]. *)
Lemma rebase_path_codes_counterexample :
  (Sample.number_of_rva_and_sizes Images.signed_in_memory = 16
   /\ Sample.relocate_image (Images.parsed Images.signed_in_memory 0x100 43) 0x400000
      = Ok Images.signed_in_memory
   /\ pefile_verify_checksum Images.bare_env (Images.parsed Images.signed_in_memory 0x100 43) = false
   /\ candidate_passes Images.bare_env Images.signed_in_memory true 0x400000
        (Images.parsed Images.signed_on_disk 0x100 43)
   /\ get_digest_from_signature Images.cert_sha1
      = DigestPair (Some sha1) (HashBytes (replicate 20 x11))
   /\ calculate_pe_digest Images.bare_env (Some sha1) Images.signed_on_disk
      <> Ok (replicate 20 x11)
   /\ validate_image_section Images.bare_env Images.signed_in_memory "exe"
      <> Ok (VCode AUTHENTICODE_SIGNATURE_MISMATCH_OR_INCORRECT_IMAGEBASE))
  /\ (pefile_verify_checksum Images.bare_env (Images.parsed Images.unsigned_in_memory 0 0) = false
      /\ candidate_passes Images.bare_env Images.unsigned_in_memory true 0x400000
           (Images.parsed Images.unsigned_on_disk 0 0)
      /\ extract_cert (Images.parsed Images.unsigned_on_disk 0 0) = None
      /\ validate_image_section Images.bare_env Images.unsigned_in_memory "exe"
         <> Ok (VCode NOT_SIGNED_OR_INCORRECT_IMAGEBASE)).
Proof.
  split.
  - split; [vm_compute; reflexivity|].
    split; [vm_compute; reflexivity|].
    split; [vm_compute; reflexivity|].
    split; [apply signed_in_memory_passes|].
    split; [vm_compute; reflexivity|].
    split; vm_compute; discriminate.
  - split; [vm_compute; reflexivity|].
    split; [apply unsigned_in_memory_passes|].
    split; [reflexivity|].
    vm_compute. discriminate.
Qed.

(** ** The signature extractor *)

(** The pattern on three short inputs: the greedy group gives back
    bytes until the tail fits, and the dot does not match a newline. *)
Example regex_search_runs :
  (oid_algorithm <$> regex_search
     ([x30; x21; x30; x09; x06; x05] ++ OID_sha1 ++ [x05; x00; x04; x14])) = Some OID_sha1
  /\ (oid_algorithm <$> regex_search
        ([x00; x30; x31; x30; x0d; x06; x09] ++ OID_sha256 ++ [x05; x00; x04; x20; x99]))
     = Some OID_sha256
  /\ regex_search ([x30; x0a; x30; x09; x06; x05] ++ OID_sha1 ++ [x05; x00; x04; x14]) = None.
Proof. repeat split. Qed.

(** What [get_digest_from_signature] returns, case by case. *)
Lemma get_digest_from_signature_no_match (signature : bytes) :
  regex_search signature = None ->
  get_digest_from_signature signature = DigestPair None (HashInt 0).
Proof. intros H. unfold get_digest_from_signature. rewrite H. reflexivity. Qed.

Lemma get_digest_from_signature_known (signature : bytes) (m : re_match) :
  regex_search signature = Some m ->
  let digest := HashBytes (slice (after_match m) 0 (byte_val (hash_size m))) in
  (oid_algorithm m = OID_md5 -> get_digest_from_signature signature = DigestPair (Some md5) digest)
  /\ (oid_algorithm m = OID_sha1 -> get_digest_from_signature signature = DigestPair (Some sha1) digest)
  /\ (oid_algorithm m = OID_sha256 -> get_digest_from_signature signature = DigestPair (Some sha256) digest).
Proof.
  intros H digest. unfold get_digest_from_signature. rewrite H.
  repeat split; intros ->; reflexivity.
Qed.

(** The pattern matches, the OID is none of the three: no branch of the
    [if] chain returns and the function yields a bare [None]. *)
Lemma get_digest_from_signature_unknown (signature : bytes) (m : re_match) :
  regex_search signature = Some m ->
  oid_algorithm m <> OID_md5 -> oid_algorithm m <> OID_sha1 -> oid_algorithm m <> OID_sha256 ->
  get_digest_from_signature signature = DigestNone.
Proof.
  intros H H1 H2 H3. unfold get_digest_from_signature. rewrite H.
  rewrite !decide_False by done. reflexivity.
Qed.

(** C10.  On a blob in which the pattern matches with the five-byte OID
    01 02 03 04 05, [get_digest_from_signature] returns a bare [None],
    not a pair, and the tuple unpacking of both callers raises
    TypeError. *)
Theorem get_digest_from_signature_unknown_oid :
  (exists m, regex_search Images.cert_unknown_oid = Some m
             /\ oid_algorithm m = [x01; x02; x03; x04; x05])
  /\ get_digest_from_signature Images.cert_unknown_oid = DigestNone
  /\ unpack_pair (get_digest_from_signature Images.cert_unknown_oid) = Raise TypeError
  /\ verify_pe Images.bare_env (Images.parsed Images.unknown_oid_signed 0x100 43)
     = Raise TypeError
  /\ validate_data_section Images.bare_env Images.unknown_oid_signed = Raise TypeError.
Proof.
  split; [eexists; split; vm_compute; reflexivity|].
  repeat split; vm_compute; reflexivity.
Qed.

(** C2.  A fully resident DataSectionObject whose header has sixteen
    directory entries, whose checksum verifies and whose Security
    directory is non-zero, with a certificate blob that the digest
    pattern does not match: [validate_data_section] raises TypeError
    where [verify_pe], given the same image, returns
    [PARTIAL_CERTIFICATE]. *)
Theorem data_section_partial_certificate_raises :
  (Sample.number_of_rva_and_sizes Images.garbage_signed = 16
   /\ pefile_PE Images.bare_env Images.garbage_signed
      = Ok (Images.parsed Images.garbage_signed 0x100 32)
   /\ delete_padding Images.bare_env Images.garbage_signed = Ok Images.garbage_signed
   /\ pefile_verify_checksum Images.bare_env (Images.parsed Images.garbage_signed 0x100 32) = true
   /\ extract_cert (Images.parsed Images.garbage_signed 0x100 32) = Some Images.cert_garbage
   /\ regex_search Images.cert_garbage = None)
  /\ validate_data_section Images.bare_env Images.garbage_signed = Raise TypeError
  /\ verify_pe Images.bare_env (Images.parsed Images.garbage_signed 0x100 32)
     = Ok (VCode PARTIAL_CERTIFICATE)
  /\ validate_image_section Images.bare_env Images.garbage_signed "exe"
     = Ok (VCode PARTIAL_CERTIFICATE).
Proof. repeat split; vm_compute; reflexivity. Qed.

(** The two full paths on images they accept: a digest listed in a
    catalog, and the same image found after a rebase. *)
Example catalog_signed_runs :
  validate_data_section Images.catalog_env Images.unsigned_on_disk = Ok (VCode CATALOG_SIGNED)
  /\ validate_image_section Images.catalog_env Images.unsigned_in_memory "exe"
     = Ok (VCode CATALOG_SIGNED)
  /\ validate_data_section Images.bare_env Images.unsigned_on_disk = Ok (VCode NOT_SIGNED)
  /\ validate_data_section Images.bare_env Images.signed_in_memory
     = Ok (VCode PE_CHECKSUM_MISMATCH).
Proof. repeat split; vm_compute; reflexivity. Qed.

(** ** The partial path *)

Lemma has_cert_true (pe : PE) :
  has_cert pe = true <->
  Security_Size (pe_headers pe) <> 0 /\ Security_VirtualAddress (pe_headers pe) <> 0.
Proof.
  unfold has_cert. rewrite py_and_nonzero. apply bool_decide_eq_true.
Qed.

(** A name that starts with the device prefix is never matched by the
    pattern as written: after its first character the pattern wants the
    letter e where the name has D. *)
Lemma device_prefix_not_matched (name : string) :
  re_match_items DEVICE_WINDOWS_PREFIX name = true ->
  re_match_items PARTIAL_PATH_REGEX name = false.
Proof.
  unfold DEVICE_WINDOWS_PREFIX, PARTIAL_PATH_REGEX.
  destruct name as [|c0 [|c1 rest]];
    cbn [re_match_items lits map app list_ascii_of_string re_item_matches].
  - discriminate.
  - rewrite andb_false_r. discriminate.
  - intros H. apply andb_true_iff in H as [_ H]. apply andb_true_iff in H as [H _].
    apply bool_decide_eq_true in H. subst c1.
    rewrite (bool_decide_eq_false_2 ("D"%char = "e"%char)) by discriminate.
    simpl. apply andb_false_r.
Qed.

(** C7, as the code has it.  For a partially resident ImageSectionObject
    whose bytes parse as a PE: when both fields of the Security
    directory entry are non-zero the verdict is
    [CONTENT_SIGNED_NOT_VERIFIED], whatever the certificate bytes are;
    when one of them is zero it is
    [PARTIAL_CONTENT_MAYBE_CATALOG_SIGNED] or
    [PARTIAL_CONTENT_NOT_SIGNED]. *)
Theorem partial_image_section_verdict (E : Env) (fo : FileObject) (pe : PE) :
  fo_type fo = ImageSectionObject ->
  pefile_PE E (read_file_memory E fo) = Ok pe ->
  (has_cert pe = true ->
   validate_partial_file E (Some fo) = Ok (VCode CONTENT_SIGNED_NOT_VERIFIED))
  /\ (has_cert pe = false ->
      validate_partial_file E (Some fo) = Ok (VCode PARTIAL_CONTENT_MAYBE_CATALOG_SIGNED)
      \/ validate_partial_file E (Some fo) = Ok (VCode PARTIAL_CONTENT_NOT_SIGNED)).
Proof.
  intros Hty Hpe. unfold validate_partial_file, validate_partial_body.
  rewrite Hpe. set (matched := re_match_items PARTIAL_PATH_REGEX (fo_name fo)).
  simpl. split; intros ->.
  - rewrite Hty. reflexivity.
  - destruct matched; auto.
Qed.

Lemma partial_image_section_verdict_witness :
  validate_partial_file Images.signed_memory_env (Some Images.partial_image_object)
    = Ok (VCode CONTENT_SIGNED_NOT_VERIFIED).
Proof.
  apply (proj1 (partial_image_section_verdict Images.signed_memory_env
                  Images.partial_image_object
                  (Images.parsed (slice_to Images.signed_on_disk 0x100) 0x100 43)
                  eq_refl ltac:(vm_compute; reflexivity))).
  reflexivity.
Defined.

(** The claim of C7 fails on a partially resident ImageSectionObject
    whose headers parse, with sixteen directory entries, and whose
    Security directory entry is zero: the verdict is
    [PARTIAL_CONTENT_NOT_SIGNED]. *)
Lemma partial_image_section_counterexample :
  fo_type Images.partial_image_object = ImageSectionObject
  /\ Sample.number_of_rva_and_sizes Images.unsigned_on_disk = 16
  /\ pefile_PE Images.unsigned_memory_env
       (read_file_memory Images.unsigned_memory_env Images.partial_image_object)
     = Ok (Images.parsed Images.unsigned_on_disk 0 0)
  /\ validate_partial_file Images.unsigned_memory_env (Some Images.partial_image_object)
     = Ok (VCode PARTIAL_CONTENT_NOT_SIGNED)
  /\ validate_partial_file Images.unsigned_memory_env (Some Images.partial_image_object)
     <> Ok (VCode CONTENT_SIGNED_NOT_VERIFIED).
Proof.
  split; [reflexivity|].
  split; [vm_compute; reflexivity|].
  split; [vm_compute; reflexivity|].
  split; [vm_compute; reflexivity|].
  vm_compute. discriminate.
Qed.

(** Whatever the kind, a partially resident object without certificate
    whose name starts with the device prefix gets
    [PARTIAL_CONTENT_NOT_SIGNED]. *)
Lemma partial_device_prefix_verdict (E : Env) (fo : FileObject) (pe : PE) :
  pefile_PE E (read_file_memory E fo) = Ok pe ->
  has_cert pe = false ->
  re_match_items DEVICE_WINDOWS_PREFIX (fo_name fo) = true ->
  validate_partial_file E (Some fo) = Ok (VCode PARTIAL_CONTENT_NOT_SIGNED).
Proof.
  intros Hpe Hcert Hname. unfold validate_partial_file, validate_partial_body.
  rewrite Hpe. rewrite (device_prefix_not_matched _ Hname).
  simpl. rewrite Hcert. reflexivity.
Qed.

(** C8.  A partially resident file object named
    [\Device\HarddiskVolume1\Windows\System32\calc.exe] whose bytes
    parse as a PE with a zero Security directory: the name has the
    device prefix, the pattern of the code does not match it, and the
    verdict is [PARTIAL_CONTENT_NOT_SIGNED] instead of
    [PARTIAL_CONTENT_MAYBE_CATALOG_SIGNED]. *)
Theorem partial_windows_path_not_recognised :
  re_match_items DEVICE_WINDOWS_PREFIX (fo_name Images.partial_data_object) = true
  /\ re_match_items PARTIAL_PATH_REGEX (fo_name Images.partial_data_object) = false
  /\ Sample.number_of_rva_and_sizes Images.unsigned_on_disk = 16
  /\ pefile_PE Images.unsigned_memory_env
       (read_file_memory Images.unsigned_memory_env Images.partial_data_object)
     = Ok (Images.parsed Images.unsigned_on_disk 0 0)
  /\ has_cert (Images.parsed Images.unsigned_on_disk 0 0) = false
  /\ validate_partial_file Images.unsigned_memory_env (Some Images.partial_data_object)
     = Ok (VCode PARTIAL_CONTENT_NOT_SIGNED).
Proof. repeat split; vm_compute; reflexivity. Qed.

(** A name without the prefix that the pattern as written does match. *)
Example partial_path_regex_matches_other :
  re_match_items PARTIAL_PATH_REGEX "XeviceHarddiskVolume1-indows" = true
  /\ re_match_items DEVICE_WINDOWS_PREFIX "XeviceHarddiskVolume1-indows" = false.
Proof. split; reflexivity. Qed.

(** ** The orchestrator *)

Section Calculate.
Context (E : Env).

Lemma cache_sound_insert (cache : gmap string verdict) (path : string) (r : verdict) :
  cache_sound E cache -> analyze E path = Ok r -> cache_sound E (<[path := r]> cache).
Proof.
  intros Hs Ha p r'. rewrite lookup_insert.
  case_decide as Hp; [|apply Hs]. subst p. by intros [= <-].
Qed.




Lemma cache_sound_empty : cache_sound E ∅.
Proof. intros p r. by rewrite lookup_empty. Qed.

End Calculate.


Example calculate_resident_unsigned :
  calculate (Images.resident_env Images.unsigned_on_disk) =
    {| yielded := [ {| y_name := "notepad.exe"; y_pid := 1234; y_result := VCode NOT_SIGNED |};
                    {| y_name := "notepad.exe"; y_pid := 5678; y_result := VCode NOT_SIGNED |} ];
       raised := None |}.
Proof. vm_compute. reflexivity. Qed.



(** ** Packing, unpacking and the ImageBase field *)

Lemma byte_of_Z_val (b : byte) : byte_of_Z (byte_val b) = b.
Proof.
  unfold byte_of_Z. pose proof (byte_val_range b) as Hr.
  rewrite Z.mod_small by lia. unfold byte_val. rewrite N2Z.id.
  by rewrite Byte.of_to_N.
Qed.

Lemma byte_val_of_Z (v : Z) : byte_val (byte_of_Z v) = v mod 256.
Proof.
  unfold byte_of_Z, byte_val.
  pose proof (Z.mod_pos_bound v 256 ltac:(lia)) as Hr.
  destruct (Byte.of_N (Z.to_N (v mod 256))) as [b|] eqn:Hb.
  - apply Byte.to_of_N in Hb. rewrite Hb. lia.
  - apply Byte.of_N_None_iff in Hb. lia.
Qed.

Lemma le_bytes_length (n : nat) (v : Z) : length (le_bytes n v) = n.
Proof. revert v. induction n as [|n IH]; intros v; simpl; [done | by rewrite IH]. Qed.

Lemma le_bytes_val (bs : bytes) : le_bytes (length bs) (le_val bs) = bs.
Proof.
  induction bs as [|b bs IH]; simpl; [done|].
  pose proof (byte_val_range b) as Hr.
  replace (byte_val b + 256 * le_val bs) with (byte_val b + le_val bs * 256) by lia.
  f_equal.
  - unfold byte_of_Z. rewrite Z_mod_plus_full, Z.mod_small by lia.
    fold (byte_of_Z (byte_val b)). rewrite <- (Z.mod_small (byte_val b) 256) at 1 by lia.
    apply byte_of_Z_val.
  - rewrite Z_div_plus_full, Z.div_small by lia. exact IH.
Qed.

Lemma le_val_bytes (n : nat) (v : Z) :
  0 <= v < 256 ^ Z.of_nat n -> le_val (le_bytes n v) = v.
Proof.
  revert v. induction n as [|n IH]; intros v Hv; simpl.
  - simpl in Hv. lia.
  - rewrite byte_val_of_Z. rewrite IH.
    + pose proof (Z.div_mod v 256 ltac:(lia)). lia.
    + rewrite Nat2Z.inj_succ, Z.pow_succ_r in Hv by lia.
      split; [apply Z.div_pos; lia | apply Z.div_lt_upper_bound; lia].
Qed.

Lemma le_val_bound (bs : bytes) : 0 <= le_val bs < 256 ^ Z.of_nat (length bs).
Proof.
  induction bs as [|b bs IH]; [simpl; lia|].
  cbn [le_val length]. rewrite Nat2Z.inj_succ, Z.pow_succ_r by lia.
  pose proof (byte_val_range b). lia.
Qed.

Lemma pack_dword_iff (v : Z) (bs : bytes) :
  pack_dword v = Ok bs <-> unpack_dword bs = Ok v.
Proof.
  unfold pack_dword, unpack_dword. split.
  - case_decide as Hv; [|discriminate]. intros Hp.
    assert (bs = le_bytes 4 v) as -> by congruence.
    rewrite decide_True by apply le_bytes_length. by rewrite le_val_bytes.
  - case_decide as Hl; [|discriminate]. intros [= <-].
    pose proof (le_val_bound bs) as Hb. rewrite Hl in Hb.
    rewrite decide_True by exact Hb. by rewrite <- Hl, le_bytes_val.
Qed.

Lemma pack_qword_iff (v : Z) (bs : bytes) :
  pack_qword v = Ok bs <-> unpack_qword bs = Ok v.
Proof.
  unfold pack_qword, unpack_qword. split.
  - case_decide as Hv; [|discriminate]. intros Hp.
    assert (bs = le_bytes 8 v) as -> by congruence.
    rewrite decide_True by apply le_bytes_length. by rewrite le_val_bytes.
  - case_decide as Hl; [|discriminate]. intros [= <-].
    pose proof (le_val_bound bs) as Hb. rewrite Hl in Hb.
    rewrite decide_True by exact Hb. by rewrite <- Hl, le_bytes_val.
Qed.

(** X1.  [pack_dword] and [unpack_dword] are inverse to each other:
    packing [v] gives the four bytes [bs] exactly when unpacking [bs]
    gives [v]; in particular a value outside [0, 2^32) cannot be packed
    and a string of another length cannot be unpacked.  The same holds
    for [pack_qword] and [unpack_qword] with eight bytes. *)
Theorem pack_unpack_inverse (v : Z) (bs : bytes) :
  (pack_dword v = Ok bs <-> unpack_dword bs = Ok v)
  /\ (pack_qword v = Ok bs <-> unpack_qword bs = Ok v).
Proof. split; [apply pack_dword_iff | apply pack_qword_iff]. Qed.

Lemma pack_unpack_inverse_witness :
  unpack_dword [x00; x00; x40; x00] = Ok 0x400000
  /\ pack_qword 0x180000000 = Ok [x00; x00; x00; x80; x01; x00; x00; x00].
Proof.
  split.
  - apply (proj1 (pack_unpack_inverse 0x400000 [x00; x00; x40; x00])). reflexivity.
  - apply (proj2 (pack_unpack_inverse 0x180000000
                    [x00; x00; x00; x80; x01; x00; x00; x00])). reflexivity.
Defined.

(** A field overwritten in place: the bytes before [lo], the new bytes
    [p], the bytes behind the field. *)
Lemma splice_lookup (c p : bytes) (lo : Z) (i : nat) :
  0 <= lo -> lo + Z.of_nat (length p) <= Z.of_nat (length c) ->
  (slice_to c lo ++ p ++ slice_from c (lo + Z.of_nat (length p))) !! i =
    if decide (Z.of_nat i < lo) then c !! i
    else if decide (Z.of_nat i < lo + Z.of_nat (length p)) then p !! (i - Z.to_nat lo)%nat
    else c !! i.
Proof.
  intros Hlo Hlen.
  rewrite slice_to_nonneg, slice_from_nonneg by lia.
  assert (Htake : length (take (Z.to_nat lo) c) = Z.to_nat lo)
    by (rewrite length_take; lia).
  case_decide as H1.
  - rewrite lookup_app_l by lia. rewrite lookup_take_lt by lia. done.
  - rewrite lookup_app_r by lia. rewrite Htake. case_decide as H2.
    + rewrite lookup_app_l by lia. done.
    + rewrite lookup_app_r by lia. rewrite lookup_drop. f_equal. lia.
Qed.

Lemma splice_length (c p : bytes) (lo : Z) :
  0 <= lo -> lo + Z.of_nat (length p) <= Z.of_nat (length c) ->
  length (slice_to c lo ++ p ++ slice_from c (lo + Z.of_nat (length p))) = length c.
Proof.
  intros Hlo Hlen. rewrite slice_to_nonneg, slice_from_nonneg by lia.
  rewrite !length_app, length_take, length_drop. lia.
Qed.

Lemma splice_field (c p : bytes) (lo : Z) :
  0 <= lo -> lo + Z.of_nat (length p) <= Z.of_nat (length c) ->
  slice (slice_to c lo ++ p ++ slice_from c (lo + Z.of_nat (length p)))
        lo (lo + Z.of_nat (length p)) = p.
Proof.
  intros Hlo Hlen. apply list_eq. intros i.
  rewrite slice_lookup by lia. case_decide as Hi.
  - rewrite splice_lookup by lia.
    rewrite decide_False, decide_True by lia. f_equal. lia.
  - symmetry. apply lookup_ge_None_2. lia.
Qed.

Section ImageBase.
Context (imagebase : Z) (content content' : bytes) (nt : Z).
Hypothesis Hnt : get_nt_header_addr content = Ok (Some nt).
Hypothesis Hdos : 0x10 <= nt.
Hypothesis Hlen : nt + 0x38 <= Z.of_nat (length content).
Hypothesis Hset : set_imagebase imagebase content = Ok (Some content').

(** What [set_imagebase] built: the field at [lo], of the width of the
    packed value, overwritten. *)
Local Lemma set_imagebase_splice :
  exists lo packed,
    nt + 0x30 <= lo /\ lo + Z.of_nat (length packed) = nt + 0x38
    /\ content' = slice_to content lo ++ packed
                  ++ slice_from content (lo + Z.of_nat (length packed))
    /\ ((is_32bits content = Ok true /\ lo = nt + 0x34 /\ unpack_dword packed = Ok imagebase)
        \/ (is_32bits content = Ok false /\ is_64bits content = Ok true
            /\ lo = nt + 0x30 /\ unpack_qword packed = Ok imagebase)).
Proof.
  pose proof Hset as H. unfold set_imagebase in H. rewrite Hnt in H. simpl in H.
  destruct (is_32bits content) as [[|]|e] eqn:H32; simpl in H; try discriminate.
  - destruct (pack_dword imagebase) as [packed|e] eqn:Hp; simpl in H; [|discriminate].
    injection H as <-.
    apply pack_dword_iff in Hp.
    assert (Hl : length packed = 4%nat)
      by (unfold unpack_dword in Hp; by case_decide).
    exists (nt + 0x34), packed. rewrite Hl.
    split; [lia|]. split; [lia|]. split; [reflexivity|]. left. auto.
  - destruct (is_64bits content) as [[|]|e] eqn:H64; simpl in H; try discriminate.
    destruct (pack_qword imagebase) as [packed|e] eqn:Hp; simpl in H; [|discriminate].
    injection H as <-.
    apply pack_qword_iff in Hp.
    assert (Hl : length packed = 8%nat)
      by (unfold unpack_qword in Hp; by case_decide).
    exists (nt + 0x30), packed. rewrite Hl.
    split; [lia|]. split; [lia|]. split; [reflexivity|]. right. auto.
Qed.

Local Lemma nt_nonneg : 0 <= nt.
Proof.
  apply get_nt_header_addr_Some in Hnt as (_ & Hl & _).
  by apply unpack_dword_nonneg in Hl.
Qed.

Lemma set_imagebase_outside (i : nat) :
  ~ (nt + 0x30 <= Z.of_nat i < nt + 0x38) -> content' !! i = content !! i.
Proof.
  destruct set_imagebase_splice as (lo & packed & Hlo & Hhi & -> & _).
  pose proof nt_nonneg. intros Hi.
  rewrite splice_lookup by lia. repeat case_decide; (done || lia).
Qed.

Lemma set_imagebase_length : length content' = length content.
Proof.
  destruct set_imagebase_splice as (lo & packed & Hlo & Hhi & -> & _).
  pose proof nt_nonneg. apply splice_length; lia.
Qed.

Lemma set_imagebase_headers :
  get_nt_header_addr content' = Ok (Some nt)
  /\ is_32bits content' = is_32bits content
  /\ is_64bits content' = is_64bits content.
Proof.
  pose proof nt_nonneg as Hnn.
  assert (Hag : agree_on content content' 0 (nt + 0x30))
    by (intros i Hi; apply set_imagebase_outside; lia).
  assert (Hnt' : get_nt_header_addr content' = Ok (Some nt)).
  { pose proof Hnt as H. apply get_nt_header_addr_Some in H as (Hmz & Hl & Hpe).
    apply get_nt_header_addr_Some.
    rewrite (slice_to_agree content content'), !(slice_agree content content');
      auto; try lia.
    all: eapply agree_on_sub; [apply Hag | lia | lia]. }
  split; [exact Hnt'|].
  unfold is_32bits, is_64bits. rewrite Hnt, Hnt'. simpl.
  rewrite !(slice_agree content content') by
    (lia || (eapply agree_on_sub; [apply Hag | lia | lia])).
  done.
Qed.

Lemma get_set_imagebase : get_imagebase content' = Ok (Some imagebase).
Proof.
  destruct set_imagebase_headers as (Hnt' & H32' & H64').
  destruct set_imagebase_splice as (lo & packed & Hlo & Hhi & Hc & Hcase).
  pose proof nt_nonneg as Hnn.
  assert (Hfield : slice content' lo (lo + Z.of_nat (length packed)) = packed)
    by (rewrite Hc; apply splice_field; lia).
  unfold get_imagebase. rewrite Hnt'. simpl. rewrite H32'.
  destruct Hcase as [(H32 & -> & Hp) | (H32 & H64 & -> & Hp)].
  - rewrite H32. simpl.
    replace (nt + 0x34 + 0x4) with (nt + 0x34 + Z.of_nat (length packed)) by lia.
    rewrite Hfield, Hp. reflexivity.
  - rewrite H32. simpl. rewrite H64', H64. simpl.
    replace (nt + 0x30 + 0x8) with (nt + 0x30 + Z.of_nat (length packed)) by lia.
    rewrite Hfield, Hp. reflexivity.
Qed.
End ImageBase.

(** X2.  On a buffer with MZ and PE signatures whose ImageBase field
    lies inside the buffer and behind the DOS header's [e_lfanew]
    ([e_lfanew] at least 0x10), a successful [set_imagebase] is read
    back by [get_imagebase]; it keeps the length of the buffer, the
    header offset and the PE32 / PE32+ reading, and changes no byte
    outside the eight bytes before offset [e_lfanew + 0x38]. *)
Theorem set_imagebase_round_trip (imagebase : Z) (content content' : bytes) (nt : Z) :
  get_nt_header_addr content = Ok (Some nt) ->
  0x10 <= nt ->
  nt + 0x38 <= Z.of_nat (length content) ->
  set_imagebase imagebase content = Ok (Some content') ->
  get_imagebase content' = Ok (Some imagebase)
  /\ length content' = length content
  /\ get_nt_header_addr content' = Ok (Some nt)
  /\ is_32bits content' = is_32bits content
  /\ (forall i : nat,
        ~ (nt + 0x30 <= Z.of_nat i < nt + 0x38) -> content' !! i = content !! i).
Proof.
  intros Hnt Hdos Hlen Hset.
  destruct (set_imagebase_headers imagebase content content' nt Hnt Hdos Hlen Hset)
    as (Hnt' & H32 & _).
  split; [eapply (get_set_imagebase imagebase content content' nt); eassumption|].
  split; [eapply (set_imagebase_length imagebase content content' nt); eassumption|].
  split; [done|]. split; [done|].
  intros i. eapply (set_imagebase_outside imagebase content content' nt); eassumption.
Qed.

Lemma set_imagebase_round_trip_witness :
  get_imagebase Images.signed_on_disk = Ok (Some 0x400000)
  /\ length Images.signed_on_disk = length Images.signed_in_memory.
Proof.
  destruct (set_imagebase_round_trip 0x400000 Images.signed_in_memory
              Images.signed_on_disk 0x40) as (Hget & Hlen & _).
  - reflexivity.
  - lia.
  - vm_compute. discriminate.
  - vm_compute. reflexivity.
  - split; assumption.
Defined.

(** The bound on [e_lfanew] is needed: in a header folded into the DOS
    header, [set_imagebase] overwrites [e_lfanew] and the result is no
    longer read as a PE. *)
Example set_imagebase_tiny_header :
  get_nt_header_addr tiny_header = Ok (Some 8)
  /\ get_imagebase tiny_header = Ok (Some 8)
  /\ (exists content', set_imagebase 0x400000 tiny_header = Ok (Some content')
                       /\ get_nt_header_addr content' = Ok None
                       /\ get_imagebase content' = Raise TypeError).
Proof.
  split; [reflexivity|]. split; [reflexivity|].
  eexists. split; [reflexivity|]. split; vm_compute; reflexivity.
Qed.

(** ** When the digest is computed, and what it covers *)

Lemma slice_length_full (data : bytes) (a : Z) (n : nat) :
  0 <= a -> (n > 0)%nat ->
  length (slice data a (a + Z.of_nat n)) = n <-> a + Z.of_nat n <= Z.of_nat (length data).
Proof.
  intros Ha Hn. rewrite slice_nonneg by lia.
  rewrite length_take, length_drop. lia.
Qed.

Lemma unpack_dword_slice (data : bytes) (a : Z) :
  0 <= a ->
  (a + 4 <= Z.of_nat (length data) ->
   unpack_dword (slice data a (a + 4)) = Ok (le_val (slice data a (a + 4))))
  /\ (Z.of_nat (length data) < a + 4 ->
      unpack_dword (slice data a (a + 4)) = Raise StructError).
Proof.
  intros Ha. pose proof (slice_length_full data a 4 Ha ltac:(lia)) as Hl.
  change (Z.of_nat 4) with 4 in Hl. unfold unpack_dword. split; intros H.
  - rewrite decide_True by (apply Hl; lia). done.
  - rewrite decide_False; [done|]. rewrite Hl. lia.
Qed.

Lemma get_nt_header_addr_raw (data : bytes) :
  let nt := le_val (slice data 0x3c 0x40) in
  (slice_to data 2 <> MZ -> get_nt_header_addr data = Ok None)
  /\ (slice_to data 2 = MZ -> Z.of_nat (length data) < 0x40 ->
      get_nt_header_addr data = Raise StructError)
  /\ (slice_to data 2 = MZ -> 0x40 <= Z.of_nat (length data) ->
      slice data nt (nt + 4) <> PE00 -> get_nt_header_addr data = Ok None)
  /\ (slice_to data 2 = MZ -> 0x40 <= Z.of_nat (length data) ->
      slice data nt (nt + 4) = PE00 -> get_nt_header_addr data = Ok (Some nt)).
Proof.
  intros nt. unfold get_nt_header_addr. change (0x3c + 0x04) with (0x3c + 4).
  destruct (unpack_dword_slice data 0x3c ltac:(lia)) as [Hok Herr].
  change (0x3c + 4) with 0x40 in *.
  split; [|split; [|split]].
  - intros H. by rewrite decide_False.
  - intros Hmz Hl. rewrite decide_True by done. rewrite Herr by lia. done.
  - intros Hmz Hl Hpe. rewrite decide_True by done. rewrite Hok by lia. simpl.
    by rewrite decide_False.
  - intros Hmz Hl Hpe. rewrite decide_True by done. rewrite Hok by lia. simpl.
    by rewrite decide_True.
Qed.

(** X3.  The outcome of [calculate_pe_digest], read off the bytes.  With
    [nt] the dword at 0x3c: no MZ, or no PE signature at [nt], is a
    TypeError; MZ on a buffer shorter than 0x40 bytes is a
    struct.error; a magic that is neither PE32 nor PE32+ is an
    UnboundLocalError; a buffer that ends before the end of the
    Security directory entry is a struct.error; in every other case a
    digest is returned. *)
Theorem calculate_pe_digest_outcome (E : Env) (a : hash_alg) (data : bytes) :
  let nt := le_val (slice data 0x3c 0x40) in
  let magic := slice data (nt + 0x18) (nt + 0x1a) in
  let header := slice_to data 2 = MZ /\ 0x40 <= Z.of_nat (length data)
                /\ slice data nt (nt + 4) = PE00 in
  (slice_to data 2 <> MZ -> calculate_pe_digest E (Some a) data = Raise TypeError)
  /\ (slice_to data 2 = MZ -> Z.of_nat (length data) < 0x40 ->
      calculate_pe_digest E (Some a) data = Raise StructError)
  /\ (slice_to data 2 = MZ -> 0x40 <= Z.of_nat (length data) ->
      slice data nt (nt + 4) <> PE00 ->
      calculate_pe_digest E (Some a) data = Raise TypeError)
  /\ (header -> security_entry_offset nt magic = None ->
      calculate_pe_digest E (Some a) data = Raise UnboundLocalError)
  /\ (forall ct, header -> security_entry_offset nt magic = Some ct ->
        Z.of_nat (length data) < ct + 8 ->
        calculate_pe_digest E (Some a) data = Raise StructError)
  /\ (forall ct, header -> security_entry_offset nt magic = Some ct ->
        ct + 8 <= Z.of_nat (length data) ->
        exists d, calculate_pe_digest E (Some a) data = Ok d).
Proof.
  intros nt magic header.
  destruct (get_nt_header_addr_raw data) as (Hn1 & Hn2 & Hn3 & Hn4). fold nt in Hn3, Hn4.
  assert (Hnn : 0 <= nt) by apply le_val_nonneg.
  assert (Hattr : forall ct, header -> security_entry_offset nt magic = Some ct ->
            get_nt_header_addr data = Ok (Some nt)
            /\ get_pe_certificate_attibutes data =
                 (va ← unpack_dword (slice data ct (ct + 4));
                  size ← unpack_dword (slice data (ct + 4) (ct + 8));
                  Ok (ct, va, size))).
  { intros ct (Hmz & Hl & Hpe) Hct. split; [by apply Hn4|].
    unfold get_pe_certificate_attibutes, is_32bits, is_64bits.
    rewrite Hn4 by done. simpl. replace (nt + 0x18 + 0x2) with (nt + 0x1a) by lia.
    fold magic. unfold security_entry_offset in Hct.
    case_decide as H32.
    - injection Hct as <-. rewrite bool_decide_eq_true_2 by done. simpl.
      replace (nt + 0x98 + 0x04) with (nt + 0x98 + 4) by lia.
      replace (nt + 0x98 + 0x08) with (nt + 0x98 + 8) by lia. reflexivity.
    - case_decide as H64; [|discriminate]. injection Hct as <-.
      rewrite bool_decide_eq_false_2, bool_decide_eq_true_2 by done. simpl.
      replace (nt + 0xa8 + 0x04) with (nt + 0xa8 + 4) by lia.
      replace (nt + 0xa8 + 0x08) with (nt + 0xa8 + 8) by lia. reflexivity. }
  assert (Hct0 : forall ct, security_entry_offset nt magic = Some ct -> 0 <= ct).
  { intros ct. unfold security_entry_offset. repeat case_decide; intros [= <-]; lia. }
  split; [|split; [|split; [|split; [|split]]]].
  - intros H. apply calculate_pe_digest_no_header. by apply Hn1.
  - intros Hmz Hl. unfold calculate_pe_digest, authenticode_data.
    rewrite Hn2 by done. reflexivity.
  - intros Hmz Hl Hpe. apply calculate_pe_digest_no_header. by apply Hn3.
  - intros (Hmz & Hl & Hpe) Hct. unfold security_entry_offset in Hct.
    case_decide as H32; [discriminate|]. case_decide as H64; [discriminate|].
    apply (calculate_pe_digest_other_magic E (Some a) data nt); auto.
  - intros ct Hh Hct Hl. destruct (Hattr ct Hh Hct) as [Hnt Hat].
    specialize (Hct0 ct Hct).
    unfold calculate_pe_digest, authenticode_data. rewrite Hnt. simpl. rewrite Hat.
    destruct (unpack_dword_slice data ct Hct0) as [Hok1 Herr1].
    destruct (unpack_dword_slice data (ct + 4) ltac:(lia)) as [_ Herr2].
    replace (ct + 4 + 4) with (ct + 8) in Herr2 by lia.
    destruct (decide (ct + 4 <= Z.of_nat (length data))).
    + rewrite Hok1 by lia. simpl. rewrite Herr2 by lia. reflexivity.
    + rewrite Herr1 by lia. reflexivity.
  - intros ct Hh Hct Hl. destruct (Hattr ct Hh Hct) as [Hnt Hat].
    specialize (Hct0 ct Hct).
    destruct (unpack_dword_slice data ct Hct0) as [Hok1 _].
    destruct (unpack_dword_slice data (ct + 4) ltac:(lia)) as [Hok2 _].
    replace (ct + 4 + 4) with (ct + 8) in Hok2 by lia.
    rewrite Hok1, Hok2 in Hat by lia. simpl in Hat.
    eexists. unfold calculate_pe_digest.
    erewrite authenticode_data_Ok by eassumption. reflexivity.
Qed.

Lemma calculate_pe_digest_outcome_witness :
  calculate_pe_digest Images.bare_env (Some sha1) [x4d; x5b] = Raise TypeError
  /\ calculate_pe_digest Images.bare_env (Some sha1) [x4d; x5a; x90; x00] = Raise StructError
  /\ calculate_pe_digest Images.bare_env (Some sha1) dos_stub = Raise TypeError
  /\ calculate_pe_digest Images.bare_env (Some sha1) rom_header = Raise UnboundLocalError
  /\ calculate_pe_digest Images.bare_env (Some sha1) truncated_header = Raise StructError
  /\ exists d, calculate_pe_digest Images.bare_env (Some sha1) Images.unsigned_on_disk = Ok d.
Proof.
  split; [|split; [|split; [|split; [|split]]]].
  - apply (proj1 (calculate_pe_digest_outcome Images.bare_env sha1 [x4d; x5b])).
    discriminate.
  - apply (proj1 (proj2 (calculate_pe_digest_outcome Images.bare_env sha1
                           [x4d; x5a; x90; x00]))); [reflexivity | simpl; lia].
  - apply (proj1 (proj2 (proj2 (calculate_pe_digest_outcome Images.bare_env sha1
                                  dos_stub)))); [reflexivity | simpl; lia | discriminate].
  - apply (proj1 (proj2 (proj2 (proj2 (calculate_pe_digest_outcome Images.bare_env sha1
                                         rom_header))))).
    + split; [reflexivity | split; [simpl; lia | reflexivity]].
    + reflexivity.
  - apply (proj1 (proj2 (proj2 (proj2 (proj2 (calculate_pe_digest_outcome
              Images.bare_env sha1 truncated_header))))) 0xd8).
    + split; [reflexivity | split; [simpl; lia | reflexivity]].
    + reflexivity.
    + simpl. lia.
  - apply (proj2 (proj2 (proj2 (proj2 (proj2 (calculate_pe_digest_outcome
              Images.bare_env sha1 Images.unsigned_on_disk))))) 0xd8).
    + split; [reflexivity | split; [simpl; lia | reflexivity]].
    + reflexivity.
    + simpl. lia.
Defined.

Lemma slice_length_eq (d d' : bytes) (a b : Z) :
  length d' = length d -> length (slice d' a b) = length (slice d a b).
Proof.
  intros Hl. unfold slice. rewrite !length_take, !length_drop, Hl. reflexivity.
Qed.

Lemma slice_eq_agree (d d' : bytes) (a b : Z) :
  0 <= a -> 0 <= b -> slice d' a b = slice d a b -> agree_on d d' a b.
Proof.
  intros Ha Hb Heq i Hi.
  pose proof (slice_lookup d a b (i - Z.to_nat a) Ha Hb) as H1.
  pose proof (slice_lookup d' a b (i - Z.to_nat a) Ha Hb) as H2.
  rewrite decide_True in H1, H2 by lia.
  replace (Z.to_nat (a + Z.of_nat (i - Z.to_nat a))) with i in H1, H2 by lia.
  rewrite <- H1, <- H2, Heq. reflexivity.
Qed.

Lemma slice_to_eq_agree (d d' : bytes) (b : Z) :
  0 <= b -> slice_to d' b = slice_to d b -> agree_on d d' 0 b.
Proof.
  intros Hb Heq i Hi. rewrite !slice_to_nonneg in Heq by done.
  rewrite <- (lookup_take_lt d (Z.to_nat b) i), <- (lookup_take_lt d' (Z.to_nat b) i) by lia.
  by rewrite Heq.
Qed.

Lemma slice_from_eq_agree (d d' : bytes) (a : Z) (i : nat) :
  0 <= a -> slice_from d' a = slice_from d a -> a <= Z.of_nat i -> d' !! i = d !! i.
Proof.
  intros Ha Heq Hi. rewrite !slice_from_nonneg in Heq by done.
  pose proof (lookup_drop d (Z.to_nat a) (i - Z.to_nat a)) as H1.
  pose proof (lookup_drop d' (Z.to_nat a) (i - Z.to_nat a)) as H2.
  replace (Z.to_nat a + (i - Z.to_nat a))%nat with i in H1, H2 by lia.
  rewrite <- H1, <- H2, Heq. reflexivity.
Qed.

Lemma slice_to_length_eq (d d' : bytes) (b : Z) :
  length d' = length d -> length (slice_to d' b) = length (slice_to d b).
Proof. intros Hl. unfold slice_to. rewrite !length_take, Hl. reflexivity. Qed.

Lemma authenticode_data_agree_iff (data data' : bytes) (nt ct va size : Z) :
  get_nt_header_addr data = Ok (Some nt) ->
  get_pe_certificate_attibutes data = Ok (ct, va, size) ->
  get_nt_header_addr data' = Ok (Some nt) ->
  get_pe_certificate_attibutes data' = Ok (ct, va, size) ->
  length data' = length data ->
  va = 0 \/ size = 0 \/ ct + 8 <= va ->
  (authenticode_data data' = authenticode_data data
   <-> forall i : nat, outside_excluded nt ct va size i -> data' !! i = data !! i).
Proof.
  intros Hnt Hattr Hnt' Hattr' Hlen Hplace.
  assert (Hb : 0 <= nt /\ 0 <= va /\ 0 <= size /\ nt + 0x98 <= ct).
  { pose proof Hnt as H. apply get_nt_header_addr_Some in H as (_ & Hl & _).
    apply unpack_dword_nonneg in Hl.
    pose proof Hattr as H.
    apply (get_pe_certificate_attibutes_Ok data nt) in H as (Hm & Hva & Hsz); [|done].
    apply unpack_dword_nonneg in Hva, Hsz. destruct Hm as [[_ ->]|[_ ->]]; lia. }
  destruct Hb as (Hnn & Hva & Hsz & Hct).
  rewrite (authenticode_data_Ok data nt ct va size Hnt Hattr).
  rewrite (authenticode_data_Ok data' nt ct va size Hnt' Hattr').
  unfold security_tail. split.
  - intros Heq. injection Heq as Heq.
    apply app_inj_1 in Heq as [HA Heq]; [|by apply slice_to_length_eq].
    apply app_inj_1 in Heq as [HB HT]; [|by apply slice_length_eq].
    apply slice_to_eq_agree in HA; [|lia].
    apply slice_eq_agree in HB; [|lia|lia].
    intros i (Hcs & Hent & Hcert).
    destruct (decide (Z.of_nat i < nt + 0x58)); [apply HA; lia|].
    destruct (decide (Z.of_nat i < ct)); [apply HB; lia|].
    case_decide as Hnz.
    + apply app_inj_1 in HT as [HC HD]; [|by apply slice_length_eq].
      apply slice_eq_agree in HC; [|lia|lia].
      destruct (decide (Z.of_nat i < va)); [apply HC; lia|].
      apply (slice_from_eq_agree data data' (va + size)); [lia | done | lia].
    + apply (slice_from_eq_agree data data' (ct + 8)); [lia | done | lia].
  - intros Hag. f_equal.
    rewrite (slice_to_agree data data') by (lia || (intros i Hi; apply Hag; repeat split; lia)).
    rewrite (slice_agree data data' (nt + 0x58 + 4) ct)
      by (lia || (intros i Hi; apply Hag; repeat split; lia)).
    do 2 f_equal. case_decide as Hnz.
    + f_equal.
      * apply slice_agree; [lia | lia |]. intros i Hi. apply Hag. repeat split; lia.
      * apply slice_from_agree; [lia|]. intros i Hi. apply Hag. repeat split; lia.
    + apply slice_from_agree; [lia|]. intros i Hi. apply Hag. repeat split; lia.
Qed.

(** X4.  For two buffers of the same length and the same header layout
    whose certificate blob, if any, lies behind the Security directory
    entry, the bytes that are hashed are equal exactly when the buffers
    agree at every position outside the CheckSum field, the Security
    directory entry and the certificate blob: the digest leaves out
    those regions and covers every other byte of the buffer. *)
Theorem authenticode_data_covers (data data' : bytes) (nt ct va size : Z) :
  get_nt_header_addr data = Ok (Some nt) ->
  get_pe_certificate_attibutes data = Ok (ct, va, size) ->
  get_nt_header_addr data' = Ok (Some nt) ->
  get_pe_certificate_attibutes data' = Ok (ct, va, size) ->
  length data' = length data ->
  va = 0 \/ size = 0 \/ ct + 8 <= va ->
  (authenticode_data data' = authenticode_data data
   <-> forall i : nat, outside_excluded nt ct va size i -> data' !! i = data !! i).
Proof. apply authenticode_data_agree_iff. Qed.

Lemma authenticode_data_covers_witness :
  authenticode_data Images.signed_on_disk_scrubbed = authenticode_data Images.signed_on_disk
  <-> forall i : nat, outside_excluded 0x40 0xd8 0x100 43 i ->
        Images.signed_on_disk_scrubbed !! i = Images.signed_on_disk !! i.
Proof.
  apply (authenticode_data_covers Images.signed_on_disk Images.signed_on_disk_scrubbed
           0x40 0xd8 0x100 43).
  - reflexivity.
  - reflexivity.
  - reflexivity.
  - reflexivity.
  - reflexivity.
  - right. right. lia.
Defined.

Lemma set_imagebase_attributes (imagebase : Z) (content content' : bytes)
    (nt ct va size : Z) :
  get_nt_header_addr content = Ok (Some nt) ->
  0x10 <= nt ->
  get_pe_certificate_attibutes content = Ok (ct, va, size) ->
  set_imagebase imagebase content = Ok (Some content') ->
  nt + 0x38 <= Z.of_nat (length content)
  /\ nt + 0x98 <= ct
  /\ get_pe_certificate_attibutes content' = Ok (ct, va, size).
Proof.
  intros Hnt Hdos Hattr Hset.
  pose proof Hattr as H.
  apply (get_pe_certificate_attibutes_Ok content nt) in H as (Hm & Hva & Hsz); [|done].
  assert (Hct : nt + 0x98 <= ct) by (destruct Hm as [[_ ->]|[_ ->]]; lia).
  assert (Hlen : nt + 0x38 <= Z.of_nat (length content)).
  { unfold unpack_dword in Hva. case_decide as Hl; [|discriminate].
    apply (slice_length_full content ct 4) in Hl; lia. }
  split; [done|]. split; [done|].
  destruct (set_imagebase_headers imagebase content content' nt Hnt Hdos Hlen Hset)
    as (Hnt' & _).
  assert (Hag : forall a b, 0 <= a -> 0 <= b ->
            (b <= nt + 0x30 \/ nt + 0x38 <= a) -> slice content' a b = slice content a b).
  { intros a b Ha Hb Hab. apply slice_agree; [done | done |].
    intros i Hi. apply (set_imagebase_outside imagebase content content' nt); auto. lia. }
  apply (get_pe_certificate_attibutes_Ok content' nt); [done|].
  rewrite !Hag by lia. auto.
Qed.

(** X5.  The digest pins the image base.  Of the images that
    [set_imagebase] builds from one buffer, two are hashed over the
    same bytes exactly when they were given the same base: the
    ImageBase field lies outside the three regions that the digest
    leaves out. *)
Theorem digest_input_pins_imagebase (base1 base2 : Z) (content image1 image2 : bytes)
    (nt ct va size : Z) :
  get_nt_header_addr content = Ok (Some nt) ->
  0x10 <= nt ->
  get_pe_certificate_attibutes content = Ok (ct, va, size) ->
  va = 0 \/ size = 0 \/ ct + 8 <= va ->
  set_imagebase base1 content = Ok (Some image1) ->
  set_imagebase base2 content = Ok (Some image2) ->
  (authenticode_data image1 = authenticode_data image2 <-> base1 = base2).
Proof.
  intros Hnt Hdos Hattr Hplace Hset1 Hset2. split; [|intros ->; congruence].
  destruct (set_imagebase_attributes base1 content image1 nt ct va size)
    as (Hlen & Hct & Hattr1); [done..|].
  destruct (set_imagebase_attributes base2 content image2 nt ct va size)
    as (_ & _ & Hattr2); [done..|].
  destruct (set_imagebase_headers base1 content image1 nt Hnt Hdos Hlen Hset1)
    as (Hnt1 & H32a & H64a).
  destruct (set_imagebase_headers base2 content image2 nt Hnt Hdos Hlen Hset2)
    as (Hnt2 & H32b & H64b).
  pose proof (set_imagebase_length base1 content image1 nt Hnt Hdos Hlen Hset1) as Hl1.
  pose proof (set_imagebase_length base2 content image2 nt Hnt Hdos Hlen Hset2) as Hl2.
  pose proof (get_set_imagebase base1 content image1 nt Hnt Hdos Hlen Hset1) as Hg1.
  pose proof (get_set_imagebase base2 content image2 nt Hnt Hdos Hlen Hset2) as Hg2.
  assert (Hnn : 0 <= nt).
  { apply get_nt_header_addr_Some in Hnt as (_ & Hl & _).
    by apply unpack_dword_nonneg in Hl. }
  intros Heq.
  pose proof (proj1 (authenticode_data_agree_iff image2 image1 nt ct va size
                       Hnt2 Hattr2 Hnt1 Hattr1 ltac:(congruence) Hplace) Heq) as Hag.
  clear Heq. rename Hag into Heq.
  assert (Hfield : forall a b, nt + 0x30 <= a -> 0 <= b <= nt + 0x38 ->
            slice image1 a b = slice image2 a b).
  { intros a b Ha Hb. apply slice_agree; [lia | lia |].
    intros i Hi. apply Heq. unfold outside_excluded. lia. }
  assert (Hsame : get_imagebase image1 = get_imagebase image2).
  { unfold get_imagebase. rewrite Hnt1, Hnt2, H32a, H32b, H64a, H64b. simpl.
    by rewrite !Hfield by lia. }
  congruence.
Qed.

Lemma digest_input_pins_imagebase_witness :
  authenticode_data Images.signed_on_disk
  = authenticode_data (Images.signed_image 0x10000000 Images.signed_check Images.cert_sha1)
  <-> 0x400000 = 0x10000000.
Proof.
  apply (digest_input_pins_imagebase 0x400000 0x10000000 Images.signed_in_memory
           Images.signed_on_disk (Images.signed_image 0x10000000 Images.signed_check Images.cert_sha1)
           0x40 0xd8 0x100 43).
  - reflexivity.
  - lia.
  - reflexivity.
  - right. right. lia.
  - vm_compute. reflexivity.
  - vm_compute. reflexivity.
Defined.

(** ** What a match of the pattern is *)

Lemma match_tail_Some (s : bytes) (h : byte) (rest : bytes) :
  match_tail s = Some (h, rest) <-> s = [x05; x00; x04; h] ++ rest /\ dot h = true.
Proof.
  unfold match_tail. split.
  - destruct s as [|b5 [|b0 [|b4 [|h' rest']]]]; try discriminate.
    destruct (bool_decide (b5 = x05)) eqn:H5; [|discriminate].
    destruct (bool_decide (b0 = x00)) eqn:H0; [|discriminate].
    destruct (bool_decide (b4 = x04)) eqn:H4; [|discriminate].
    destruct (dot h') eqn:Hd; [|discriminate].
    apply bool_decide_eq_true in H5, H0, H4. subst. simpl. intros [= <- <-]. auto.
  - intros [-> Hd]. simpl. rewrite Hd. reflexivity.
Qed.

Lemma match_oid_Some (k : nat) (s : bytes) (m : re_match) :
  match_oid k s = Some m <->
  s = oid_algorithm m ++ [x05; x00; x04; hash_size m] ++ after_match m
  /\ length (oid_algorithm m) = k
  /\ forallb dot (oid_algorithm m) = true
  /\ dot (hash_size m) = true
  /\ match_len m = (6 + k + 4)%nat.
Proof.
  unfold match_oid. split.
  - destruct (bool_decide (length (take k s) = k)) eqn:Hl; [|discriminate].
    destruct (forallb dot (take k s)) eqn:Hd; [|discriminate]. simpl.
    destruct (match_tail (drop k s)) as [[h rest]|] eqn:Ht; [|discriminate].
    intros [= <-]. simpl. apply bool_decide_eq_true in Hl.
    apply match_tail_Some in Ht as [Ht Hh].
    repeat split; auto. rewrite <- (take_drop k s) at 1. f_equal. exact Ht.
  - destruct m as [oid h len rest]. simpl. intros (-> & <- & Hd & Hh & ->).
    rewrite take_app_length, drop_app_length.
    rewrite bool_decide_eq_true_2 by done. rewrite Hd. simpl. rewrite Hh. reflexivity.
Qed.

Lemma match_oid_greedy_Some (s : bytes) (m : re_match) :
  match_oid_greedy s = Some m ->
  exists k : nat, (5 <= k <= 9)%nat /\ match_oid k s = Some m.
Proof.
  unfold match_oid_greedy.
  destruct (match_oid 9 s) eqn:H9; [intros [= <-]; exists 9%nat; split; [lia|done]|].
  destruct (match_oid 8 s) eqn:H8; [intros [= <-]; exists 8%nat; split; [lia|done]|].
  destruct (match_oid 7 s) eqn:H7; [intros [= <-]; exists 7%nat; split; [lia|done]|].
  destruct (match_oid 6 s) eqn:H6; [intros [= <-]; exists 6%nat; split; [lia|done]|].
  intros H5. exists 5%nat. split; [lia|done].
Qed.

(** A match anchored at the head of [s]: [s] starts with the bytes of
    the pattern, the OID group has 5 to 9 bytes, and no byte standing
    for a dot is a newline. *)
Lemma match_here_Some (s : bytes) (m : re_match) :
  match_here s = Some m ->
  exists l1 l2 l3,
    s = matched_bytes l1 l2 l3 (oid_algorithm m) (hash_size m) ++ after_match m
    /\ (5 <= length (oid_algorithm m) <= 9)%nat
    /\ match_len m = (10 + length (oid_algorithm m))%nat
    /\ forallb dot ([l1; l2; l3] ++ oid_algorithm m ++ [hash_size m]) = true.
Proof.
  unfold match_here.
  destruct s as [|t1 [|l1 [|t2 [|l2 [|t3 [|l3 s']]]]]]; try discriminate.
  destruct (bool_decide (t1 = x30)) eqn:H1; [|discriminate].
  destruct (dot l1) eqn:Hl1; [|discriminate].
  destruct (bool_decide (t2 = x30)) eqn:H2; [|discriminate].
  destruct (dot l2) eqn:Hl2; [|discriminate].
  destruct (bool_decide (t3 = x06)) eqn:H3; [|discriminate].
  destruct (dot l3) eqn:Hl3; [|discriminate]. simpl.
  apply bool_decide_eq_true in H1, H2, H3. subst.
  intros H. apply match_oid_greedy_Some in H as (k & Hk & H).
  apply match_oid_Some in H as (-> & Hlen & Hd & Hh & Hml).
  exists l1, l2, l3. unfold matched_bytes. rewrite Hlen.
  split; [by rewrite <- !app_assoc|]. split; [lia|]. split; [lia|].
  simpl. rewrite Hl1, Hl2, Hl3. simpl. rewrite forallb_app, Hd. simpl. by rewrite Hh.
Qed.

(** [search] returns the match at the leftmost position that has one. *)
Lemma regex_search_Some (s : bytes) (m : re_match) :
  regex_search s = Some m <->
  exists i : nat,
    match_here (drop i s) = Some m
    /\ forall j : nat, (j < i)%nat -> match_here (drop j s) = None.
Proof.
  split.
  - induction s as [|b s IH].
    + simpl. discriminate.
    + cbn [regex_search]. destruct (match_here (b :: s)) as [m'|] eqn:Hh.
      * intros [= <-]. exists 0%nat. split; [done|]. intros j Hj. lia.
      * intros H. destruct (IH H) as (i & Hi & Hlt). exists (S i). split; [done|].
        intros [|j] Hj; [done|]. apply Hlt. lia.
  - intros (i & Hi & Hlt). revert s Hi Hlt. induction i as [|i IH]; intros s Hi Hlt.
    + rewrite drop_0 in Hi. destruct s; cbn [regex_search]; by rewrite Hi.
    + destruct s as [|b s]; [by rewrite drop_nil in Hi|].
      pose proof (Hlt 0%nat ltac:(lia)) as H0. rewrite drop_0 in H0.
      cbn [regex_search]. rewrite H0.
      apply IH; [done|]. intros j Hj. apply (Hlt (S j)). lia.
Qed.

Lemma regex_search_None (s : bytes) :
  regex_search s = None <-> forall j : nat, match_here (drop j s) = None.
Proof.
  split.
  - induction s as [|b s IH]; intros H j.
    + by rewrite drop_nil.
    + cbn [regex_search] in H. destruct (match_here (b :: s)) eqn:Hh; [discriminate|].
      destruct j as [|j]; [done|]. by apply IH.
  - intros H. destruct (regex_search s) as [m|] eqn:Hs; [|done].
    apply regex_search_Some in Hs as (i & Hi & _). by rewrite H in Hi.
Qed.

(** X6.  When [get_digest_from_signature] names an algorithm, the blob
    contains, at the leftmost place where the pattern fits, two SEQUENCE
    headers, an OBJECT IDENTIFIER header, the OID of that algorithm,
    NULL parameters and an OCTET STRING header with length byte [h];
    the digest returned is made of the [h] bytes that follow, or of
    what is left of the blob when it is shorter. *)
Theorem get_digest_from_signature_sound (signature : bytes) (a : hash_alg)
    (hash_file : py_hash) :
  get_digest_from_signature signature = DigestPair (Some a) hash_file ->
  exists pre l1 l2 l3 h rest,
    signature = pre ++ matched_bytes l1 l2 l3 (OID_of a) h ++ rest
    /\ hash_file = HashBytes (take (Z.to_nat (byte_val h)) rest)
    /\ forall j : nat, (j < length pre)%nat -> match_here (drop j signature) = None.
Proof.
  unfold get_digest_from_signature.
  destruct (regex_search signature) as [m|] eqn:Hs; [|discriminate].
  apply regex_search_Some in Hs as (i & Hi & Hleft).
  apply match_here_Some in Hi as (l1 & l2 & l3 & Hdrop & _ & _ & _).
  assert (Hlen : (i <= length signature)%nat).
  { destruct (decide (i <= length signature)%nat); [done|].
    rewrite drop_ge in Hdrop by lia. destruct (oid_algorithm m); discriminate. }
  assert (Hsig : signature = take i signature
                   ++ matched_bytes l1 l2 l3 (oid_algorithm m) (hash_size m)
                   ++ after_match m)
    by (rewrite <- Hdrop; by rewrite take_drop).
  assert (Hdigest : slice (after_match m) 0 (byte_val (hash_size m))
                    = take (Z.to_nat (byte_val (hash_size m))) (after_match m)).
  { pose proof (byte_val_range (hash_size m)).
    rewrite slice_nonneg by lia. rewrite drop_0. f_equal. lia. }
  intros H.
  assert (Hoid : oid_algorithm m = OID_of a
                 /\ hash_file = HashBytes (slice (after_match m) 0 (byte_val (hash_size m)))).
  { repeat case_decide; try discriminate; injection H as <- <-; auto. }
  destruct Hoid as [Hoid ->]. rewrite Hoid in Hsig.
  exists (take i signature), l1, l2, l3, (hash_size m), (after_match m).
  split; [exact Hsig|]. split; [by rewrite Hdigest|].
  intros j Hj. apply Hleft. rewrite length_take in Hj. lia.
Qed.

Lemma get_digest_from_signature_sound_witness :
  exists pre l1 l2 l3 h rest,
    Images.cert_sha1 = pre ++ matched_bytes l1 l2 l3 (OID_of sha1) h ++ rest
    /\ HashBytes (replicate 20 x11) = HashBytes (take (Z.to_nat (byte_val h)) rest)
    /\ forall j : nat, (j < length pre)%nat -> match_here (drop j Images.cert_sha1) = None.
Proof.
  apply (get_digest_from_signature_sound Images.cert_sha1 sha1
           (HashBytes (replicate 20 x11))).
  reflexivity.
Defined.

(** A prefix in which no match begins is passed over by [search]. *)
Lemma regex_search_skip (pre s : bytes) :
  (forall j : nat, (j < length pre)%nat -> match_here (drop j (pre ++ s)) = None) ->
  regex_search (pre ++ s) = regex_search s.
Proof.
  induction pre as [|b pre IH]; intros H; [done|].
  cbn [app regex_search].
  pose proof (H 0%nat ltac:(simpl; lia)) as H0. rewrite drop_0 in H0.
  cbn [app] in H0. rewrite H0. apply IH. intros j Hj. apply (H (S j)). simpl. lia.
Qed.

(** The length bytes of a DigestInfo with a digest of the length of
    its algorithm. *)
Lemma digest_info_bytes (a : hash_alg) (d : bytes) :
  length d = digest_length a ->
  digest_info a d =
    match a with
    | md5 => matched_bytes x20 x0c x08 OID_md5 x10
    | sha1 => matched_bytes x21 x09 x05 OID_sha1 x14
    | sha256 => matched_bytes x31 x0d x09 OID_sha256 x20
    end ++ d.
Proof.
  intros Hlen. unfold digest_info. rewrite !length_app, !length_cons, Hlen.
  destruct a; reflexivity.
Qed.

(** What [match_here] finds at the head of a DigestInfo. *)
Lemma match_here_digest_info (a : hash_alg) (d rest : bytes) :
  length d = digest_length a ->
  match_here (digest_info a d ++ rest) =
    if bool_decide (a = sha1) && bool_decide (take 3 d = [x05; x00; x04])
       && bool_decide (d !! 3%nat <> Some x0a)
    then Some {| oid_algorithm := OID_sha1 ++ [x05; x00; x04; x14];
                 hash_size := default x00 (d !! 3%nat);
                 match_len := 19;
                 after_match := drop 4 d ++ rest |}
    else Some {| oid_algorithm := OID_of a;
                 hash_size := byte_of_Z (Z.of_nat (digest_length a));
                 match_len := 10 + length (OID_of a);
                 after_match := d ++ rest |}.
Proof.
  intros Hlen. rewrite (digest_info_bytes a d Hlen). destruct a.
  - (* md5: eight bytes of OID; nine dots would need 00 04 10 to be 05 00 04 *)
    destruct d as [|d0 d]; [discriminate|]. reflexivity.
  - (* sha1: five bytes of OID; nine dots swallow 05 00 04 14 *)
    destruct d as [|d0 [|d1 [|d2 [|d3 d]]]]; try discriminate.
    cbn [take lookup list_lookup default].
    unfold match_here, match_oid_greedy, match_oid, match_tail, matched_bytes. simpl.
    destruct (decide (d0 = x05)) as [->|H0];
      [|rewrite (bool_decide_eq_false_2 (d0 = x05)) by done;
        rewrite (bool_decide_eq_false_2 (_ = [x05; x00; x04])) by congruence;
        reflexivity].
    destruct (decide (d1 = x00)) as [->|H1];
      [|rewrite (bool_decide_eq_false_2 (d1 = x00)) by done;
        rewrite (bool_decide_eq_false_2 (_ = [x05; x00; x04])) by congruence;
        reflexivity].
    destruct (decide (d2 = x04)) as [->|H2];
      [|rewrite (bool_decide_eq_false_2 (d2 = x04)) by done;
        rewrite (bool_decide_eq_false_2 (_ = [x05; x00; x04])) by congruence;
        reflexivity].
    rewrite !bool_decide_eq_true_2 by done. simpl. unfold dot.
    destruct (decide (d3 = x0a)) as [->|H3].
    + rewrite (bool_decide_eq_false_2 (Some x0a <> Some x0a)) by tauto. reflexivity.
    + rewrite (bool_decide_eq_false_2 (d3 = x0a)) by done.
      rewrite (bool_decide_eq_true_2 (Some d3 <> Some x0a)) by congruence.
      reflexivity.
  - (* sha256: nine bytes of OID *)
    reflexivity.
Qed.

Lemma regex_search_here (s : bytes) (m : re_match) :
  match_here s = Some m -> regex_search s = Some m.
Proof. intros H. destruct s; cbn [regex_search]; by rewrite H. Qed.

(** X7.  Encoding and extracting.  On a blob that holds the DER
    DigestInfo of an algorithm and a digest of that algorithm's length,
    with no match of the pattern beginning before it,
    [get_digest_from_signature] returns that algorithm and that digest,
    with one exception: for a SHA-1 digest that begins with the bytes
    05 00 04 followed by anything but a newline, the greedy OID group
    takes in the NULL and the OCTET STRING header, the OID is not
    recognised and the function returns a bare [None]. *)
Theorem digest_info_round_trip (a : hash_alg) (d pre rest : bytes) :
  length d = digest_length a ->
  (forall j : nat, (j < length pre)%nat ->
     match_here (drop j (pre ++ digest_info a d ++ rest)) = None) ->
  (a = sha1 /\ take 3 d = [x05; x00; x04] /\ d !! 3%nat <> Some x0a ->
   get_digest_from_signature (pre ++ digest_info a d ++ rest) = DigestNone)
  /\ (~ (a = sha1 /\ take 3 d = [x05; x00; x04] /\ d !! 3%nat <> Some x0a) ->
      get_digest_from_signature (pre ++ digest_info a d ++ rest)
        = DigestPair (Some a) (HashBytes d)).
Proof.
  intros Hlen Hpre. unfold get_digest_from_signature.
  rewrite (regex_search_skip pre _ Hpre).
  pose proof (match_here_digest_info a d rest Hlen) as Hm.
  split.
  - intros (-> & H3 & Hnl).
    rewrite !bool_decide_eq_true_2 in Hm by done.
    rewrite (regex_search_here _ _ Hm). reflexivity.
  - intros Hno.
    assert (Hc : bool_decide (a = sha1) && bool_decide (take 3 d = [x05; x00; x04])
                 && bool_decide (d !! 3%nat <> Some x0a) = false).
    { apply not_true_is_false. intros Hc.
      apply andb_true_iff in Hc as [Hc H3]. apply andb_true_iff in Hc as [H1 H2].
      apply bool_decide_eq_true in H1, H2, H3. tauto. }
    rewrite Hc in Hm. rewrite (regex_search_here _ _ Hm).
    cbn [oid_algorithm hash_size after_match].
    assert (Hd : slice (d ++ rest) 0 (byte_val (byte_of_Z (Z.of_nat (digest_length a)))) = d).
    { rewrite byte_val_of_Z. rewrite <- Hlen.
      assert (Hsmall : Z.of_nat (length d) mod 256 = Z.of_nat (length d))
        by (apply Z.mod_small; rewrite Hlen; destruct a; simpl; lia).
      rewrite Hsmall, slice_nonneg by lia. rewrite drop_0.
      replace (Z.to_nat (Z.of_nat (length d) - 0)) with (length d) by lia.
      by rewrite take_app_length. }
    rewrite Hd. destruct a; reflexivity.
Qed.

Lemma digest_info_round_trip_witness :
  get_digest_from_signature
    ([x2b; x00; x00; x00; x00; x02; x02; x00]
     ++ digest_info sha1 ([x05; x00; x04; x77] ++ replicate 16 x11) ++ []) = DigestNone
  /\ get_digest_from_signature
       ([x2b; x00; x00; x00; x00; x02; x02; x00] ++ digest_info sha1 (replicate 20 x11) ++ [])
     = DigestPair (Some sha1) (HashBytes (replicate 20 x11)).
Proof.
  split.
  - apply (proj1 (digest_info_round_trip sha1 ([x05; x00; x04; x77] ++ replicate 16 x11)
                    [x2b; x00; x00; x00; x00; x02; x02; x00] [] eq_refl
                    ltac:(intros j Hj; do 8 (destruct j as [|j]; [reflexivity|]);
                          simpl in Hj; lia))).
    split; [reflexivity|]. split; [reflexivity | discriminate].
  - apply (proj2 (digest_info_round_trip sha1 (replicate 20 x11)
                    [x2b; x00; x00; x00; x00; x02; x02; x00] [] eq_refl
                    ltac:(intros j Hj; do 8 (destruct j as [|j]; [reflexivity|]);
                          simpl in Hj; lia))).
    intros (_ & H & _). discriminate H.
Defined.

(** ** The catalog index *)

Lemma regex_finditer_head (s : bytes) : head (regex_finditer s) = regex_search s.
Proof.
  unfold regex_finditer. induction s as [|b s IH]; [reflexivity|].
  cbn [regex_finditer_from regex_search].
  destruct (match_here (b :: s)); [reflexivity | exact IH].
Qed.

Lemma regex_finditer_from_sound (s : bytes) (skip : nat) (m : re_match) :
  m ∈ regex_finditer_from skip s -> exists i : nat, match_here (drop i s) = Some m.
Proof.
  revert skip. induction s as [|b s IH]; intros skip Hin.
  - by apply not_elem_of_nil in Hin.
  - cbn [regex_finditer_from] in Hin. destruct skip as [|k].
    + destruct (match_here (b :: s)) as [m'|] eqn:Hh.
      * apply elem_of_cons in Hin as [-> | Hin]; [by exists 0%nat|].
        destruct (IH _ Hin) as [i Hi]. by exists (S i).
      * destruct (IH _ Hin) as [i Hi]. by exists (S i).
    + destruct (IH _ Hin) as [i Hi]. by exists (S i).
Qed.

Lemma is_in_catalog_true (E : Env) (digest : bytes) :
  is_in_catalog E digest = true <->
  exists data m, data ∈ catalog_files E /\ m ∈ regex_finditer data
                 /\ digest = slice (after_match m) 0 (byte_val (hash_size m)).
Proof.
  unfold is_in_catalog. rewrite existsb_exists. split.
  - intros (data & Hd & H). apply existsb_exists in H as (m & Hm & H).
    apply bool_decide_eq_true in H. exists data, m.
    rewrite !list_elem_of_In. auto.
  - intros (data & m & Hd & Hm & H). exists data.
    rewrite <- list_elem_of_In. split; [done|]. apply existsb_exists. exists m.
    rewrite <- list_elem_of_In. split; [done|]. by apply bool_decide_eq_true.
Qed.

(** X8.  A catalog hit is a literal occurrence: when [is_in_catalog]
    answers yes for a digest, some catalog file contains the bytes of
    the pattern (with an OID group of 5 to 9 bytes, whatever the
    algorithm) followed by that digest, the digest being the [h] bytes
    behind the OCTET STRING header or what is left of the file. *)
Theorem is_in_catalog_sound (E : Env) (digest : bytes) :
  is_in_catalog E digest = true ->
  exists data pre l1 l2 l3 oid h rest,
    data ∈ catalog_files E
    /\ data = pre ++ matched_bytes l1 l2 l3 oid h ++ rest
    /\ (5 <= length oid <= 9)%nat
    /\ digest = take (Z.to_nat (byte_val h)) rest.
Proof.
  intros H. apply is_in_catalog_true in H as (data & m & Hd & Hm & ->).
  apply regex_finditer_from_sound in Hm as [i Hi].
  apply match_here_Some in Hi as (l1 & l2 & l3 & Hdrop & Hoid & _ & _).
  assert (Hlen : (i <= length data)%nat).
  { destruct (decide (i <= length data)%nat); [done|].
    rewrite drop_ge in Hdrop by lia. destruct (oid_algorithm m); discriminate. }
  exists data, (take i data), l1, l2, l3, (oid_algorithm m), (hash_size m), (after_match m).
  split; [done|]. split; [rewrite <- Hdrop; by rewrite take_drop|]. split; [done|].
  pose proof (byte_val_range (hash_size m)).
  rewrite slice_nonneg by lia. rewrite drop_0. f_equal. lia.
Qed.

Lemma is_in_catalog_sound_witness :
  exists data pre l1 l2 l3 oid h rest,
    data ∈ catalog_files cert_catalog_env
    /\ data = pre ++ matched_bytes l1 l2 l3 oid h ++ rest
    /\ (5 <= length oid <= 9)%nat
    /\ replicate 20 x11 = take (Z.to_nat (byte_val h)) rest.
Proof.
  apply (is_in_catalog_sound cert_catalog_env). vm_compute. reflexivity.
Defined.

(** X9.  The digest that [get_digest_from_signature] extracts from a
    blob is found by [is_in_catalog] in every catalog directory that
    holds that blob as a file: the extractor and the catalog index read
    the first match of the pattern in the same way. *)
Theorem catalog_lists_extracted_digest (E : Env) (signature : bytes)
    (algorithm : option hash_alg) (digest : bytes) :
  get_digest_from_signature signature = DigestPair algorithm (HashBytes digest) ->
  signature ∈ catalog_files E ->
  is_in_catalog E digest = true.
Proof.
  intros Hsig Hin. apply is_in_catalog_true.
  unfold get_digest_from_signature in Hsig.
  destruct (regex_search signature) as [m|] eqn:Hs; [|discriminate].
  exists signature, m. split; [done|]. split.
  - pose proof (regex_finditer_head signature) as Hh. rewrite Hs in Hh.
    destruct (regex_finditer signature) as [|m' ms]; [discriminate|].
    injection Hh as ->. left.
  - repeat case_decide; try discriminate; by injection Hsig as _ <-.
Qed.

Lemma catalog_lists_extracted_digest_witness :
  is_in_catalog cert_catalog_env (replicate 20 x11) = true.
Proof.
  apply (catalog_lists_extracted_digest cert_catalog_env
           Images.cert_sha1 (Some sha1) (replicate 20 x11)).
  - reflexivity.
  - right. left.
Defined.

(** X10.  The answer of [is_in_catalog] does not depend on the order in
    which the catalog files are read, and a hit stays a hit when files
    are added to the directory. *)
Theorem is_in_catalog_order (E E' : Env) (digest : bytes) :
  (catalog_files E ≡ₚ catalog_files E' ->
   is_in_catalog E digest = is_in_catalog E' digest)
  /\ (catalog_files E ⊆ catalog_files E' ->
      is_in_catalog E digest = true -> is_in_catalog E' digest = true).
Proof.
  assert (Hmono : forall F F' : Env, catalog_files F ⊆ catalog_files F' ->
            is_in_catalog F digest = true -> is_in_catalog F' digest = true).
  { intros F F' Hsub H. apply is_in_catalog_true in H as (data & m & Hd & Hm).
    apply is_in_catalog_true. exists data, m. split; [by apply Hsub | done]. }
  split; [|apply Hmono].
  intros Hperm.
  destruct (is_in_catalog E digest) eqn:H1; destruct (is_in_catalog E' digest) eqn:H2;
    try reflexivity.
  - apply (Hmono E E') in H1; [congruence|]. intros x. by rewrite Hperm.
  - apply (Hmono E' E) in H2; [congruence|]. intros x. by rewrite Hperm.
Qed.

Lemma is_in_catalog_order_witness :
  is_in_catalog cert_catalog_env (replicate 20 x11)
  = is_in_catalog (Sample.env [] [Images.cert_sha1; Images.cert_garbage] [] [] (fun _ => []))
                  (replicate 20 x11).
Proof.
  apply (proj1 (is_in_catalog_order cert_catalog_env
                  (Sample.env [] [Images.cert_sha1; Images.cert_garbage] [] [] (fun _ => []))
                  (replicate 20 x11))).
  apply Permutation_swap.
Defined.

(** ** The page assembler: length and contents *)

Lemma write_lookup_inside (d : bytes) (f : BytesIO) (i : nat) :
  (bio_pos f <= i < bio_pos f + length d)%nat ->
  bio_buf (write d f) !! i = d !! (i - bio_pos f)%nat.
Proof.
  intros Hi. unfold write. simpl.
  set (padded := bio_buf f ++ replicate (bio_pos f - length (bio_buf f)) x00).
  assert (Hlen : (bio_pos f <= length padded)%nat)
    by (unfold padded; rewrite length_app, length_replicate; lia).
  rewrite lookup_app_r by (rewrite length_take; lia).
  rewrite length_take. replace (bio_pos f `min` length padded)%nat with (bio_pos f) by lia.
  rewrite lookup_app_l by lia. reflexivity.
Qed.

Lemma write_lookup_outside (d : bytes) (f : BytesIO) (i : nat) :
  ~ (bio_pos f <= i < bio_pos f + length d)%nat ->
  (i < length (bio_buf f))%nat ->
  bio_buf (write d f) !! i = bio_buf f !! i.
Proof.
  intros Hi Hlt. unfold write. simpl.
  set (padded := bio_buf f ++ replicate (bio_pos f - length (bio_buf f)) x00).
  assert (Hlen : (bio_pos f <= length padded)%nat)
    by (unfold padded; rewrite length_app, length_replicate; lia).
  assert (Hpad : padded !! i = bio_buf f !! i)
    by (unfold padded; by rewrite lookup_app_l).
  destruct (decide (i < bio_pos f)%nat).
  - rewrite lookup_app_l by (rewrite length_take; lia).
    rewrite lookup_take_lt by done. exact Hpad.
  - rewrite lookup_app_r by (rewrite length_take; lia).
    rewrite length_take. replace (bio_pos f `min` length padded)%nat with (bio_pos f) by lia.
    rewrite lookup_app_r by lia. rewrite lookup_drop. rewrite <- Hpad. f_equal. lia.
Qed.

Lemma read_file_memory_step_length (E : Env) (of_ : BytesIO) (mdata : PageSpan) :
  length (bio_buf (read_file_memory_step E of_ mdata))
  = (length (bio_buf of_) `max` written_end E mdata)%nat.
Proof.
  unfold read_file_memory_step, written_end.
  destruct (read_span E mdata) as [[|b rdata]|]; cbn [truthy default];
    rewrite ?write_length; simpl; lia.
Qed.

Lemma read_file_memory_foldl_length (E : Env) (present : list PageSpan) (of_ : BytesIO) :
  length (bio_buf (foldl (read_file_memory_step E) of_ present))
  = (length (bio_buf of_) `max` max_list (written_end E <$> present))%nat.
Proof.
  revert of_. induction present as [|mdata present IH]; intros of_.
  - cbn. lia.
  - rewrite fmap_cons. cbn [foldl max_list].
    rewrite IH, read_file_memory_step_length. unfold id. lia.
Qed.

(** X11.  The buffer that [read_file_memory] returns ends where the
    furthest extent written by a span ends: it is empty when no span
    could be read, and pages at the end of the file whose read fails
    are not filled with zeros but left off. *)
Theorem read_file_memory_length (E : Env) (present : list PageSpan) :
  length (read_file_memory_present E present) = max_list (written_end E <$> present).
Proof.
  unfold read_file_memory_present, getvalue.
  rewrite read_file_memory_foldl_length. simpl. lia.
Qed.

Lemma read_file_memory_step_keeps (E : Env) (of_ : BytesIO) (mdata : PageSpan)
    (i : nat) (v : byte) :
  bio_buf of_ !! i = Some v ->
  (forall rdata, read_span E mdata = Some rdata ->
     ~ (N.to_nat (file_offset mdata) <= i < N.to_nat (file_offset mdata) + length rdata)%nat) ->
  bio_buf (read_file_memory_step E of_ mdata) !! i = Some v.
Proof.
  intros Hv Hout. unfold read_file_memory_step.
  destruct (read_span E mdata) as [[|b rdata]|] eqn:Hr; cbn [truthy default]; try done.
  rewrite write_lookup_outside; [done | by apply (Hout (b :: rdata)) | by eapply lookup_lt_Some].
Qed.

Lemma read_file_memory_foldl_keeps (E : Env) (post : list PageSpan) (of_ : BytesIO)
    (i : nat) (v : byte) :
  bio_buf of_ !! i = Some v ->
  (forall mdata rdata, mdata ∈ post -> read_span E mdata = Some rdata ->
     ~ (N.to_nat (file_offset mdata) <= i < N.to_nat (file_offset mdata) + length rdata)%nat) ->
  bio_buf (foldl (read_file_memory_step E) of_ post) !! i = Some v.
Proof.
  revert of_. induction post as [|mdata post IH]; intros of_ Hv Hout; simpl; [done|].
  apply IH.
  - apply read_file_memory_step_keeps; [done|]. intros r Hr. apply (Hout mdata r); [left | done].
  - intros m r Hin. apply Hout. by right.
Qed.

Lemma last_writer_lookup (E : Env) (pre post : list PageSpan)
    (mdata : PageSpan) (rdata : bytes) (i : nat) :
  read_span E mdata = Some rdata ->
  (N.to_nat (file_offset mdata) <= i < N.to_nat (file_offset mdata) + length rdata)%nat ->
  (forall later rdata', later ∈ post -> read_span E later = Some rdata' ->
     ~ (N.to_nat (file_offset later) <= i
        < N.to_nat (file_offset later) + length rdata')%nat) ->
  read_file_memory_present E (pre ++ mdata :: post) !! i
  = rdata !! (i - N.to_nat (file_offset mdata))%nat.
Proof.
  intros Hr Hi Hpost. unfold read_file_memory_present, getvalue.
  rewrite foldl_app. cbn [foldl].
  set (before := foldl (read_file_memory_step E) BytesIO_new pre).
  destruct (lookup_lt_is_Some_2 rdata (i - N.to_nat (file_offset mdata))%nat ltac:(lia))
    as [v Hv].
  rewrite Hv. apply read_file_memory_foldl_keeps; [|exact Hpost].
  unfold read_file_memory_step. rewrite Hr.
  destruct rdata as [|b rdata]; [simpl in Hi; lia|]. cbn [truthy default].
  rewrite write_lookup_inside by (simpl; simpl in Hi; lia). exact Hv.
Qed.

(** X12.  The last writer wins: at a position inside the extent written
    by a span, and inside the extent of no span that comes later in the
    list, the buffer holds the byte that was read for that span. *)
Theorem read_file_memory_last_writer (E : Env) (pre post : list PageSpan)
    (mdata : PageSpan) (rdata : bytes) (i : nat) :
  read_span E mdata = Some rdata ->
  (N.to_nat (file_offset mdata) <= i < N.to_nat (file_offset mdata) + length rdata)%nat ->
  (forall later rdata', later ∈ post -> read_span E later = Some rdata' ->
     ~ (N.to_nat (file_offset later) <= i
        < N.to_nat (file_offset later) + length rdata')%nat) ->
  read_file_memory_present E (pre ++ mdata :: post) !! i
  = rdata !! (i - N.to_nat (file_offset mdata))%nat.
Proof. apply last_writer_lookup. Qed.

Lemma read_file_memory_length_witness :
  length (read_file_memory_present Images.memory8_env
            (Images.spans3 ++ [ {| memory_offset := 0x100; file_offset := 32;
                                   byte_count := 4 |} ])) = 20%nat.
Proof.
  rewrite (read_file_memory_length Images.memory8_env). reflexivity.
Defined.

Lemma read_file_memory_last_writer_witness :
  read_file_memory_present Images.memory8_env Images.spans3 !! 17%nat = Some x00.
Proof.
  apply (read_file_memory_last_writer Images.memory8_env
           [ {| memory_offset := 0; file_offset := 0; byte_count := 4 |};
             {| memory_offset := 0x100; file_offset := 8; byte_count := 4 |} ] []
           {| memory_offset := 0x200000000004; file_offset := 16; byte_count := 4 |}
           [x03; x00; x00; x00] 17).
  - reflexivity.
  - simpl. lia.
  - intros later r Hin. by apply not_elem_of_nil in Hin.
Defined.

Lemma covered_dec (E : Env) (present : list PageSpan) (i : nat) :
  covered E present i \/ ~ covered E present i.
Proof.
  induction present as [|m rest IH].
  - right. intros (m & r & Hin & _). by apply not_elem_of_nil in Hin.
  - destruct IH as [(m' & r & Hin & Hr & Hi) | Hno].
    + left. exists m', r. split; [by right | done].
    + destruct (read_span E m) as [r|] eqn:Hr.
      * destruct (decide (N.to_nat (file_offset m) <= i
                          < N.to_nat (file_offset m) + length r)%nat) as [Hi | Hi].
        -- left. exists m, r. split; [left | done].
        -- right. intros (m' & r' & Hin & Hr' & Hi').
           apply elem_of_cons in Hin as [-> | Hin]; [congruence|].
           apply Hno. by exists m', r'.
      * right. intros (m' & r' & Hin & Hr' & Hi').
        apply elem_of_cons in Hin as [-> | Hin]; [congruence|].
        apply Hno. by exists m', r'.
Qed.

(** The last span of the list that covers a covered position. *)
Lemma last_covering (E : Env) (present : list PageSpan) (i : nat) :
  covered E present i ->
  exists pre mdata post rdata,
    present = pre ++ mdata :: post
    /\ read_span E mdata = Some rdata
    /\ (N.to_nat (file_offset mdata) <= i
        < N.to_nat (file_offset mdata) + length rdata)%nat
    /\ ~ covered E post i.
Proof.
  induction present as [|m rest IH]; intros Hc.
  - destruct Hc as (m & r & Hin & _). by apply not_elem_of_nil in Hin.
  - destruct (covered_dec E rest i) as [Hrest | Hno].
    + destruct (IH Hrest) as (pre & m' & post & r & -> & Hr & Hi & Hpost).
      by exists (m :: pre), m', post, r.
    + destruct Hc as (m' & r & Hin & Hr & Hi).
      apply elem_of_cons in Hin as [-> | Hin].
      * by exists [], m, rest, r.
      * exfalso. apply Hno. by exists m', r.
Qed.

Lemma max_list_bound (l : list nat) (n : nat) :
  (forall x, x ∈ l -> (x <= n)%nat) -> (max_list l <= n)%nat.
Proof.
  induction l as [|x l IH]; intros H; [simpl; lia|].
  pose proof (H x ltac:(left)) as Hx.
  assert (Hl : (max_list l <= n)%nat) by (apply IH; intros y Hy; apply H; by right).
  change (max_list (x :: l)) with (x `max` max_list l)%nat. lia.
Qed.

(** X13.  Reassembly.  When what is read for each span are the bytes
    of a file at the file offset of the span, and every position of the
    file lies in a span that could be read, [read_file_memory] returns
    the file, whatever the order of the spans and however they
    overlap. *)
Theorem read_file_memory_reassembles (E : Env) (present : list PageSpan) (file : bytes) :
  (forall mdata rdata,
     mdata ∈ present -> read_span E mdata = Some rdata ->
     rdata = take (length rdata) (drop (N.to_nat (file_offset mdata)) file)
     /\ (N.to_nat (file_offset mdata) + length rdata <= length file)%nat) ->
  (forall i, (i < length file)%nat -> covered E present i) ->
  read_file_memory_present E present = file.
Proof.
  intros Hread Hcover. apply list_eq. intros i.
  destruct (decide (i < length file)%nat) as [Hi | Hi].
  - destruct (last_covering E present i (Hcover i Hi))
      as (pre & m & post & r & Hp & Hr & Hin & Hpost).
    rewrite Hp. rewrite (last_writer_lookup E pre post m r i Hr Hin).
    + destruct (Hread m r) as [Hbytes _]; [rewrite Hp, elem_of_app; right; left | done |].
      rewrite Hbytes at 1. rewrite lookup_take_lt by lia. rewrite lookup_drop.
      f_equal. lia.
    + intros later r' Hl Hr' Hin'. apply Hpost. by exists later, r'.
  - rewrite (lookup_ge_None_2 file) by lia. apply lookup_ge_None_2.
    unfold read_file_memory_present, getvalue.
    rewrite read_file_memory_foldl_length. simpl.
    assert (max_list (written_end E <$> present) <= length file)%nat; [|lia].
    apply max_list_bound. intros x (m & -> & Hm)%list_elem_of_fmap.
    unfold written_end. destruct (read_span E m) as [[|b r]|] eqn:Hr; try lia.
    destruct (Hread m (b :: r) Hm Hr) as [_ Hlen]. exact Hlen.
Qed.

Lemma read_file_memory_reassembles_witness :
  read_file_memory_present Images.memory8_env
    [ {| memory_offset := 2; file_offset := 2; byte_count := 6 |};
      {| memory_offset := 0x100; file_offset := 0; byte_count := 8 |};
      {| memory_offset := 0; file_offset := 0; byte_count := 4 |} ]
  = Images.memory8.
Proof.
  apply (read_file_memory_reassembles Images.memory8_env).
  - intros m r Hin Hr.
    apply elem_of_cons in Hin as [-> | Hin];
      [injection Hr as <-; split; [reflexivity | simpl; lia]|].
    apply elem_of_cons in Hin as [-> | Hin]; [discriminate|].
    apply list_elem_of_singleton in Hin as ->.
    injection Hr as <-. split; [reflexivity | simpl; lia].
  - intros i Hi. simpl in Hi. destruct (decide (i < 4)%nat).
    + exists {| memory_offset := 0; file_offset := 0; byte_count := 4 |},
             [x4d; x5a; x90; x00].
      split; [do 2 right; left|]. split; [reflexivity | simpl; lia].
    + exists {| memory_offset := 2; file_offset := 2; byte_count := 6 |},
             [x90; x00; x03; x00; x00; x00].
      split; [left|]. split; [reflexivity | simpl; lia].
Defined.

(** ** The two full paths and the partial path *)

Section Verdicts.
Context (E : Env).

Lemma pefile_PE_Ok (data : bytes) (pe : PE) :
  pefile_PE E data = Ok pe -> pe_data pe = data /\ pefile_parse E data = Ok (pe_headers pe).
Proof.
  unfold pefile_PE. destruct (pefile_parse E data) as [h|e]; simpl; [|discriminate].
  intros [= <-]. by split.
Qed.

Lemma truthy_Some (c : option bytes) :
  truthy c = true -> exists cert, c = Some cert /\ cert <> [] /\ default [] c = cert.
Proof.
  destruct c as [[|b cert]|]; simpl; try discriminate. intros _. by eexists.
Qed.

Lemma verify_pe_string (pe : PE) (s : string) :
  verify_pe E pe = Ok (VString s) -> signature_checked E pe s.
Proof.
  unfold verify_pe, verify_signature.
  destruct (truthy (extract_cert pe)) eqn:Hc.
  - apply truthy_Some in Hc as (cert & Hcert & Hne & ->). 
    destruct (get_digest_from_signature cert) as [[a|] h|] eqn:Hsig; simpl;
      [| discriminate | discriminate].
    destruct (calculate_pe_digest E (Some a) (pe_data pe)) as [d|e] eqn:Hd; simpl;
      [|discriminate].
    case_decide as Hh; [|discriminate]. subst h.
    destruct (openssl_verdict E cert) as [s'|e] eqn:Ho; simpl; [|discriminate].
    intros [= <-]. by exists cert, a, d.
  - destruct (calculate_pe_digest E (Some sha1) (pe_data pe)) as [d|e]; simpl;
      [|discriminate].
    destruct (is_in_catalog E d); discriminate.
Qed.

Lemma rebase_loop_string (content : bytes) (is32 : bool) (candidates : list Z)
    (s : string) :
  rebase_loop E content is32 candidates = Ok (VString s) ->
  exists new_imagebase pe,
    new_imagebase ∈ candidates
    /\ rebase_candidate E content new_imagebase = Ok pe
    /\ pefile_verify_checksum E pe = true /\ signature_checked E pe s.
Proof.
  induction candidates as [|c rest IH]; simpl; [discriminate|].
  assert (Hrest : rebase_loop E content is32 rest = Ok (VString s) ->
            exists new_imagebase pe,
              new_imagebase ∈ c :: rest
              /\ rebase_candidate E content new_imagebase = Ok pe
              /\ pefile_verify_checksum E pe = true /\ signature_checked E pe s).
  { intros H. destruct (IH H) as (b & pe & Hin & Hb). exists b, pe.
    split; [by right | done]. }
  destruct (is32 && (0xffffffff <? c)); [exact Hrest|].
  unfold try_candidate.
  destruct (rebase_candidate E content c) as [pe'|[]] eqn:Hc; simpl; try discriminate;
    try exact Hrest.
  destruct (pefile_verify_checksum E pe') eqn:Hck; simpl; [|exact Hrest].
  destruct (verify_pe E pe') as [v|[]] eqn:Hpe'; simpl; try discriminate;
    try exact Hrest.
  intros [= ->]. exists c, pe'. split; [left|]. split; [done|]. split; [done|].
  by apply verify_pe_string.
Qed.

Lemma validate_data_section_as_verify_pe (content stripped : bytes) (pe : PE) :
  delete_padding E content = Ok stripped ->
  pefile_PE E stripped = Ok pe ->
  pefile_verify_checksum E pe = true ->
  forall v, validate_data_section E content = Ok v -> verify_pe E pe = Ok v.
Proof.
  intros Hstrip Hpe Hck v. unfold validate_data_section, verify_pe.
  rewrite Hstrip. simpl. rewrite Hpe. simpl. rewrite Hck.
  destruct (pefile_PE_Ok _ _ Hpe) as [-> _].
  destruct (truthy (extract_cert pe)); [|done].
  destruct (get_digest_from_signature _) as [[a|] h|]; simpl; try done.
  destruct (calculate_pe_digest_None E stripped) as [e ->]. discriminate.
Qed.

Lemma calculate_pe_digest_is_32bits (alg : option hash_alg) (data d : bytes) :
  calculate_pe_digest E alg data = Ok d -> exists b, is_32bits data = Ok b.
Proof.
  unfold calculate_pe_digest, authenticode_data, get_pe_certificate_attibutes.
  destruct (get_nt_header_addr data) as [nt|e]; simpl; [|discriminate].
  destruct (py_add nt 0x58) as [ck|e]; simpl; [|discriminate].
  destruct (is_32bits data) as [b|e] eqn:Hb; simpl; [eauto | discriminate].
Qed.

Lemma validate_data_section_hashes (content stripped : bytes) (pe : PE) (v : verdict) :
  delete_padding E content = Ok stripped ->
  pefile_PE E stripped = Ok pe ->
  pefile_verify_checksum E pe = true ->
  validate_data_section E content = Ok v ->
  exists alg d, calculate_pe_digest E alg stripped = Ok d.
Proof.
  intros Hstrip Hpe Hck. unfold validate_data_section.
  rewrite Hstrip. simpl. rewrite Hpe. simpl. rewrite Hck.
  destruct (truthy (extract_cert pe)).
  - destruct (get_digest_from_signature _) as [alg h|]; simpl; [|discriminate].
    destruct (calculate_pe_digest E alg stripped) as [d|e] eqn:Hd; simpl;
      [eauto | discriminate].
  - destruct (calculate_pe_digest E (Some sha1) stripped) as [d|e] eqn:Hd; simpl;
      [eauto | discriminate].
Qed.

End Verdicts.

(** X14.  A verdict string of the verifier is returned for a fully
    resident file only after the signature was checked in full: an
    image built from the file (the parse of the file without padding
    or, for an ImageSectionObject, the image rebuilt from it at one of
    the candidate bases of its type) passes its checksum, holds a
    certificate blob in which the pattern finds a digest of a known
    algorithm, that digest equals the Authenticode digest computed over
    the image, and the string is what openssl says about the blob. *)
Theorem verdict_string_is_checked (E : Env) (file_object : FileObject) (s : string) :
  validate_file E file_object = Ok (VString s) ->
  exists pe,
    built_from E file_object pe
    /\ pefile_verify_checksum E pe = true
    /\ signature_checked E pe s.
Proof.
  unfold validate_file, built_from. destruct (fo_type file_object) eqn:Ht;
    [| |discriminate].
  - unfold validate_image_section.
    destruct (delete_padding E _) as [stripped|] eqn:Hs; simpl; [|discriminate].
    destruct (pefile_PE E stripped) as [pe|] eqn:Hpe; simpl; [|discriminate].
    destruct (is_32bits stripped) as [is32|]; simpl; [|discriminate].
    destruct (pefile_verify_checksum E pe) eqn:Hck.
    + intros H. exists pe. split; [exists stripped; split; [done | by left]|].
      split; [done|]. by apply verify_pe_string.
    + destruct (frequent_addresses E !! _) as [candidates|] eqn:Hf; simpl; [|discriminate].
      intros H. apply rebase_loop_string in H as (b & pe' & Hin & Hb & Hck' & Hsig).
      exists pe'. split; [|done]. exists stripped. split; [done|]. right.
      split; [done|]. by exists candidates, b.
  - intros H.
    destruct (delete_padding E (read_file_memory E file_object)) as [stripped|] eqn:Hs;
      [|unfold validate_data_section in H; rewrite Hs in H; discriminate].
    destruct (pefile_PE E stripped) as [pe|] eqn:Hpe;
      [|unfold validate_data_section in H; rewrite Hs in H; simpl in H;
        rewrite Hpe in H; discriminate].
    destruct (pefile_verify_checksum E pe) eqn:Hck;
      [|unfold validate_data_section in H; rewrite Hs in H; simpl in H;
        rewrite Hpe in H; simpl in H; rewrite Hck in H; discriminate].
    exists pe. split; [exists stripped; split; [done | by left]|].
    split; [done|]. apply verify_pe_string.
    by apply (validate_data_section_as_verify_pe E (read_file_memory E file_object) stripped).
Qed.

Lemma verdict_string_is_checked_witness :
  exists pe,
    built_from (Images.resident_env verified_image) (Images.whole_file verified_image) pe
    /\ pefile_verify_checksum (Images.resident_env verified_image) pe = true
    /\ signature_checked (Images.resident_env verified_image) pe "Verification successful".
Proof.
  apply (verdict_string_is_checked (Images.resident_env verified_image)
           (Images.whole_file verified_image)).
  vm_compute. reflexivity.
Defined.

(** X15.  On a buffer for which the DataSectionObject path returns a
    verdict other than PE_CHECKSUM_MISMATCH, the ImageSectionObject
    path returns the same verdict, whatever the extension: the two
    paths differ only on images whose checksum does not verify and on
    images for which the DataSectionObject path raises. *)
Theorem data_and_image_paths_agree (E : Env) (content : bytes) (file_type : string)
    (v : verdict) :
  validate_data_section E content = Ok v ->
  v <> VCode PE_CHECKSUM_MISMATCH ->
  validate_image_section E content file_type = Ok v.
Proof.
  intros H Hne.
  destruct (delete_padding E content) as [stripped|] eqn:Hs;
    [|unfold validate_data_section in H; rewrite Hs in H; discriminate].
  destruct (pefile_PE E stripped) as [pe|] eqn:Hpe;
    [|unfold validate_data_section in H; rewrite Hs in H; simpl in H;
      rewrite Hpe in H; discriminate].
  destruct (pefile_verify_checksum E pe) eqn:Hck;
    [|unfold validate_data_section in H; rewrite Hs in H; simpl in H;
      rewrite Hpe in H; simpl in H; rewrite Hck in H; congruence].
  destruct (validate_data_section_hashes E content stripped pe v Hs Hpe Hck H)
    as (alg & d & Hd).
  destruct (calculate_pe_digest_is_32bits E alg stripped d Hd) as [b Hb].
  unfold validate_image_section. rewrite Hs. simpl. rewrite Hpe. simpl.
  rewrite Hb. simpl. rewrite Hck.
  by apply (validate_data_section_as_verify_pe E content stripped).
Qed.

Lemma data_and_image_paths_agree_witness :
  validate_image_section Images.bare_env verified_image "dll"
  = Ok (VString "Verification successful").
Proof.
  apply (data_and_image_paths_agree Images.bare_env verified_image "dll").
  - vm_compute. reflexivity.
  - discriminate.
Defined.

(** ** Which verdicts come from where *)

(** Membership in a list that is written out. *)
Ltac in_list := unfold full_codes, partial_codes, process_codes;
                rewrite ?elem_of_cons; auto 14.

Section VerdictSets.
Context (E : Env).

Lemma verify_pe_verdicts (pe : PE) (v : verdict) :
  verify_pe E pe = Ok v ->
  match v with
  | VCode rc => rc ∈ [AUTHENTICODE_SIGNATURE_MISMATCH; PARTIAL_CERTIFICATE;
                      CATALOG_SIGNED; NOT_SIGNED]
  | VString _ => True
  | _ => False
  end.
Proof.
  destruct v as [rc|s|s|]; [apply verify_pe_codes | done | |];
    unfold verify_pe, verify_signature;
    (destruct (truthy (extract_cert pe));
     [ destruct (get_digest_from_signature _) as [[a|] h|]; simpl; try discriminate;
       destruct (calculate_pe_digest E (Some a) (pe_data pe)) as [d|e]; simpl;
         [|discriminate];
       case_decide; [|discriminate];
       destruct (openssl_verdict E _); simpl; discriminate
     | destruct (calculate_pe_digest E (Some sha1) (pe_data pe)) as [d|e]; simpl;
         [|discriminate];
       destruct (is_in_catalog E d); discriminate ]).
Qed.

Lemma full_verdict_of_verify_pe (pe : PE) (v : verdict) :
  verify_pe E pe = Ok v ->
  match v with
  | VCode rc => rc ∈ full_codes
  | VString _ => True
  | _ => False
  end.
Proof.
  intros H. apply verify_pe_verdicts in H. destruct v as [rc|s|s|]; try done.
  elem_cases H; in_list.
Qed.

Lemma rebase_loop_verdicts (content : bytes) (is32 : bool) (candidates : list Z)
    (v : verdict) :
  rebase_loop E content is32 candidates = Ok v ->
  match v with
  | VCode rc => rc ∈ full_codes
  | VString _ => True
  | _ => False
  end.
Proof.
  induction candidates as [|c rest IH]; simpl.
  - intros [= <-]. in_list.
  - destruct (is32 && (0xffffffff <? c)); [exact IH|].
    unfold try_candidate.
    destruct (rebase_candidate E content c) as [pe'|[]]; simpl; try discriminate;
      try exact IH.
    destruct (pefile_verify_checksum E pe'); simpl; [|exact IH].
    destruct (verify_pe E pe') as [v'|[]] eqn:Hpe'; simpl; try discriminate;
      try exact IH.
    intros [= ->]. by apply (full_verdict_of_verify_pe pe').
Qed.

Lemma validate_file_verdicts (file_object : FileObject) (v : verdict) :
  validate_file E file_object = Ok v ->
  match v with
  | VCode rc => rc ∈ full_codes
  | VString _ => True
  | VPartialVerified _ => False
  | VNone => fo_type file_object = SharedCacheMap
  end.
Proof.
  unfold validate_file. destruct (fo_type file_object) eqn:Ht.
  - unfold validate_image_section.
    destruct (delete_padding E _) as [stripped|]; simpl; [|discriminate].
    destruct (pefile_PE E stripped) as [pe|]; simpl; [|discriminate].
    destruct (is_32bits stripped) as [is32|]; simpl; [|discriminate].
    destruct (pefile_verify_checksum E pe).
    + intros H. apply full_verdict_of_verify_pe in H. by destruct v.
    + destruct (frequent_addresses E !! _); simpl; [|discriminate].
      intros H. apply rebase_loop_verdicts in H. by destruct v.
  - intros H.
    destruct (delete_padding E (read_file_memory E file_object)) as [stripped|] eqn:Hs;
      [|unfold validate_data_section in H; rewrite Hs in H; discriminate].
    destruct (pefile_PE E stripped) as [pe|] eqn:Hpe;
      [|unfold validate_data_section in H; rewrite Hs in H; simpl in H;
        rewrite Hpe in H; discriminate].
    destruct (pefile_verify_checksum E pe) eqn:Hck.
    + apply (validate_data_section_as_verify_pe E _ stripped pe Hs Hpe Hck) in H.
      apply full_verdict_of_verify_pe in H. by destruct v.
    + unfold validate_data_section in H. rewrite Hs in H. simpl in H.
      rewrite Hpe in H. simpl in H. rewrite Hck in H. injection H as <-.
      in_list.
  - by intros [= <-].
Qed.

Lemma validate_partial_file_verdicts (file_object : option FileObject) (v : verdict) :
  validate_partial_file E file_object = Ok v ->
  match v with
  | VCode rc => rc ∈ partial_codes
  | VString _ => False
  | VPartialVerified _ => fo_type <$> file_object = Some DataSectionObject
  | VNone => fo_type <$> file_object = Some SharedCacheMap
  end.
Proof.
  unfold validate_partial_file. destruct file_object as [fo|].
  - unfold validate_partial_body.
    destruct (pefile_PE E _) as [pe|[]]; simpl; try discriminate;
      [|intros [= <-]; in_list].
    destruct (has_cert pe).
    + destruct (fo_type fo); simpl.
      * intros [= <-]. in_list.
      * destruct (truthy (extract_cert pe)).
        -- destruct (openssl_verdict E _) as [s|[]]; simpl; try discriminate;
             intros [= <-]; try done; in_list.
        -- intros [= <-]. in_list.
      * by intros [= <-].
    + match goal with |- context [if ?b then _ else _] => destruct b end;
        intros [= <-]; in_list.
  - intros [= <-]. in_list.
Qed.

Lemma validate_partial_file_found (fo : FileObject) :
  validate_partial_file E (Some fo) <> Ok (VCode FILEOBJECT_ERROR).
Proof.
  unfold validate_partial_file, validate_partial_body.
  destruct (pefile_PE E _) as [pe|[]]; simpl; try discriminate.
  destruct (has_cert pe).
  - destruct (fo_type fo); simpl; try discriminate.
    destruct (truthy (extract_cert pe)); [|discriminate].
    destruct (openssl_verdict E _) as [s|[]]; simpl; discriminate.
  - match goal with |- context [if ?b then _ else _] => destruct b end; discriminate.
Qed.

Lemma validate_file_found (fo : FileObject) :
  validate_file E fo <> Ok (VCode FILEOBJECT_ERROR).
Proof.
  intros H. apply validate_file_verdicts in H. unfold full_codes in H.
  rewrite !elem_of_cons, elem_of_nil in H. intuition discriminate.
Qed.

End VerdictSets.

(** ** The lookup of the file object *)

Lemma extract_object_loop_routing (dumps : list DumpFile) :
  match extract_object_loop dumps with
  | (is_complete, Some fo) =>
      SectionDump fo ∈ dumps /\ fo_present fo <> []
      /\ (is_complete = true <-> fo_pad fo = [])
  | (is_complete, None) =>
      is_complete = false /\ forall fo, SectionDump fo ∈ dumps -> fo_present fo = []
  end.
Proof.
  induction dumps as [|[fo|name] rest IH]; simpl.
  - split; [done|]. intros fo Hin. by apply not_elem_of_nil in Hin.
  - destruct (fo_present fo) as [|p ps] eqn:Hp.
    + destruct (extract_object_loop rest) as [c [fo'|]].
      * destruct IH as (Hin & Hne & Hc). split; [by right | done].
      * destruct IH as [-> Hall]. split; [done|].
        intros fo' [Heq | Hin]%elem_of_cons; [|by apply Hall]. by injection Heq as ->.
    + destruct (fo_pad fo) as [|q qs] eqn:Hq.
      * split; [left|]. rewrite Hp, Hq. by split.
      * split; [left|]. rewrite Hp, Hq. split; [done|]. by split.
  - destruct (extract_object_loop rest) as [c [fo'|]].
    + destruct IH as (Hin & Hne & Hc). split; [by right | done].
    + destruct IH as [-> Hall]. split; [done|].
      intros fo' [Heq | Hin]%elem_of_cons; [discriminate | by apply Hall].
Qed.

Lemma get_file_object_None (E : Env) (filename : string) :
  (get_file_object E filename).2 = None -> (get_file_object E filename).1 = false.
Proof.
  unfold get_file_object. case_bool_decide as Hname; [|done].
  destruct (List.find _ (filescan E)) as [file|]; [|done].
  unfold extract_object.
  pose proof (extract_object_loop_routing (dumpfiles E (fe_offset file))) as H.
  destruct (extract_object_loop _) as [c [fo|]]; [done|]. by destruct H.
Qed.

Lemma analyze_codes (E : Env) (module_path : string) (rc : ReturnCode) :
  analyze E module_path = Ok (VCode rc) -> rc ∈ full_codes ++ partial_codes.
Proof.
  unfold analyze. rewrite elem_of_app.
  destruct (get_file_object E module_path) as [[|] [fo|]].
  - intros H. apply validate_file_verdicts in H. by left.
  - discriminate.
  - intros H. apply validate_partial_file_verdicts in H. by right.
  - intros H. apply validate_partial_file_verdicts in H. by right.
Qed.

(** X16.  What [get_file_object] hands to the validation.  A file
    object it returns was dumped for an entry of the file scan whose
    name the module path designates, has resident pages, and is flagged
    complete exactly when it has no missing page; when it returns no
    file object the flag is false, so the validation of a complete
    file is never called on [None]. *)
Theorem get_file_object_routing (E : Env) (filename : string) :
  match get_file_object E filename with
  | (is_complete, Some fo) =>
      (exists file, file ∈ filescan E
                    /\ path_matches E filename (fe_name file) = true
                    /\ SectionDump fo ∈ dumpfiles E (fe_offset file))
      /\ fo_present fo <> []
      /\ (is_complete = true <-> fo_pad fo = [])
  | (is_complete, None) => is_complete = false
  end.
Proof.
  unfold get_file_object. case_bool_decide as Hname; [|done].
  destruct (List.find _ (filescan E)) as [file|] eqn:Hfind; [|done].
  apply find_some in Hfind as [Hin Hmatch].
  unfold extract_object.
  pose proof (extract_object_loop_routing (dumpfiles E (fe_offset file))) as H.
  destruct (extract_object_loop _) as [c [fo|]].
  - destruct H as (Hd & Hne & Hc). split; [|done].
    exists file. split; [by apply list_elem_of_In | done].
  - by destruct H.
Qed.

(** X17.  The verdict of a module path tells how its file was found.
    A member of [ReturnCode] is one of the six of the full paths when
    the file object is complete and one of the five of the partial
    path otherwise; a plain verdict string of the verifier is returned
    only for a complete file, the string that starts with the text of
    PARTIAL_CONTENT_VERIFIED only for an incomplete DataSectionObject,
    and [None] only for a file object of type SharedCacheMap. *)
Theorem analyze_verdicts (E : Env) (module_path : string) (v : verdict) :
  analyze E module_path = Ok v ->
  match v with
  | VCode rc =>
      if (get_file_object E module_path).1 then rc ∈ full_codes else rc ∈ partial_codes
  | VString _ => (get_file_object E module_path).1 = true
  | VPartialVerified _ =>
      (get_file_object E module_path).1 = false
      /\ fo_type <$> (get_file_object E module_path).2 = Some DataSectionObject
  | VNone => fo_type <$> (get_file_object E module_path).2 = Some SharedCacheMap
  end.
Proof.
  unfold analyze.
  destruct (get_file_object E module_path) as [[|] [fo|]]; cbn [fst snd].
  - intros H. apply validate_file_verdicts in H. destruct v; try done.
    simpl. by rewrite H.
  - discriminate.
  - intros H. apply validate_partial_file_verdicts in H. by destruct v.
  - intros H. apply validate_partial_file_verdicts in H. by destruct v.
Qed.

Lemma analyze_verdicts_witness :
  (if (get_file_object (Images.resident_env Images.unsigned_on_disk) Images.notepad_path).1
   then NOT_SIGNED ∈ full_codes else NOT_SIGNED ∈ partial_codes).
Proof.
  apply (analyze_verdicts (Images.resident_env Images.unsigned_on_disk)
           Images.notepad_path (VCode NOT_SIGNED)).
  vm_compute. reflexivity.
Defined.

(** X18.  FILEOBJECT_ERROR is the verdict of a module path exactly when
    [get_file_object] returns no file object for it.  The lookup stops
    at the first entry of the file scan whose name the path designates:
    when none of the dumps of that entry has a resident page the
    verdict is FILEOBJECT_ERROR, whatever entries follow. *)
Theorem fileobject_error_iff (E : Env) (module_path : string) :
  (analyze E module_path = Ok (VCode FILEOBJECT_ERROR)
   <-> (get_file_object E module_path).2 = None)
  /\ (forall pre file post,
        module_path <> EmptyString ->
        filescan E = pre ++ file :: post ->
        (forall f, f ∈ pre -> path_matches E module_path (fe_name f) = false) ->
        path_matches E module_path (fe_name file) = true ->
        get_file_object E module_path = extract_object E file
        /\ ((forall fo, SectionDump fo ∈ dumpfiles E (fe_offset file) -> fo_present fo = []) ->
            analyze E module_path = Ok (VCode FILEOBJECT_ERROR))).
Proof.
  assert (Hiff : analyze E module_path = Ok (VCode FILEOBJECT_ERROR)
                 <-> (get_file_object E module_path).2 = None).
  { split.
    - unfold analyze.
      destruct (get_file_object E module_path) as [c [fo|]]; cbn [snd]; [|done].
      destruct c; intros H; [by apply validate_file_found in H
                            | by apply validate_partial_file_found in H].
    - intros H. pose proof (get_file_object_None E module_path H) as Hc.
      unfold analyze. destruct (get_file_object E module_path) as [c [fo|]];
        simpl in *; [discriminate|]. by subst c. }
  split; [exact Hiff|].
  intros pre file post Hname Hscan Hpre Hmatch.
  assert (Hget : get_file_object E module_path = extract_object E file).
  { unfold get_file_object. rewrite bool_decide_eq_true_2 by done.
    rewrite Hscan. clear Hscan.
    induction pre as [|f pre IH]; simpl.
    - by rewrite Hmatch.
    - rewrite (Hpre f) by left. apply IH. intros f' Hin. apply Hpre. by right. }
  split; [exact Hget|].
  intros Hnone. apply Hiff. rewrite Hget. unfold extract_object.
  pose proof (extract_object_loop_routing (dumpfiles E (fe_offset file))) as H.
  destruct (extract_object_loop _) as [c [fo|]]; [|done].
  destruct H as (Hin & Hne & _). by apply Hnone in Hin.
Qed.

Lemma fileobject_error_iff_witness :
  analyze shadowed_env Images.notepad_path = Ok (VCode FILEOBJECT_ERROR).
Proof.
  apply (proj2 (fileobject_error_iff shadowed_env Images.notepad_path) []
           {| fe_offset := 0x1000; fe_name := Images.notepad_device_path |}
           [ {| fe_offset := 0x3e8f1070; fe_name := Images.notepad_device_path |} ]).
  - discriminate.
  - reflexivity.
  - intros f Hin. by apply not_elem_of_nil in Hin.
  - vm_compute. reflexivity.
  - intros fo Hin. simpl in Hin. apply list_elem_of_singleton in Hin. discriminate.
Defined.

(** ** The loop of [calculate] *)

Section CalculateLoop.
Context (E : Env).

(** Where the result of a yielded triple comes from. *)
Lemma calculate_loop_results (task : option Task) (modules : list ModuleEntry) :
  forall cache y,
    cache_sound E cache ->
    y ∈ yielded (calculate_loop E task cache modules) ->
    (exists path, analyze E path = Ok (y_result y))
    \/ (exists t, task = Some t
                  /\ y_result y = VCode (if ExitTime t then ALREADY_TERMINATED else NOT_PEB)).
Proof.
  induction modules as [|[[path name] pid] rest IH]; intros cache y Hs; simpl.
  - intros Hin. by apply not_elem_of_nil in Hin.
  - destruct (cache !! path) as [cached|] eqn:Hc; simpl.
    + intros [-> | Hin]%elem_of_cons; [|by eapply IH].
      left. exists path. by apply Hs.
    + case_bool_decide as Hpath.
      * destruct (analyze E path) as [r|e] eqn:Ha; simpl.
        -- intros [-> | Hin]%elem_of_cons; [by left; exists path|].
           eapply IH; [|exact Hin]. by apply cache_sound_insert.
        -- intros Hin. by apply not_elem_of_nil in Hin.
      * destruct task as [t|]; simpl.
        -- intros [-> | Hin]%elem_of_cons; [right; by exists t | by eapply IH].
        -- intros Hin. by apply not_elem_of_nil in Hin.
Qed.

(** Every yielded triple carries the owner id of a module. *)
Lemma calculate_loop_pids (task : option Task) (modules : list ModuleEntry) :
  forall cache y,
    y ∈ yielded (calculate_loop E task cache modules) ->
    exists m, m ∈ modules /\ y_pid y = m.2.
Proof.
  induction modules as [|[[path name] pid] rest IH]; intros cache y; simpl.
  - intros Hin. by apply not_elem_of_nil in Hin.
  - assert (Hrest : forall cache', y ∈ yielded (calculate_loop E task cache' rest) ->
                      exists m, m ∈ (path, name, pid) :: rest /\ y_pid y = m.2).
    { intros cache' Hin. destruct (IH cache' y Hin) as (m & Hm & Hp).
      exists m. split; [by right | done]. }
    assert (Hhere : forall n r, exists m,
               m ∈ (path, name, pid) :: rest
               /\ y_pid {| y_name := n; y_pid := pid; y_result := r |} = m.2).
    { intros n r. exists (path, name, pid). split; [left | done]. }
    destruct (cache !! path) as [cached|]; simpl.
    + intros [-> | Hin]%elem_of_cons; [apply Hhere | by eapply Hrest].
    + case_bool_decide as Hpath.
      * destruct (analyze E path) as [r|e]; simpl.
        -- intros [-> | Hin]%elem_of_cons; [apply Hhere | by eapply Hrest].
        -- intros Hin. by apply not_elem_of_nil in Hin.
      * destruct task as [t|]; simpl.
        -- intros [-> | Hin]%elem_of_cons; [apply Hhere | by eapply Hrest].
        -- intros Hin. by apply not_elem_of_nil in Hin.
Qed.

(** A module without path is reported under [task]. *)
Lemma calculate_loop_pathless (task : option Task) (modules : list ModuleEntry) :
  forall cache,
    cache !! EmptyString = None ->
    raised (calculate_loop E task cache modules) = None ->
    Forall2 (fun m y => m.1.1 = EmptyString ->
                        exists t, task = Some t /\ y = pathless_yield t m)
            modules (yielded (calculate_loop E task cache modules)).
Proof.
  induction modules as [|[[path name] pid] rest IH]; intros cache Hc; simpl.
  - constructor.
  - destruct (cache !! path) as [cached|] eqn:Hp; simpl.
    + intros Hr. constructor; [|by apply IH].
      simpl. intros ->. congruence.
    + case_bool_decide as Hpath.
      * destruct (analyze E path) as [r|e]; simpl; [|discriminate].
        intros Hr. constructor; [done|].
        apply IH; [|done]. rewrite lookup_insert_ne; done.
      * destruct task as [t|]; simpl; [|discriminate].
        intros Hr. constructor; [|by apply IH].
        intros _. by exists t.
Qed.

(** A module without path ends the loop when [task] is unbound. *)
Lemma calculate_loop_unbound (pre post : list ModuleEntry) (name : string) (pid : Z) :
  forall cache,
    cache_sound E cache ->
    cache !! EmptyString = None ->
    (forall m, m ∈ pre -> validates E m) ->
    raised (calculate_loop E None cache (pre ++ (EmptyString, name, pid) :: post))
      = Some UnboundLocalError
    /\ length (yielded (calculate_loop E None cache
                          (pre ++ (EmptyString, name, pid) :: post)))
       = length pre.
Proof.
  induction pre as [|[[p n] i] pre IH]; intros cache Hs Hc Hpre; simpl.
  - rewrite Hc. by split.
  - assert (Hm : validates E (p, n, i)) by (apply Hpre; left).
    destruct Hm as [Hp [r Hr]]. simpl in Hp, Hr.
    assert (Hrest : forall m, m ∈ pre -> validates E m)
      by (intros m Hm; apply Hpre; by right).
    destruct (cache !! p) as [cached|] eqn:Hcp; simpl.
    + destruct (IH cache Hs Hc Hrest) as [-> ->]. by split.
    + rewrite bool_decide_eq_true_2 by done. rewrite Hr. simpl.
      destruct (IH (<[p := r]> cache)) as [-> ->]; [| |done|by split].
      * by apply cache_sound_insert.
      * rewrite lookup_insert_ne; done.
Qed.

End CalculateLoop.

Lemma produced_not_unused (rc : ReturnCode) :
  rc ∈ full_codes ++ partial_codes ++ process_codes -> rc ∉ unused_codes.
Proof.
  unfold full_codes, partial_codes, process_codes, unused_codes. simpl.
  rewrite !elem_of_cons, !elem_of_nil. destruct rc; intuition discriminate.
Qed.

(** X19.  The members of [ReturnCode] that [calculate] yields are the
    six of the full paths, the five of the partial path and the two
    given to modules without path; SIGNED_FILE_NOT_VERIFIED,
    MAYBE_CATALOG_SIGNED, PARTIAL_CONTENT_VERIFIED and the two
    [.._OR_INCORRECT_IMAGEBASE] members are never yielded. *)
Theorem calculate_codes (E : Env) (y : Yield) (rc : ReturnCode) :
  y ∈ yielded (calculate E) ->
  y_result y = VCode rc ->
  rc ∈ full_codes ++ partial_codes ++ process_codes /\ rc ∉ unused_codes.
Proof.
  intros Hin Hrc.
  assert (H : rc ∈ full_codes ++ partial_codes ++ process_codes);
    [|split; [exact H | by apply produced_not_unused]].
  apply (calculate_loop_results E) in Hin as [[path Ha] | (t & _ & Hr)];
    [| |apply cache_sound_empty].
  - rewrite Hrc in Ha. apply analyze_codes in Ha.
    rewrite !elem_of_app. rewrite elem_of_app in Ha. tauto.
  - rewrite Hrc in Hr. injection Hr as ->.
    rewrite !elem_of_app. right. right. destruct (ExitTime t); in_list.
Qed.

Lemma calculate_codes_witness :
  NOT_SIGNED ∈ full_codes ++ partial_codes ++ process_codes /\ NOT_SIGNED ∉ unused_codes.
Proof.
  apply (calculate_codes (Images.resident_env Images.unsigned_on_disk)
           {| y_name := "notepad.exe"; y_pid := 5678; y_result := VCode NOT_SIGNED |}).
  - replace (calculate (Images.resident_env Images.unsigned_on_disk))
      with {| yielded := [ {| y_name := "notepad.exe"; y_pid := 1234;
                             y_result := VCode NOT_SIGNED |};
                          {| y_name := "notepad.exe"; y_pid := 5678;
                             y_result := VCode NOT_SIGNED |} ];
              raised := None |} by (vm_compute; reflexivity).
    simpl. apply elem_of_cons. right. apply elem_of_cons. by left.
  - reflexivity.
Defined.

(** X20.  A module without path is not reported under its own process.
    Outside the driver mode its triple carries its owner id, but the
    name and the exit time of the last process of the process list,
    the one the variable [task] was left bound to; in the driver mode,
    where [task] was never bound, the first module without path ends
    the iteration with UnboundLocalError. *)
Theorem pathless_module_outcome (E : Env) :
  (config_SYS E = false ->
   raised (calculate E) = None ->
   Forall2 (fun m y => m.1.1 = EmptyString ->
                       exists t, last (pslist E) = Some t /\ y = pathless_yield t m)
           (enumerate_modules E) (yielded (calculate E)))
  /\ (config_SYS E = true ->
      forall pre name pid post,
        sys_modules E = pre ++ (EmptyString, name, pid) :: post ->
        (forall m, m ∈ pre -> validates E m) ->
        raised (calculate E) = Some UnboundLocalError
        /\ length (yielded (calculate E)) = length pre).
Proof.
  unfold calculate, enumerate_modules. split.
  - intros -> Hr. by apply calculate_loop_pathless.
  - intros -> pre name pid post -> Hpre.
    apply calculate_loop_unbound; [apply cache_sound_empty | done | done].
Qed.

Lemma pathless_module_outcome_witness :
  Forall2 (fun m y => m.1.1 = EmptyString ->
                      exists t, last (pslist pathless_env) = Some t /\ y = pathless_yield t m)
          (enumerate_modules pathless_env) (yielded (calculate pathless_env)).
Proof.
  apply (proj1 (pathless_module_outcome pathless_env)); reflexivity.
Defined.

Example pathless_module_run :
  calculate pathless_env =
    {| yielded := [ {| y_name := "setup.exe"; y_pid := 700;
                       y_result := VCode ALREADY_TERMINATED |} ];
       raised := None |}.
Proof. reflexivity. Qed.

Lemma get_pe_modules_default (task : Task) (m : ModuleEntry) :
  m ∈ get_pe_modules task false ->
  Peb task = true /\ m.2 = UniqueProcessId task
  /\ (m.1.1, m.1.2) ∈ take 1 (load_modules task).
Proof.
  unfold get_pe_modules. destruct (Peb task); [|by intros ?%not_elem_of_nil].
  destruct (load_modules task) as [|[p n] rest]; [by intros ?%not_elem_of_nil|].
  intros ->%list_elem_of_singleton. simpl. split; [done|]. split; [done|]. by left.
Qed.

Lemma get_pe_modules_default_length (task : Task) :
  (length (get_pe_modules task false) <= 1)%nat.
Proof.
  unfold get_pe_modules. destruct (Peb task); [|simpl; lia].
  destruct (load_modules task); simpl; lia.
Qed.

Lemma calculate_loop_length (E : Env) (task : option Task) (modules : list ModuleEntry) :
  forall cache,
    (length (yielded (calculate_loop E task cache modules)) <= length modules)%nat.
Proof.
  induction modules as [|[[path name] pid] rest IH]; intros cache; simpl; [lia|].
  destruct (cache !! path); simpl; [specialize (IH cache); lia|].
  case_bool_decide.
  - destruct (analyze E path) as [r|e]; simpl; [|lia].
    specialize (IH (<[path := r]> cache)). lia.
  - destruct task; simpl; [specialize (IH cache)|]; lia.
Qed.

(** X21.  In the default mode (neither drivers nor DLLs) [calculate]
    yields at most one triple for each process of the process list, and
    each triple it yields carries the id of a process whose PEB is
    readable: a process without PEB is never reported, not even with
    NOT_PEB. *)
Theorem default_mode_one_per_process (E : Env) :
  config_SYS E = false ->
  config_DLL E = false ->
  (length (yielded (calculate E)) <= length (pslist E))%nat
  /\ forall y, y ∈ yielded (calculate E) ->
       exists task, task ∈ pslist E /\ Peb task = true /\ y_pid y = UniqueProcessId task.
Proof.
  intros Hsys Hdll. unfold calculate, enumerate_modules. rewrite Hsys, Hdll. split.
  - etransitivity; [apply calculate_loop_length|].
    induction (pslist E) as [|t ts IH]; [simpl; lia|].
    cbn [flat_map]. rewrite length_app, length_cons.
    pose proof (get_pe_modules_default_length t). lia.
  - intros y Hin. apply calculate_loop_pids in Hin as (m & Hm & Hpid).
    apply list_elem_of_In, in_flat_map in Hm as (task & Htask & Hm).
    apply list_elem_of_In in Htask, Hm.
    apply get_pe_modules_default in Hm as (Hpeb & Hp & _).
    exists task. split; [done|]. split; [done|]. congruence.
Qed.

Lemma default_mode_one_per_process_witness :
  (length (yielded (calculate pathless_env)) <= length (pslist pathless_env))%nat
  /\ forall y, y ∈ yielded (calculate pathless_env) ->
       exists task, task ∈ pslist pathless_env /\ Peb task = true
                    /\ y_pid y = UniqueProcessId task.
Proof.
  apply (default_mode_one_per_process pathless_env); reflexivity.
Defined.

(** ** Unparseable, truncated and padded buffers *)

Section Edges.
Context (E : Env).

Lemma delete_padding_parse_error (content : bytes) (e : exn) :
  pefile_parse E content = Raise e -> delete_padding E content = Raise e.
Proof.
  intros H. unfold delete_padding, calculate_pe_size, pefile_PE. by rewrite H.
Qed.

Lemma slice_beyond (data : bytes) (a b : Z) :
  Z.of_nat (length data) <= a -> slice data a b = [].
Proof.
  intros Ha. unfold slice, py_bound.
  destruct (a <? 0) eqn:Hneg; [lia|].
  apply length_zero_iff_nil. rewrite length_take, length_drop.
  destruct (b <? 0); lia.
Qed.

Lemma slice_inside (data : bytes) (a b : Z) :
  0 <= a < Z.of_nat (length data) -> a < b ->
  length (slice data a b) = Z.to_nat (Z.min b (Z.of_nat (length data)) - a).
Proof.
  intros Ha Hb. unfold slice, py_bound.
  destruct (a <? 0) eqn:Hneg; [lia|]. destruct (b <? 0) eqn:Hnb; [lia|].
  rewrite length_take, length_drop. lia.
Qed.

Lemma extract_cert_beyond (pe : PE) :
  Z.of_nat (length (pe_data pe)) <= Security_VirtualAddress (pe_headers pe) ->
  truthy (extract_cert pe) = false.
Proof.
  intros H. unfold extract_cert. destruct (has_cert pe); [|done].
  by rewrite slice_beyond.
Qed.

Lemma slice_to_length_le (data : bytes) (n : Z) :
  0 <= n -> Z.of_nat (length (slice_to data n)) <= n.
Proof.
  intros Hn. unfold slice_to, py_bound. destruct (n <? 0) eqn:Hneg; [lia|].
  rewrite length_take. lia.
Qed.

End Edges.

(** X22.  Bytes that pefile cannot parse are a verdict on the partial
    path and an exception on the full paths.  When the constructor of
    [pefile.PE] raises on the assembled buffer, [validate_partial_file]
    returns PARTIAL_CONTENT_PE_DATA_ERROR for PEFormatError and lets
    every other exception through, while [validate_file] lets every
    exception through, PEFormatError as well;
    [validate_partial_file] never raises PEFormatError. *)
Theorem parse_failure_outcome (E : Env) (file_object : FileObject) (e : exn) :
  pefile_parse E (read_file_memory E file_object) = Raise e ->
  validate_partial_file E (Some file_object)
    = (if decide (e = PEFormatError) then Ok (VCode PARTIAL_CONTENT_PE_DATA_ERROR)
       else Raise e)
  /\ (fo_type file_object <> SharedCacheMap -> validate_file E file_object = Raise e)
  /\ (forall other, validate_partial_file E other <> Raise PEFormatError).
Proof.
  intros H. split; [|split].
  - unfold validate_partial_file, validate_partial_body, pefile_PE. rewrite H. simpl.
    by destruct e.
  - intros Ht. unfold validate_file, validate_image_section, validate_data_section.
    rewrite (delete_padding_parse_error E _ e H).
    by destruct (fo_type file_object).
  - intros [fo|]; [|discriminate]. unfold validate_partial_file.
    destruct (validate_partial_body E fo _) as [v|[]]; discriminate.
Qed.

Lemma parse_failure_outcome_witness :
  validate_partial_file (Images.resident_env Images.corrupt_image)
    (Some (Images.whole_file Images.corrupt_image))
    = Ok (VCode PARTIAL_CONTENT_PE_DATA_ERROR)
  /\ validate_file (Images.resident_env Images.corrupt_image)
       (Images.whole_file Images.corrupt_image) = Raise PEFormatError.
Proof.
  destruct (parse_failure_outcome (Images.resident_env Images.corrupt_image)
              (Images.whole_file Images.corrupt_image) PEFormatError) as (H1 & H2 & _).
  - vm_compute. reflexivity.
  - split; [exact H1 | apply H2; discriminate].
Defined.

(** X23.  The certificate of a partially resident DataSectionObject is
    given to openssl as soon as one of its bytes is resident.  For a
    buffer that parses with a Security directory entry of positive
    fields: when the buffer ends at or before the VirtualAddress the
    verdict is CONTENT_SIGNED_NOT_VERIFIED; when it reaches beyond it,
    the verdict is the PARTIAL_CONTENT_VERIFIED string with what
    openssl says about the resident part of the blob, which is the
    whole blob only if the buffer reaches its end. *)
Theorem partial_data_section_verdict (E : Env) (file_object : FileObject) (pe : PE) :
  pefile_PE E (read_file_memory E file_object) = Ok pe ->
  fo_type file_object = DataSectionObject ->
  0 < Security_VirtualAddress (pe_headers pe) ->
  0 < Security_Size (pe_headers pe) ->
  (Z.of_nat (length (pe_data pe)) <= Security_VirtualAddress (pe_headers pe) ->
   validate_partial_file E (Some file_object) = Ok (VCode CONTENT_SIGNED_NOT_VERIFIED))
  /\ (Security_VirtualAddress (pe_headers pe) < Z.of_nat (length (pe_data pe)) ->
      exists cert,
        extract_cert pe = Some cert
        /\ length cert
           = Z.to_nat (Z.min (Security_Size (pe_headers pe))
                             (Z.of_nat (length (pe_data pe))
                              - Security_VirtualAddress (pe_headers pe)))
        /\ forall s, openssl_verdict E cert = Ok s ->
                     validate_partial_file E (Some file_object) = Ok (VPartialVerified s)).
Proof.
  intros Hpe Ht Hva Hsz.
  assert (Hhas : has_cert pe = true).
  { unfold has_cert, py_and.
    destruct (Security_Size (pe_headers pe) =? 0) eqn:H0; [lia|].
    apply negb_true_iff. lia. }
  unfold validate_partial_file, validate_partial_body.
  rewrite Hpe. simpl. rewrite Hhas, Ht. split.
  - intros Hlen. by rewrite extract_cert_beyond.
  - intros Hlen. unfold extract_cert. rewrite Hhas.
    set (cert := slice _ _ _).
    assert (Hcl : length cert
                  = Z.to_nat (Z.min (Security_Size (pe_headers pe))
                                    (Z.of_nat (length (pe_data pe))
                                     - Security_VirtualAddress (pe_headers pe)))).
    { unfold cert. rewrite slice_inside by lia. lia. }
    exists cert. split; [done|]. split; [done|].
    intros s Hs. destruct cert as [|b cert]; [simpl in Hcl; lia|].
    simpl. by rewrite Hs.
Qed.

Lemma partial_data_section_verdict_witness :
  validate_partial_file Images.signed_memory_env (Some (resident_prefix 0x100))
    = Ok (VCode CONTENT_SIGNED_NOT_VERIFIED)
  /\ exists cert,
       extract_cert (Images.parsed (slice_to Images.signed_on_disk 0x110) 0x100 43)
         = Some cert
       /\ length cert = 16%nat
       /\ forall s, openssl_verdict Images.signed_memory_env cert = Ok s ->
                    validate_partial_file Images.signed_memory_env
                      (Some (resident_prefix 0x110)) = Ok (VPartialVerified s).
Proof.
  split.
  - apply (proj1 (partial_data_section_verdict Images.signed_memory_env
                    (resident_prefix 0x100)
                    (Images.parsed (slice_to Images.signed_on_disk 0x100) 0x100 43)
                    ltac:(vm_compute; reflexivity) eq_refl ltac:(simpl; lia)
                    ltac:(simpl; lia))).
    vm_compute. discriminate.
  - apply (proj2 (partial_data_section_verdict Images.signed_memory_env
                    (resident_prefix 0x110)
                    (Images.parsed (slice_to Images.signed_on_disk 0x110) 0x100 43)
                    ltac:(vm_compute; reflexivity) eq_refl ltac:(simpl; lia)
                    ltac:(simpl; lia))).
    vm_compute. reflexivity.
Defined.

(** X24.  What lies behind the size that [calculate_pe_size] computes
    is cut off before anything is verified.  When the Security
    directory entry of the cut image points at or behind that size, the
    signature is never looked at: the DataSectionObject path returns
    PE_CHECKSUM_MISMATCH, or treats the image as one without embedded
    signature. *)
Theorem certificate_behind_computed_size (E : Env) (content : bytes) (n : Z) (pe : PE) :
  calculate_pe_size E content = Ok n ->
  pefile_PE E (slice_to content n) = Ok pe ->
  0 <= n <= Security_VirtualAddress (pe_headers pe) ->
  validate_data_section E content
    = (if pefile_verify_checksum E pe then unsigned_outcome E (slice_to content n)
       else Ok (VCode PE_CHECKSUM_MISMATCH))
  /\ verify_pe E pe = unsigned_outcome E (slice_to content n).
Proof.
  intros Hn Hpe Hva.
  assert (Hcert : truthy (extract_cert pe) = false).
  { apply extract_cert_beyond. destruct (pefile_PE_Ok E _ _ Hpe) as [-> _].
    pose proof (slice_to_length_le content n). lia. }
  split.
  - unfold validate_data_section, delete_padding. rewrite Hn. simpl.
    rewrite Hpe. simpl. by rewrite Hcert.
  - unfold verify_pe. rewrite Hcert.
    by destruct (pefile_PE_Ok E _ _ Hpe) as [-> _].
Qed.

Lemma certificate_behind_computed_size_witness :
  validate_data_section Images.bare_env gapped_image
    = (if pefile_verify_checksum Images.bare_env
            (Images.parsed (slice_to gapped_image 0x12b) 0x140 43)
       then unsigned_outcome Images.bare_env (slice_to gapped_image 0x12b)
       else Ok (VCode PE_CHECKSUM_MISMATCH))
  /\ verify_pe Images.bare_env (Images.parsed (slice_to gapped_image 0x12b) 0x140 43)
     = unsigned_outcome Images.bare_env (slice_to gapped_image 0x12b).
Proof.
  apply (certificate_behind_computed_size Images.bare_env gapped_image 0x12b
           (Images.parsed (slice_to gapped_image 0x12b) 0x140 43)).
  - vm_compute. reflexivity.
  - vm_compute. reflexivity.
  - simpl. lia.
Defined.

Lemma slice_to_app (content pad : bytes) (n : Z) :
  0 <= n <= Z.of_nat (length content) ->
  slice_to (content ++ pad) n = slice_to content n.
Proof.
  intros Hn. unfold slice_to, py_bound. destruct (n <? 0) eqn:Hneg; [lia|].
  rewrite length_app.
  replace (Z.to_nat (Z.min n (Z.of_nat (length content + length pad)))) with (Z.to_nat n)
    by lia.
  replace (Z.to_nat (Z.min n (Z.of_nat (length content)))) with (Z.to_nat n) by lia.
  apply take_app_le. lia.
Qed.

(** X25.  Bytes appended to an image do not change its verdict: when
    [calculate_pe_size] computes the same size with and without them
    and the image is at least that long, both full paths return on the
    padded buffer what they return on the image. *)
Theorem padding_is_ignored (E : Env) (content pad : bytes) (n : Z) :
  calculate_pe_size E content = Ok n ->
  calculate_pe_size E (content ++ pad) = Ok n ->
  0 <= n <= Z.of_nat (length content) ->
  validate_data_section E (content ++ pad) = validate_data_section E content
  /\ forall file_type,
       validate_image_section E (content ++ pad) file_type
       = validate_image_section E content file_type.
Proof.
  intros Hn Hn' Hlen.
  assert (Hd : delete_padding E (content ++ pad) = delete_padding E content).
  { unfold delete_padding. rewrite Hn, Hn'. simpl. by rewrite slice_to_app. }
  split.
  - unfold validate_data_section. by rewrite Hd.
  - intros file_type. unfold validate_image_section. by rewrite Hd.
Qed.

Lemma padding_is_ignored_witness :
  validate_data_section Images.bare_env (verified_image ++ replicate 0xd5 x00)
  = validate_data_section Images.bare_env verified_image
  /\ forall file_type,
       validate_image_section Images.bare_env (verified_image ++ replicate 0xd5 x00) file_type
       = validate_image_section Images.bare_env verified_image file_type.
Proof.
  apply (padding_is_ignored Images.bare_env verified_image (replicate 0xd5 x00) 0x12b).
  - vm_compute. reflexivity.
  - vm_compute. reflexivity.
  - vm_compute. split; discriminate.
Defined.

Lemma read_file_memory_frame (E E' : Env) (file_object : FileObject) :
  (forall offset len, base_read E offset len = base_read E' offset len) ->
  read_file_memory E file_object = read_file_memory E' file_object.
Proof.
  intros Hread. unfold read_file_memory, read_file_memory_present. f_equal.
  generalize BytesIO_new. induction (fo_present file_object) as [|m ms IH]; intros f.
  - reflexivity.
  - cbn [foldl]. rewrite IH. f_equal.
    unfold read_file_memory_step, read_span. by rewrite Hread.
Qed.

(** X26.  The partial path looks at nothing but the bytes it reads,
    what pefile parses from them and what openssl says: the verdict of
    [validate_partial_file] is the same in two environments that agree
    on these, whatever their digests, checksums, relocations, catalogs
    and candidate bases are.  No digest of the file is compared on this
    path. *)
Theorem partial_path_frame (E E' : Env) (file_object : option FileObject) :
  (forall offset len, base_read E offset len = base_read E' offset len) ->
  (forall data, pefile_parse E data = pefile_parse E' data) ->
  (forall cert, openssl_verdict E cert = openssl_verdict E' cert) ->
  validate_partial_file E file_object = validate_partial_file E' file_object.
Proof.
  intros Hread Hparse Hssl. destruct file_object as [fo|]; [|reflexivity].
  unfold validate_partial_file, validate_partial_body, pefile_PE.
  rewrite (read_file_memory_frame E E' fo Hread), Hparse.
  destruct (pefile_parse E' _) as [h|e]; [|reflexivity]. simpl.
  destruct (has_cert _); [|reflexivity].
  destruct (fo_type fo); try reflexivity.
  destruct (truthy _); [|reflexivity]. by rewrite Hssl.
Qed.

Lemma partial_path_frame_witness :
  validate_partial_file Images.signed_memory_env (Some (resident_prefix 0x110))
  = validate_partial_file (blind_env Images.signed_memory_env)
      (Some (resident_prefix 0x110)).
Proof.
  apply (partial_path_frame Images.signed_memory_env (blind_env Images.signed_memory_env));
    reflexivity.
Defined.

(** ** [get_pe_type] *)

Lemma append_nil_l (s : string) : (EmptyString ++ s)%string = s.
Proof. reflexivity. Qed.

Lemma append_cons (c : ascii) (s t : string) :
  (String c s ++ t)%string = String c (s ++ t)%string.
Proof. reflexivity. Qed.

Lemma append_nil_r (s : string) : (s ++ EmptyString)%string = s.
Proof. induction s as [|c s IH]; [done|]. by rewrite append_cons, IH. Qed.

Lemma string_app_assoc (a b c : string) :
  ((a ++ b) ++ c = a ++ (b ++ c))%string.
Proof.
  induction a as [|x a IH]; [by rewrite !append_nil_l|].
  by rewrite !append_cons, IH.
Qed.

Lemma last_dot_segment_no_dot (ext : string) :
  (forall c, In c (list_ascii_of_string ext) -> c <> "."%char) ->
  forall acc, last_dot_segment acc ext = (acc ++ ext)%string.
Proof.
  induction ext as [|c ext IH]; intros Hno acc; simpl.
  - by rewrite append_nil_r.
  - case_bool_decide as Hc; [exfalso; apply (Hno c); [by left | done]|].
    rewrite IH by (intros c' Hin; apply Hno; by right).
    by rewrite string_app_assoc, append_cons, append_nil_l.
Qed.

Lemma last_dot_segment_after_dot (base ext : string) :
  forall acc,
    last_dot_segment acc (base ++ String "." ext) = last_dot_segment EmptyString ext.
Proof.
  induction base as [|c base IH]; intros acc.
  - rewrite append_nil_l. reflexivity.
  - rewrite append_cons. simpl. case_bool_decide; apply IH.
Qed.

Lemma lower_char_idemp (c : ascii) : lower_char (lower_char c) = lower_char c.
Proof. destruct c as [[] [] [] [] [] [] [] []]; reflexivity. Qed.

Lemma lower_idemp (s : string) : lower (lower s) = lower s.
Proof.
  induction s as [|c s IH]; simpl; [done|]. by rewrite lower_char_idemp, IH.
Qed.

(** X27.  The type of a file object is the part of its name behind the
    last dot, in lower case, so that names which differ in the case of
    their extension look up the same candidate bases; a name without
    dot is its own type. *)
Theorem get_pe_type_extension (file_object : FileObject) (base ext : string) :
  (forall c, In c (list_ascii_of_string ext) -> c <> "."%char) ->
  (fo_name file_object = (base ++ String "." ext)%string \/ fo_name file_object = ext) ->
  get_pe_type file_object = lower ext
  /\ lower (get_pe_type file_object) = get_pe_type file_object.
Proof.
  intros Hno Hname.
  assert (H : get_pe_type file_object = lower ext).
  { unfold get_pe_type. destruct Hname as [-> | ->].
    - rewrite last_dot_segment_after_dot.
      by rewrite last_dot_segment_no_dot, append_nil_l.
    - by rewrite last_dot_segment_no_dot, append_nil_l. }
  split; [exact H|]. rewrite H. apply lower_idemp.
Qed.

Lemma get_pe_type_extension_witness :
  get_pe_type (Images.whole_file []) = lower "exe"
  /\ lower (get_pe_type (Images.whole_file [])) = get_pe_type (Images.whole_file []).
Proof.
  apply (get_pe_type_extension (Images.whole_file [])
           "\Device\HarddiskVolume1\Windows\notepad" "exe").
  - intros c Hin. simpl in Hin. intuition (subst; discriminate).
  - left. reflexivity.
Defined.

(** ** [normalize_filepath] *)

Lemma split_from_skip (key : list ascii) (s : list ascii) :
  forall skip cur, split_from key skip cur s = split_from key 0 cur (drop skip s).
Proof.
  induction s as [|c s IH]; intros skip cur.
  - by rewrite drop_nil.
  - destruct skip as [|n]; [done|]. simpl. apply IH.
Qed.

Lemma occurrences_cons_nil (key : list ascii) (c : ascii) (s : list ascii) :
  occurrences key (c :: s) = [] ->
  starts_with key (c :: s) = false /\ occurrences key s = [].
Proof.
  cbn [occurrences]. destruct (starts_with key (c :: s)); [discriminate|].
  rewrite app_nil_l. intros H. split; [done|]. by destruct (occurrences key s).
Qed.

Lemma occurrences_drop (key : list ascii) (s : list ascii) :
  occurrences key s = [] -> forall m, occurrences key (drop m s) = [].
Proof.
  induction s as [|c s IH]; intros H m.
  - by rewrite drop_nil.
  - destruct m as [|m]; [done|]. simpl.
    apply IH. by apply occurrences_cons_nil in H as [_ H].
Qed.

Lemma split_none (key : list ascii) (s : list ascii) :
  occurrences key s = [] -> forall cur, split_from key 0 cur s = [cur ++ s].
Proof.
  induction s as [|c s IH]; intros H cur.
  - simpl. by rewrite app_nil_r.
  - apply occurrences_cons_nil in H as [Hs H]. cbn [split_from]. rewrite Hs.
    rewrite IH by done. by rewrite <- app_assoc.
Qed.

Lemma split_once (key : list ascii) (s : list ascii) :
  key <> [] ->
  forall n cur,
    occurrences key s = [n] ->
    split_from key 0 cur s = [cur ++ take n s; drop (n + length key) s].
Proof.
  intros Hkey. induction s as [|c s IH]; intros n cur H; [discriminate|].
  cbn [occurrences] in H. cbn [split_from].
  destruct (starts_with key (c :: s)) eqn:Hs.
  - injection H as <- H. assert (H0 : occurrences key s = []) by by destruct (occurrences key s).
    rewrite split_from_skip, split_none by by apply occurrences_drop.
    rewrite take_0, app_nil_r, app_nil_l. do 2 f_equal.
    destruct key as [|k key]; [done|]. simpl. by rewrite Nat.sub_0_r.
  - rewrite app_nil_l in H.
    destruct (occurrences key s) as [|n' [|? ?]] eqn:Ho; try discriminate.
    injection H as <-. rewrite (IH n' (cur ++ [c]) eq_refl).
    by rewrite <- app_assoc.
Qed.

Lemma starts_with_nonempty (key s : list ascii) :
  key <> [] -> starts_with key s = true -> s <> [].
Proof. destruct key, s; done. Qed.

Lemma elem_of_occurrences (key s : list ascii) (i : nat) :
  i ∈ occurrences key s <-> (i < length s)%nat /\ starts_with key (drop i s) = true.
Proof.
  revert i. induction s as [|c s IH]; intros i.
  - simpl. split; [by intros ?%not_elem_of_nil | lia].
  - cbn [occurrences]. rewrite elem_of_app, list_elem_of_fmap. split.
    + intros [H | (j & -> & Hj)].
      * destruct (starts_with key (c :: s)) eqn:Hs; [|by apply not_elem_of_nil in H].
        apply list_elem_of_singleton in H as ->. simpl. split; [lia | done].
      * apply IH in Hj as [Hlt Hs]. simpl. split; [lia | done].
    + intros [Hlt Hs]. destruct i as [|j].
      * left. rewrite drop_0 in Hs. rewrite Hs. by left.
      * right. exists j. split; [done|]. apply IH. simpl in Hlt, Hs. split; [lia | done].
Qed.

Lemma occurrences_NoDup (key s : list ascii) : NoDup (occurrences key s).
Proof.
  induction s as [|c s IH]; [constructor|]. cbn [occurrences].
  apply NoDup_app. split; [|split].
  - destruct (starts_with key (c :: s)); [apply NoDup_singleton | constructor].
  - intros i Hi (j & -> & _)%list_elem_of_fmap.
    destruct (starts_with key (c :: s)); [|by apply not_elem_of_nil in Hi].
    by apply list_elem_of_singleton in Hi.
  - apply NoDup_fmap; [|done]. intros x y. lia.
Qed.

Lemma starts_with_app (k1 k2 s : list ascii) :
  starts_with (k1 ++ k2) s = true -> starts_with k2 (drop (length k1) s) = true.
Proof.
  revert s. induction k1 as [|k k1 IH]; intros s; [done|].
  destruct s as [|c s]; [done|]. simpl.
  intros [_ H]%andb_true_iff. by apply IH.
Qed.

(** An occurrence of [\\\?\C:] ends with an occurrence of [C:]. *)
Lemma extended_occurrence (filepath : list ascii) (i : nat) :
  i ∈ occurrences KEY_EXTENDED_C filepath -> (i + 5)%nat ∈ occurrences KEY_C filepath.
Proof.
  rewrite !elem_of_occurrences. intros [Hlt Hs].
  apply (starts_with_app (chars "\\\?\") KEY_C) in Hs. rewrite drop_drop in Hs.
  change (length (chars "\\\?\")) with 5%nat in Hs.
  split; [|exact Hs].
  apply starts_with_nonempty in Hs; [|done].
  destruct (decide (i + 5 < length filepath)%nat) as [|Hge]; [done|].
  rewrite drop_ge in Hs by lia. done.
Qed.

Lemma extended_occurrences_none (filepath : list ascii) :
  occurrences KEY_C filepath = [] -> occurrences KEY_EXTENDED_C filepath = [].
Proof.
  intros H. destruct (occurrences KEY_EXTENDED_C filepath) as [|i l] eqn:Ho; [done|].
  assert (Hi : i ∈ occurrences KEY_EXTENDED_C filepath) by (rewrite Ho; left).
  apply extended_occurrence in Hi. rewrite H in Hi. by apply not_elem_of_nil in Hi.
Qed.

Lemma extended_occurrences_once (filepath : list ascii) (n : nat) :
  occurrences KEY_C filepath = [n] ->
  occurrences KEY_EXTENDED_C filepath = []
  \/ exists m, occurrences KEY_EXTENDED_C filepath = [m] /\ (m + 5)%nat = n.
Proof.
  intros H.
  assert (Hall : forall i, i ∈ occurrences KEY_EXTENDED_C filepath -> (i + 5)%nat = n).
  { intros i Hi. apply extended_occurrence in Hi. rewrite H in Hi.
    by apply list_elem_of_singleton in Hi. }
  pose proof (occurrences_NoDup KEY_EXTENDED_C filepath) as Hnd.
  destruct (occurrences KEY_EXTENDED_C filepath) as [|a [|b l]]; [by left| |].
  - right. exists a. split; [done|]. apply Hall. left.
  - exfalso. assert (a = b).
    { pose proof (Hall a ltac:(left)). pose proof (Hall b ltac:(right; left)). lia. }
    subst b. apply NoDup_cons in Hnd as [Hnd _]. apply Hnd. left.
Qed.

Lemma key_result_none (key replacement filepath : list ascii) :
  occurrences key filepath = [] -> key_result key replacement filepath = None.
Proof.
  intros H. unfold key_result, py_split. by rewrite split_none.
Qed.

Lemma key_result_once (key replacement filepath : list ascii) (n : nat) :
  key <> [] ->
  occurrences key filepath = [n] ->
  key_result key replacement filepath
  = Some (replacement ++ re_escape (drop (n + length key) filepath)).
Proof.
  intros Hkey H. unfold key_result, py_split. by rewrite (split_once key filepath Hkey n).
Qed.

Lemma normalize_filepath_cons (key replacement : list ascii)
    (rest : list (list ascii * list ascii)) (filepath : list ascii) :
  normalize_filepath ((key, replacement) :: rest) filepath
  = match key_result key replacement filepath with
    | Some r => Some r
    | None => normalize_filepath rest filepath
    end.
Proof.
  cbn [normalize_filepath]. unfold key_result.
  by destruct (py_split key filepath) as [|? [|? [|? ?]]].
Qed.

Lemma normalize_filepath_first (keys : list (list ascii * list ascii))
    (filepath r : list ascii) :
  (forall kr, kr ∈ keys ->
     key_result kr.1 kr.2 filepath = None \/ key_result kr.1 kr.2 filepath = Some r) ->
  (exists kr, kr ∈ keys /\ key_result kr.1 kr.2 filepath = Some r) ->
  normalize_filepath keys filepath = Some r.
Proof.
  induction keys as [|[key repl] keys IH]; intros Hall (kr & Hin & Hr).
  - by apply not_elem_of_nil in Hin.
  - rewrite normalize_filepath_cons.
    destruct (Hall (key, repl) ltac:(left)) as [Hn | Hs]; simpl in *.
    + rewrite Hn. apply IH.
      * intros kr' Hin'. apply Hall. by right.
      * apply elem_of_cons in Hin as [-> | Hin]; [simpl in Hr; congruence|].
        by exists kr.
    + by rewrite Hs.
Qed.

Lemma normalize_filepath_none (keys : list (list ascii * list ascii))
    (filepath : list ascii) :
  (forall kr, kr ∈ keys -> key_result kr.1 kr.2 filepath = None) ->
  normalize_filepath keys filepath = None.
Proof.
  induction keys as [|[key repl] keys IH]; intros Hall; [done|].
  rewrite normalize_filepath_cons.
  pose proof (Hall (key, repl) ltac:(left)) as Hhere. cbn [fst snd] in Hhere.
  rewrite Hhere. apply IH. intros kr Hin. apply Hall. by right.
Qed.

(** X28.  [normalize_filepath] for the paths in which its keys occur
    at most once, in whatever order the dict gives its keys.  A path
    with one occurrence of [C:] and none of [\SystemRoot] becomes the
    pattern of a volume device followed by the escaped rest of the
    path, what precedes [C:] being dropped; a path with one occurrence
    of [\SystemRoot] and none of [C:] becomes the pattern of the
    Windows directory of a volume device followed by the escaped rest;
    for a path in which neither occurs the function returns [None]. *)
Theorem normalize_filepath_outcome (order : list (list ascii * list ascii))
    (filepath : list ascii) :
  order ≡ₚ to_replace ->
  (forall n,
     occurrences KEY_C filepath = [n] ->
     occurrences KEY_SYSTEMROOT filepath = [] ->
     normalize_filepath order filepath
     = Some (DEVICE_VOLUME ++ re_escape (drop (n + 2) filepath)))
  /\ (forall n,
        occurrences KEY_SYSTEMROOT filepath = [n] ->
        occurrences KEY_C filepath = [] ->
        normalize_filepath order filepath
        = Some (DEVICE_VOLUME_WINDOWS ++ re_escape (drop (n + 11) filepath)))
  /\ (occurrences KEY_SYSTEMROOT filepath = [] ->
      occurrences KEY_C filepath = [] ->
      normalize_filepath order filepath = None).
Proof.
  intros Hperm.
  assert (Hin : forall kr, kr ∈ order <-> kr ∈ to_replace)
    by (intros kr; by rewrite Hperm).
  split; [|split].
  - intros n Hc Hs. apply normalize_filepath_first.
    + intros kr Hkr. apply Hin in Hkr. unfold to_replace in Hkr.
      apply elem_of_cons in Hkr as [-> | Hkr]; [left; by apply key_result_none|].
      apply elem_of_cons in Hkr as [-> | Hkr].
      * destruct (extended_occurrences_once filepath n Hc) as [Hn | (m & Hm & <-)];
          [left; by apply key_result_none|].
        right. cbn [fst snd]. rewrite (key_result_once _ _ _ m) by done.
        change (length KEY_EXTENDED_C) with 7%nat.
        by replace (m + 5 + 2)%nat with (m + 7)%nat by lia.
      * apply list_elem_of_singleton in Hkr as ->. right. cbn [fst snd].
        by rewrite (key_result_once _ _ _ n).
    + exists (KEY_C, DEVICE_VOLUME). split.
      * apply Hin. unfold to_replace. do 2 right. left.
      * cbn [fst snd]. by rewrite (key_result_once _ _ _ n).
  - intros n Hs Hc. apply normalize_filepath_first.
    + intros kr Hkr. apply Hin in Hkr. unfold to_replace in Hkr.
      apply elem_of_cons in Hkr as [-> | Hkr];
        [right; cbn [fst snd]; by rewrite (key_result_once _ _ _ n)|].
      apply elem_of_cons in Hkr as [-> | Hkr];
        [left; by apply key_result_none, extended_occurrences_none|].
      apply list_elem_of_singleton in Hkr as ->. left. by apply key_result_none.
    + exists (KEY_SYSTEMROOT, DEVICE_VOLUME_WINDOWS). split.
      * apply Hin. unfold to_replace. left.
      * cbn [fst snd]. by rewrite (key_result_once _ _ _ n).
  - intros Hs Hc. apply normalize_filepath_none.
    intros kr Hkr. apply Hin in Hkr. unfold to_replace in Hkr.
    apply elem_of_cons in Hkr as [-> | Hkr]; [by apply key_result_none|].
    apply elem_of_cons in Hkr as [-> | Hkr];
      [by apply key_result_none, extended_occurrences_none|].
    apply list_elem_of_singleton in Hkr as ->. by apply key_result_none.
Qed.

Lemma normalize_filepath_outcome_witness :
  normalize_filepath (reverse to_replace) (chars "\\?\C:\Windows\notepad.exe")
  = Some (DEVICE_VOLUME ++ re_escape (chars "\Windows\notepad.exe"))
  /\ normalize_filepath (reverse to_replace) (chars "\SystemRoot\system32\ntoskrnl.exe")
     = Some (DEVICE_VOLUME_WINDOWS ++ re_escape (chars "\system32\ntoskrnl.exe"))
  /\ normalize_filepath (reverse to_replace) (chars "\Device\HarddiskVolume1\Windows\notepad.exe")
     = None.
Proof.
  split; [|split].
  - apply (proj1 (normalize_filepath_outcome (reverse to_replace)
                    (chars "\\?\C:\Windows\notepad.exe") (reverse_Permutation _)) 4%nat);
      reflexivity.
  - apply (proj1 (proj2 (normalize_filepath_outcome (reverse to_replace)
                           (chars "\SystemRoot\system32\ntoskrnl.exe")
                           (reverse_Permutation _))) 0%nat);
      reflexivity.
  - apply (proj2 (proj2 (normalize_filepath_outcome (reverse to_replace)
                           (chars "\Device\HarddiskVolume1\Windows\notepad.exe")
                           (reverse_Permutation _))));
      reflexivity.
Defined.

(** The order of the keys matters for a path in which both [C:] and
    [\SystemRoot] occur. *)
Example normalize_filepath_order :
  normalize_filepath to_replace (chars "C:\SystemRoot\x")
  <> normalize_filepath (reverse to_replace) (chars "C:\SystemRoot\x").
Proof. vm_compute. discriminate. Qed.
